(** * Segment filter DSL and evaluator of the dshop platform

    A shallow embedding of
    - [src/server/types/segment.types.ts]  (operators, fields, field types,
      [validateOperatorForField], [parseRelativeDate]) and
    - [src/server/services/segment/evaluator.service.ts]
      ([conditionToPrisma], [filterGroupToPrisma], [filtersToPrismaWhere],
      [evaluateSegment], [countMatchingCustomers], [previewSegmentCustomers],
      [validateFiltersExecutable], [diffEvaluations]),
    followed by the properties of these functions.

    Conventions of the embedding.
    - A JavaScript value is a [JsValue]; an object literal is the list of
      its own properties in creation order.
    - Fields, operators and group logic are strings, as they are at run time:
      the code itself tests for names outside the enumerations.
    - A thrown [Error] is the [Throw] case of [result], carrying the message.
    - A [Date] holds its time value: [Some ms] (milliseconds since the epoch)
      or [None] for the NaN time value of an invalid date.
    - Numeric payloads are never inspected by the modelled code, except for
      the spend amounts, which the store keeps as exact decimals; both are
      integers here (a decimal is its unscaled value).
    - The wall clock, the local time zone and the host's non-standard date
      formats are read from a [Host]. *)

From Stdlib Require Import ZArith Lia Ascii String List Permutation Sorted.
From stdpp Require Import base decidable option list strings gmap.

Local Open Scope string_scope.
Set Warnings "-register-all".

(* ===================================================================== *)
(** ** JavaScript values and exceptions *)
(* ===================================================================== *)

(** Time value of a Date object; [None] is NaN (an invalid date). *)
Definition Date : Type := option Z.

Inductive JsValue : Type :=
| JUndefined
| JNull
| JBool (b : bool)
| JNum (n : Z)
| JStr (s : string)
| JDate (d : Date)
| JArr (items : list JsValue)
| JObj (props : list (string * JsValue)).

(** Property read [o[k]] on an object literal without duplicate keys. *)
Fixpoint js_get (props : list (string * JsValue)) (k : string) : JsValue :=
  match props with
  | [] => JUndefined
  | (k', v) :: rest => if bool_decide (k' = k) then v else js_get rest k
  end.

Definition Array_isArray (v : JsValue) : bool :=
  match v with JArr _ => true | _ => false end.

(** Synchronous code that may throw. *)
Inductive result (A : Type) : Type :=
| Ok (a : A)
| Throw (message : string).
Arguments Ok {A} a.
Arguments Throw {A} message.

Definition bind {A B} (r : result A) (k : A -> result B) : result B :=
  match r with
  | Ok a => k a
  | Throw m => Throw m
  end.

Notation "'let!' x ':=' r 'in' k" := (bind r (fun x => k))
  (at level 10, x name, r at level 100, k at level 200).

(** [xs.map(f)] where [f] may throw: the first exception aborts the map. *)
Fixpoint Array_map_throwing {A B} (f : A -> result B) (xs : list A)
  : result (list B) :=
  match xs with
  | [] => Ok []
  | x :: rest =>
      let! y := f x in
      let! ys := Array_map_throwing f rest in
      Ok (y :: ys)
  end.

(* ===================================================================== *)
(** ** The host's Date (ECMAScript time values) *)
(* ===================================================================== *)

(** The day and time arithmetic of Date objects, on integer time values.
    Within the range of dates the host's arithmetic on doubles is exact on
    these integers, and outside it [TimeClip] gives NaN. *)

Module JsDate.
Local Open Scope Z_scope.

Definition msPerSecond : Z := 1000.
Definition msPerMinute : Z := 60000.
Definition msPerHour : Z := 3600000.
Definition msPerDay : Z := 86400000.

Definition Day (t : Z) : Z := t / msPerDay.
Definition TimeWithinDay (t : Z) : Z := t mod msPerDay.

Definition DaysInYear (y : Z) : Z :=
  if negb (y mod 4 =? 0) then 365
  else if negb (y mod 100 =? 0) then 366
  else if negb (y mod 400 =? 0) then 365
  else 366.

Definition DayFromYear (y : Z) : Z :=
  365 * (y - 1970) + (y - 1969) / 4 - (y - 1901) / 100 + (y - 1601) / 400.

(** The largest year whose first day is not after [t]: an estimate from the
    mean length of a year, corrected by at most one. *)
Definition YearFromTime (t : Z) : Z :=
  let d := Day t in
  let y := 1970 + (d * 400) / 146097 in
  if d <? DayFromYear y then y - 1
  else if DayFromYear (y + 1) <=? d then y + 1
  else y.

Definition InLeapYear (t : Z) : Z :=
  if DaysInYear (YearFromTime t) =? 366 then 1 else 0.

Definition DayWithinYear (t : Z) : Z := Day t - DayFromYear (YearFromTime t).

(** Days of a year before month [m] (0 = January), [leap] being 0 or 1. *)
Definition days_before_month (m leap : Z) : Z :=
  match m with
  | 0 => 0
  | 1 => 31
  | 2 => 59 + leap
  | 3 => 90 + leap
  | 4 => 120 + leap
  | 5 => 151 + leap
  | 6 => 181 + leap
  | 7 => 212 + leap
  | 8 => 243 + leap
  | 9 => 273 + leap
  | 10 => 304 + leap
  | _ => 334 + leap
  end.

Definition MonthFromTime (t : Z) : Z :=
  let d := DayWithinYear t in
  let leap := InLeapYear t in
  if d <? 31 then 0
  else if d <? 59 + leap then 1
  else if d <? 90 + leap then 2
  else if d <? 120 + leap then 3
  else if d <? 151 + leap then 4
  else if d <? 181 + leap then 5
  else if d <? 212 + leap then 6
  else if d <? 243 + leap then 7
  else if d <? 273 + leap then 8
  else if d <? 304 + leap then 9
  else if d <? 334 + leap then 10
  else 11.

Definition DateFromTime (t : Z) : Z :=
  DayWithinYear t - days_before_month (MonthFromTime t) (InLeapYear t) + 1.

Definition HourFromTime (t : Z) : Z := (t / msPerHour) mod 24.
Definition MinFromTime (t : Z) : Z := (t / msPerMinute) mod 60.
Definition SecFromTime (t : Z) : Z := (t / msPerSecond) mod 60.
Definition msFromTime (t : Z) : Z := t mod msPerSecond.

Definition MakeTime (hour min sec ms : Z) : Z :=
  hour * msPerHour + min * msPerMinute + sec * msPerSecond + ms.

Definition MakeDay (year month date : Z) : Z :=
  let ym := year + month / 12 in
  let mn := month mod 12 in
  let leap := if DaysInYear ym =? 366 then 1 else 0 in
  DayFromYear ym + days_before_month mn leap + date - 1.

Definition MakeDate (day time : Z) : Z := day * msPerDay + time.

Definition TimeClip (time : Z) : Date :=
  if 8640000000000000 <? Z.abs time then None else Some time.

(** The number of days of month [m] (0 = January) of year [y]. *)
Definition days_in_month (y m : Z) : Z :=
  MakeDay y (m + 1) 1 - MakeDay y m 1.

End JsDate.

(** What the code reads from its host: the wall clock ([new Date()]), the
    local time zone adjustment [LocalTZA(t, isUTC)] in milliseconds, and the
    host's own date formats, tried by [new Date(string)] on a string that is
    in neither format every host has to accept. The translation of a filter
    set is synchronous: it sees one reading of the clock. *)
Record Host : Type := {
  host_now : Z;
  LocalTZA : Z -> bool -> Z;
  host_date_fallback : string -> Date;
}.

Module DateMethods.
Import JsDate.
Local Open Scope Z_scope.

Section WithHost.
Variable h : Host.

Definition LocalTime (t : Z) : Z := t + LocalTZA h t true.
Definition UTC (t : Z) : Z := t - LocalTZA h t false.

(** Methods of a valid Date whose time value is [tv]; a setter returns the
    object's new time value. *)
Definition getDate (tv : Z) : Z := DateFromTime (LocalTime tv).
Definition getHours (tv : Z) : Z := HourFromTime (LocalTime tv).
Definition getMonth (tv : Z) : Z := MonthFromTime (LocalTime tv).

Definition setDate (tv : Z) (date : Z) : Date :=
  let t := LocalTime tv in
  let newDate :=
    MakeDate (MakeDay (YearFromTime t) (MonthFromTime t) date)
             (TimeWithinDay t) in
  TimeClip (UTC newDate).

Definition setHours (tv : Z) (hour : Z) : Date :=
  let t := LocalTime tv in
  let date :=
    MakeDate (Day t)
             (MakeTime hour (MinFromTime t) (SecFromTime t) (msFromTime t)) in
  TimeClip (UTC date).

Definition setMonth (tv : Z) (month : Z) : Date :=
  let t := LocalTime tv in
  let newDate :=
    MakeDate (MakeDay (YearFromTime t) month (DateFromTime t))
             (TimeWithinDay t) in
  TimeClip (UTC newDate).

End WithHost.
End DateMethods.

(* ===================================================================== *)
(** ** [new Date(string)] *)
(* ===================================================================== *)

Module DateParse.
Import JsDate.
Local Open Scope Z_scope.

Definition digit_of (c : ascii) : option Z :=
  let n := Z.of_N (N_of_ascii c) in
  if (48 <=? n) && (n <=? 57) then Some (n - 48) else None.

Definition is_digit (c : ascii) : bool :=
  match digit_of c with Some _ => true | None => false end.

(** Exactly [n] decimal digits. *)
Fixpoint digits_exact (n : nat) (acc : Z) (cs : list ascii)
  : option (Z * list ascii) :=
  match n with
  | O => Some (acc, cs)
  | S n' =>
      match cs with
      | c :: rest =>
          match digit_of c with
          | Some d => digits_exact n' (10 * acc + d) rest
          | None => None
          end
      | [] => None
      end
  end.

Definition expect (c : ascii) (cs : list ascii) : option (list ascii) :=
  match cs with
  | c' :: rest => if bool_decide (c' = c) then Some rest else None
  | [] => None
  end.

(** The elements of a string in the ECMAScript date-time string format
    (a profile of ISO 8601): [YYYY], [YYYY-MM] or [YYYY-MM-DD], the year
    possibly expanded to a sign and six digits, optionally followed by
    [THH:mm], [THH:mm:ss] or [THH:mm:ss.sss] and then by [Z] or [±HH:mm]. *)
Record IsoFields : Type := {
  iso_year : Z;
  iso_month : Z;
  iso_day : Z;
  iso_time : option (Z * Z * Z * Z);
  iso_offset : option Z;
}.

Definition parse_year (cs : list ascii) : option (Z * list ascii) :=
  match cs with
  | "+"%char :: rest => digits_exact 6 0 rest
  | "-"%char :: rest =>
      match digits_exact 6 0 rest with
      | Some (y, rest') => if y =? 0 then None else Some (- y, rest')
      | None => None
      end
  | _ => digits_exact 4 0 cs
  end.

Definition parse_date_part (cs : list ascii)
  : option (Z * Z * Z * list ascii) :=
  '(y, r) ← parse_year cs;
  match r with
  | "-"%char :: r1 =>
      '(mo, r2) ← digits_exact 2 0 r1;
      match r2 with
      | "-"%char :: r3 =>
          '(d, r4) ← digits_exact 2 0 r3;
          Some (y, mo, d, r4)
      | _ => Some (y, mo, 1, r2)
      end
  | _ => Some (y, 1, 1, r)
  end.

Definition parse_time_part (cs : list ascii)
  : option (Z * Z * Z * Z * list ascii) :=
  '(hh, r1) ← digits_exact 2 0 cs;
  r2 ← expect ":" r1;
  '(mm, r3) ← digits_exact 2 0 r2;
  match r3 with
  | ":"%char :: r4 =>
      '(ss, r5) ← digits_exact 2 0 r4;
      match r5 with
      | "."%char :: r6 =>
          '(ms, r7) ← digits_exact 3 0 r6;
          Some (hh, mm, ss, ms, r7)
      | _ => Some (hh, mm, ss, 0, r5)
      end
  | _ => Some (hh, mm, 0, 0, r3)
  end.

(** The time zone suffix, which ends the string: the offset in minutes, or
    [None] when there is no suffix. *)
Definition parse_offset (cs : list ascii) : option (option Z) :=
  match cs with
  | [] => Some None
  | ["Z"%char] => Some (Some 0)
  | sign :: rest =>
      if bool_decide (sign = "+"%char) || bool_decide (sign = "-"%char) then
        '(hh, r1) ← digits_exact 2 0 rest;
        r2 ← expect ":" r1;
        '(mm, r3) ← digits_exact 2 0 r2;
        match r3 with
        | [] =>
            if (hh <=? 23) && (mm <=? 59) then
              let minutes := hh * 60 + mm in
              Some (Some (if bool_decide (sign = "-"%char)
                          then - minutes else minutes))
            else None
        | _ => None
        end
      else None
  end.

Definition iso_fields (s : string) : option IsoFields :=
  '(y, mo, d, r) ← parse_date_part (list_ascii_of_string s);
  match r with
  | [] => Some {| iso_year := y; iso_month := mo; iso_day := d;
                  iso_time := None; iso_offset := None |}
  | "T"%char :: r1 =>
      '(hh, mm, ss, ms, r2) ← parse_time_part r1;
      off ← parse_offset r2;
      Some {| iso_year := y; iso_month := mo; iso_day := d;
              iso_time := Some (hh, mm, ss, ms); iso_offset := off |}
  | _ => None
  end.

(** Whether a string is in the date-time string format. *)
Definition is_iso_datetime (s : string) : bool :=
  match iso_fields s with Some _ => true | None => false end.

Definition legal_time (t : Z * Z * Z * Z) : bool :=
  let '(hh, mm, ss, ms) := t in
  ((hh <=? 23) && (mm <=? 59) && (ss <=? 59))
  || ((hh =? 24) && (mm =? 0) && (ss =? 0) && (ms =? 0)).

(** Time value of the elements; illegal element values give NaN. A date
    without a time is UTC, a date-time without an offset is local time. *)
Definition iso_time_value (h : Host) (f : IsoFields) : Date :=
  if (1 <=? iso_month f) && (iso_month f <=? 12)
     && (1 <=? iso_day f) && (iso_day f <=? 31) then
    let day := MakeDay (iso_year f) (iso_month f - 1) (iso_day f) in
    match iso_time f with
    | None => TimeClip (MakeDate day 0)
    | Some (hh, mm, ss, ms) =>
        if legal_time (hh, mm, ss, ms) then
          let tv := MakeDate day (MakeTime hh mm ss ms) in
          match iso_offset f with
          | Some minutes => TimeClip (tv - minutes * msPerMinute)
          | None => TimeClip (DateMethods.UTC h tv)
          end
        else None
    end
  else None.

(** The format of [Date.prototype.toUTCString], which every host parses
    back: [Www, DD Mon YYYY HH:mm:ss GMT], here for the years 0100-9999. A
    year below 100 is left to the host, as hosts differ on it: some read it
    as written, others as a year of the 1900s or 2000s. *)
Definition month_names : list string :=
  ["Jan"; "Feb"; "Mar"; "Apr"; "May"; "Jun";
   "Jul"; "Aug"; "Sep"; "Oct"; "Nov"; "Dec"].
Definition weekday_names : list string :=
  ["Sun"; "Mon"; "Tue"; "Wed"; "Thu"; "Fri"; "Sat"].

Fixpoint index_of (x : string) (xs : list string) (i : Z) : option Z :=
  match xs with
  | [] => None
  | y :: rest => if bool_decide (y = x) then Some i else index_of x rest (i + 1)
  end.

Definition WeekDay (t : Z) : Z := (Day t + 4) mod 7.

Definition take3 (cs : list ascii) : option (string * list ascii) :=
  match cs with
  | a :: b :: c :: rest => Some (string_of_list_ascii [a; b; c], rest)
  | _ => None
  end.

Definition utc_string_time_value (s : string) : option Z :=
  '(wd, r1) ← take3 (list_ascii_of_string s);
  w ← index_of wd weekday_names 0;
  r2 ← expect "," r1;
  r3 ← expect " " r2;
  '(d, r4) ← digits_exact 2 0 r3;
  r5 ← expect " " r4;
  '(mon, r6) ← take3 r5;
  mo ← index_of mon month_names 0;
  r7 ← expect " " r6;
  '(y, r8) ← digits_exact 4 0 r7;
  r9 ← expect " " r8;
  '(hh, r10) ← digits_exact 2 0 r9;
  r11 ← expect ":" r10;
  '(mm, r12) ← digits_exact 2 0 r11;
  r13 ← expect ":" r12;
  '(ss, r14) ← digits_exact 2 0 r13;
  if bool_decide (r14 = list_ascii_of_string " GMT")
     && (100 <=? y)
     && (1 <=? d) && (d <=? days_in_month y mo)
     && (hh <=? 23) && (mm <=? 59) && (ss <=? 59) then
    let tv := MakeDate (MakeDay y mo d) (MakeTime hh mm ss 0) in
    if WeekDay tv =? w then Some tv else None
  else None.

(** [new Date(s)] for a string [s]. *)
Definition Date_of_string (h : Host) (s : string) : Date :=
  match iso_fields s with
  | Some f => iso_time_value h f
  | None =>
      match utc_string_time_value s with
      | Some tv => TimeClip tv
      | None => host_date_fallback h s
      end
  end.

End DateParse.

(** A host in the UTC zone that accepts no date format of its own. *)
Definition utc_host (now : Z) : Host :=
  {| host_now := now;
     LocalTZA := fun _ _ => 0%Z;
     host_date_fallback := fun _ => None |}.

(* ===================================================================== *)
(** ** segment.types.ts *)
(* ===================================================================== *)

(** [xs.includes(x)] on an array of strings. *)
Definition includes (xs : list string) (x : string) : bool :=
  bool_decide (x ∈ xs).

Definition FilterOperator_options : list string :=
  ["eq"; "neq"; "gt"; "gte"; "lt"; "lte"; "in"; "notIn"; "between";
   "contains"; "isNull"; "isNotNull"].

Definition FilterableField_options : list string :=
  ["email"; "firstName"; "lastName"; "phone";
   "totalSpent"; "ordersCount"; "avgOrderValue"; "daysSinceLastOrder";
   "lastOrderDate"; "firstOrderDate"; "shopifyCreatedAt"; "createdAt";
   "recencyScore"; "frequencyScore"; "monetaryScore"; "rfmSegment";
   "isHighValue"; "isChurnRisk"; "hasAbandonedCart"].

Definition FilterLogic_options : list string := ["AND"; "OR"].

Inductive FieldType : Type :=
| TString | TNumber | TDate | TBoolean | TEnum.

Global Instance FieldType_eq_dec : EqDecision FieldType.
Proof. solve_decision. Defined.

(** The object literal [FieldTypeMap], property by property. *)
Definition FieldTypeMap_entries : list (string * FieldType) :=
  [("email", TString); ("firstName", TString); ("lastName", TString);
   ("phone", TString);
   ("totalSpent", TNumber); ("ordersCount", TNumber);
   ("avgOrderValue", TNumber); ("daysSinceLastOrder", TNumber);
   ("recencyScore", TNumber); ("frequencyScore", TNumber);
   ("monetaryScore", TNumber);
   ("lastOrderDate", TDate); ("firstOrderDate", TDate);
   ("shopifyCreatedAt", TDate); ("createdAt", TDate);
   ("isHighValue", TBoolean); ("isChurnRisk", TBoolean);
   ("hasAbandonedCart", TBoolean);
   ("rfmSegment", TEnum)].

Fixpoint assoc {V} (entries : list (string * V)) (k : string) : option V :=
  match entries with
  | [] => None
  | (k', v) :: rest => if bool_decide (k' = k) then Some v else assoc rest k
  end.

(** [FieldTypeMap[field]]; [None] where the read yields no field type. *)
Definition FieldTypeMap (field : string) : option FieldType :=
  assoc FieldTypeMap_entries field.

(** [Object.keys(FieldTypeMap)] *)
Definition FieldTypeMap_keys : list string := FieldTypeMap_entries.*1.

Record FilterCondition : Type := {
  field : string;
  operator : string;
  value : JsValue;   (* [JUndefined] when the property is absent *)
}.

Record FilterGroup : Type := {
  logic : string;
  conditions : list FilterCondition;
}.

Record SegmentFilters : Type := {
  groups : list FilterGroup;
}.

Definition validateOperatorForField (field operator : string) : bool :=
  let fieldType := FieldTypeMap field in
  let universalOps := ["eq"; "neq"; "in"; "notIn"; "isNull"; "isNotNull"] in
  if includes universalOps operator then true
  else
    match fieldType with
    | Some TNumber | Some TDate =>
        includes ["gt"; "gte"; "lt"; "lte"; "between"] operator
    | Some TString => includes ["contains"] operator
    | Some TBoolean => false
    | Some TEnum => false
    | None => false
    end.

(** [value.match(/^(-?\d+)([dhm])$/)]: the two captured groups. *)
Definition is_unit (c : ascii) : bool :=
  bool_decide (c = "d"%char) || bool_decide (c = "h"%char)
  || bool_decide (c = "m"%char).

Definition match_relative (s : string) : option (string * ascii) :=
  match rev (list_ascii_of_string s) with
  | [] => None
  | u :: rbody =>
      let body := rev rbody in
      let ds := match body with
                | c :: rest => if bool_decide (c = "-"%char) then rest else body
                | [] => body
                end in
      if is_unit u
         && negb (bool_decide (ds = []))
         && forallb DateParse.is_digit ds
      then Some (string_of_list_ascii body, u)
      else None
  end.

(** [parseInt(s, 10)] on a string without leading white space: an optional
    sign and the longest run of digits after it; [None] is NaN. The result
    is the integer the digits denote, which is the number the code holds as
    long as it is at most 2^53; a larger one the code holds rounded. *)
Fixpoint leading_digits (acc : Z) (cs : list ascii) : Z :=
  match cs with
  | [] => acc
  | c :: rest =>
      match DateParse.digit_of c with
      | Some d => leading_digits (10 * acc + d)%Z rest
      | None => acc
      end
  end.

Definition parseInt (s : string) : option Z :=
  let cs := list_ascii_of_string s in
  let '(negative, body) :=
    match cs with
    | c :: rest =>
        if bool_decide (c = "-"%char) then (true, rest)
        else if bool_decide (c = "+"%char) then (false, rest)
        else (false, cs)
    | [] => (false, cs)
    end in
  match body with
  | c :: _ =>
      if DateParse.is_digit c then
        let n := leading_digits 0 body in
        Some (if negative then (- n)%Z else n)
      else None
  | [] => None
  end.

Definition parseRelativeDate (h : Host) (value : string) : Date :=
  match match_relative value with
  | None => DateParse.Date_of_string h value
  | Some (digits, unit) =>
      match parseInt digits with
      | Some amount =>
          let now := host_now h in
          if bool_decide (unit = "d"%char) then
            DateMethods.setDate h now (DateMethods.getDate h now + amount)
          else if bool_decide (unit = "h"%char) then
            DateMethods.setHours h now (DateMethods.getHours h now + amount)
          else if bool_decide (unit = "m"%char) then
            DateMethods.setMonth h now (DateMethods.getMonth h now + amount)
          else Some now
      | None => None
      end
  end.

(* ===================================================================== *)
(** ** evaluator.service.ts: filter to where clause *)
(* ===================================================================== *)

Definition conditionToPrisma (h : Host) (condition : FilterCondition)
  : result JsValue :=
  let field := field condition in
  let operator := operator condition in
  let value := value condition in
  let fieldType := FieldTypeMap field in
  if bool_decide (operator = "isNull") then
    Ok (JObj [(field, JNull)])
  else if bool_decide (operator = "isNotNull") then
    Ok (JObj [(field, JObj [("not", JNull)])])
  else
    let processedValue := value in
    let processedValue :=
      match fieldType, value with
      | Some TDate, JStr s => JDate (parseRelativeDate h s)
      | _, _ => processedValue
      end in
    let processedValue :=
      match fieldType, value with
      | Some TDate, JArr items =>
          JArr (map (fun v => match v with
                              | JStr s => JDate (parseRelativeDate h s)
                              | _ => v
                              end) items)
      | _, _ => processedValue
      end in
    if bool_decide (operator = "eq") then
      Ok (JObj [(field, processedValue)])
    else if bool_decide (operator = "neq") then
      Ok (JObj [(field, JObj [("not", processedValue)])])
    else if bool_decide (operator = "gt") then
      Ok (JObj [(field, JObj [("gt", processedValue)])])
    else if bool_decide (operator = "gte") then
      Ok (JObj [(field, JObj [("gte", processedValue)])])
    else if bool_decide (operator = "lt") then
      Ok (JObj [(field, JObj [("lt", processedValue)])])
    else if bool_decide (operator = "lte") then
      Ok (JObj [(field, JObj [("lte", processedValue)])])
    else if bool_decide (operator = "in") then
      Ok (JObj [(field, JObj [("in", processedValue)])])
    else if bool_decide (operator = "notIn") then
      Ok (JObj [(field, JObj [("notIn", processedValue)])])
    else if bool_decide (operator = "between") then
      match processedValue with
      | JArr [lower; upper] =>
          Ok (JObj [("AND",
                     JArr [JObj [(field, JObj [("gte", lower)])];
                           JObj [(field, JObj [("lte", upper)])]])])
      | _ => Throw ("Invalid between value for field " +:+ field)
      end
    else if bool_decide (operator = "contains") then
      Ok (JObj [(field, JObj [("contains", processedValue);
                              ("mode", JStr "insensitive")])])
    else Throw ("Unsupported operator: " +:+ operator).

Definition filterGroupToPrisma (h : Host) (group : FilterGroup)
  : result JsValue :=
  let! conditions := Array_map_throwing (conditionToPrisma h) (conditions group) in
  if bool_decide (logic group = "AND") then
    Ok (JObj [("AND", JArr conditions)])
  else
    Ok (JObj [("OR", JArr conditions)]).

Definition filtersToPrismaWhere (h : Host) (tenantId : string)
    (filters : SegmentFilters) : result JsValue :=
  let! groupClauses := Array_map_throwing (filterGroupToPrisma h) (groups filters) in
  Ok (JObj [("tenantId", JStr tenantId); ("AND", JArr groupClauses)]).

(* ===================================================================== *)
(** ** The customer store behind [prisma.customer] *)
(* ===================================================================== *)

(** A decimal amount of the store, as its unscaled value. *)
Definition Decimal : Type := Z.

(** [Number(d)] of a decimal. *)
Definition Number (d : Decimal) : Z := d.

Module Db.

(** A row of the customer table: the columns the evaluator selects, and the
    owning tenant. The other columns are seen through the engine only. *)
Record Customer : Type := {
  id : string;
  tenantId : string;
  email : option string;
  firstName : option string;
  lastName : option string;
  totalSpent : Decimal;
  ordersCount : Z;
  rfmSegment : option string;
}.

(** The customer table as each of the two reads of one evaluation sees it:
    the reads are issued together and are not linked by a transaction. *)
Record Store : Type := {
  seen_by_findMany : list Customer;
  seen_by_aggregate : list Customer;
}.

Definition snapshot (rows : list Customer) : Store :=
  {| seen_by_findMany := rows; seen_by_aggregate := rows |}.

Section Engine.

(** The engine's judgement of one field-level comparison [{ field: f }] on a
    row (equality, inequality, bounds, membership, substring, null checks). *)
Variable field_holds : Customer -> string -> JsValue -> bool.

(** Modelled from the spec: the persistence engine behind [prisma]
    (config/database is not among the sources). A predicate is an object
    whose properties all have to hold: [AND] and [OR] over an array of
    predicates, the tenant equality, and field-level comparisons. *)
Fixpoint where_holds (c : Customer) (w : JsValue) {struct w} : bool :=
  match w with
  | JObj props =>
      forallb
        (fun kv =>
           match kv with
           | (k, v) =>
               if bool_decide (k = "AND") then
                 match v with
                 | JArr ws => forallb (where_holds c) ws
                 | _ => field_holds c k v
                 end
               else if bool_decide (k = "OR") then
                 match v with
                 | JArr ws => existsb (where_holds c) ws
                 | _ => field_holds c k v
                 end
               else if bool_decide (k = "tenantId") then
                 match v with
                 | JStr t => bool_decide (tenantId c = t)
                 | _ => field_holds c k v
                 end
               else field_holds c k v
           end)
        props
  | _ => false
  end.

(** Rows by descending spend. *)
Fixpoint insert_desc (c : Customer) (sorted : list Customer) : list Customer :=
  match sorted with
  | [] => [c]
  | c' :: rest =>
      if (totalSpent c' <? totalSpent c)%Z then c :: sorted
      else c' :: insert_desc c rest
  end.

Fixpoint sort_desc (rows : list Customer) : list Customer :=
  match rows with
  | [] => []
  | c :: rest => insert_desc c (sort_desc rest)
  end.

Inductive OrderBy : Type :=
| Unordered
| TotalSpentDesc.

(** Modelled from the spec: [findMany(predicate)] of the persistence
    interface (config/database is not among the sources), an ordered
    sequence of the matching rows, with [orderBy] and [take]. *)
Definition findMany (rows : list Customer) (where_ : JsValue)
    (orderBy : OrderBy) (take : option nat) : list Customer :=
  let matching := List.filter (fun c => where_holds c where_) rows in
  let ordered := match orderBy with
                 | Unordered => matching
                 | TotalSpentDesc => sort_desc matching
                 end in
  match take with
  | Some n => firstn n ordered
  | None => ordered
  end.

(** Modelled from the spec: [aggregate(predicate)] of the persistence
    interface (config/database is not among the sources), the count of the
    matching rows and the sum of their spend, null when there is no row. *)
Definition aggregate (rows : list Customer) (where_ : JsValue)
  : Z * option Decimal :=
  let matching := List.filter (fun c => where_holds c where_) rows in
  (Z.of_nat (length matching),
   match matching with
   | [] => None
   | _ => Some (fold_right Z.add 0%Z (map totalSpent matching))
   end).

(** Modelled from the spec: [count(predicate)] of the persistence
    interface (config/database is not among the sources). *)
Definition count (rows : list Customer) (where_ : JsValue) : Z :=
  Z.of_nat (length (List.filter (fun c => where_holds c where_) rows)).

End Engine.
End Db.

(* ===================================================================== *)
(** ** evaluator.service.ts: evaluation *)
(* ===================================================================== *)

Record EvaluationResult : Type := {
  customerIds : list string;
  totalCount : Z;
  totalSpent : Z;
  evaluatedAt : Date;
}.

Module Preview.
Record CustomerPreview : Type := {
  id : string;
  email : option string;
  firstName : option string;
  lastName : option string;
  totalSpent : Z;
  ordersCount : Z;
  rfmSegment : option string;
}.
End Preview.

Record SegmentPreview : Type := {
  customers : list Preview.CustomerPreview;
  preview_totalCount : Z;
  estimatedRevenue : Z;
}.

(** [sum ?? 0] *)
Definition or_zero (sum : option Decimal) : Decimal :=
  match sum with Some d => d | None => 0%Z end.

Section Evaluation.
Variable field_holds : Db.Customer -> string -> JsValue -> bool.
Variable h : Host.

(** A rejected promise is a [Throw]; the log lines leave no trace here. *)
Definition evaluateSegment (db : Db.Store) (tenantId : string)
    (filters : SegmentFilters) : result EvaluationResult :=
  let! whereClause := filtersToPrismaWhere h tenantId filters in
  let customers :=
    Db.findMany field_holds (Db.seen_by_findMany db) whereClause
                Db.Unordered None in
  let aggregates :=
    Db.aggregate field_holds (Db.seen_by_aggregate db) whereClause in
  Ok {| customerIds := map Db.id customers;
        totalCount := fst aggregates;
        totalSpent := Number (or_zero (snd aggregates));
        evaluatedAt := Some (host_now h) |}.

Definition countMatchingCustomers (rows : list Db.Customer)
    (tenantId : string) (filters : SegmentFilters) : result Z :=
  let! whereClause := filtersToPrismaWhere h tenantId filters in
  Ok (Db.count field_holds rows whereClause).

Definition to_preview (c : Db.Customer) : Preview.CustomerPreview :=
  {| Preview.id := Db.id c;
     Preview.email := Db.email c;
     Preview.firstName := Db.firstName c;
     Preview.lastName := Db.lastName c;
     Preview.totalSpent := Number (Db.totalSpent c);
     Preview.ordersCount := Db.ordersCount c;
     Preview.rfmSegment := Db.rfmSegment c |}.

(** [limit] is [None] when the caller leaves the parameter out. *)
Definition previewSegmentCustomers (db : Db.Store) (tenantId : string)
    (filters : SegmentFilters) (limit : option nat) : result SegmentPreview :=
  let limit := default 10%nat limit in
  let! whereClause := filtersToPrismaWhere h tenantId filters in
  let customers :=
    Db.findMany field_holds (Db.seen_by_findMany db) whereClause
                Db.TotalSpentDesc (Some limit) in
  let aggregates :=
    Db.aggregate field_holds (Db.seen_by_aggregate db) whereClause in
  Ok {| customers := map to_preview customers;
        preview_totalCount := fst aggregates;
        estimatedRevenue := Number (or_zero (snd aggregates)) |}.

End Evaluation.

(* ===================================================================== *)
(** ** evaluator.service.ts: validation *)
(* ===================================================================== *)

Record Validation : Type := {
  valid : bool;
  errors : list string;
}.

(** [errors.push(message)] *)
Definition push (errors : list string) (message : string) : list string :=
  app errors [message].

(** The four checks on a condition whose field is known: each statement
    takes the messages so far and pushes at most one. *)
Definition check_between (condition : FilterCondition) (errors : list string)
  : list string :=
  if bool_decide (operator condition = "between") then
    match value condition with
    | JArr [_; _] => errors
    | _ => push errors ("Field " +:+ field condition
                        +:+ ": 'between' requires array of 2 values")
    end
  else errors.

Definition check_membership (condition : FilterCondition)
    (errors : list string) : list string :=
  if includes ["in"; "notIn"] (operator condition) then
    if negb (Array_isArray (value condition)) then
      push errors ("Field " +:+ field condition +:+ ": '"
                   +:+ operator condition +:+ "' requires array value")
    else errors
  else errors.

Definition check_contains (condition : FilterCondition)
    (errors : list string) : list string :=
  let fieldType := FieldTypeMap (field condition) in
  if bool_decide (operator condition = "contains")
     && negb (bool_decide (fieldType = Some TString)) then
    push errors ("Field " +:+ field condition
                 +:+ ": 'contains' only valid for string fields")
  else errors.

Definition check_ordering (condition : FilterCondition)
    (errors : list string) : list string :=
  let fieldType := FieldTypeMap (field condition) in
  if includes ["gt"; "gte"; "lt"; "lte"] (operator condition) then
    if negb (bool_decide (fieldType = Some TNumber))
       && negb (bool_decide (fieldType = Some TDate)) then
      push errors ("Field " +:+ field condition +:+ ": '"
                   +:+ operator condition
                   +:+ "' only valid for number/date fields")
    else errors
  else errors.

(** The body of the inner loop: an unknown field is reported and the
    condition left ([continue]); otherwise the four checks run in turn. *)
Definition validate_condition (errors : list string)
    (condition : FilterCondition) : list string :=
  if negb (includes FieldTypeMap_keys (field condition)) then
    push errors ("Unknown field: " +:+ field condition)
  else
    let errors := check_between condition errors in
    let errors := check_membership condition errors in
    let errors := check_contains condition errors in
    let errors := check_ordering condition errors in
    errors.

Definition validateFiltersExecutable (filters : SegmentFilters) : Validation :=
  let errors :=
    fold_left
      (fun errors group => fold_left validate_condition (conditions group) errors)
      (groups filters) [] in
  {| valid := bool_decide (length errors = 0%nat); errors := errors |}.

(* ===================================================================== *)
(** ** evaluator.service.ts: diff of two evaluations *)
(* ===================================================================== *)

Record EvaluationDiff : Type := {
  added : list string;
  removed : list string;
  unchanged : list string;
}.

Definition diffEvaluations (previous current : EvaluationResult)
  : EvaluationDiff :=
  let previousSet : gset string := list_to_set (customerIds previous) in
  let currentSet : gset string := list_to_set (customerIds current) in
  {| added := filter (fun id => id ∉ previousSet) (customerIds current);
     removed := filter (fun id => id ∉ currentSet) (customerIds previous);
     unchanged := filter (fun id => id ∈ previousSet) (customerIds current) |}.

(* ===================================================================== *)
(** ** The relative date notation, as the specification words it *)
(* ===================================================================== *)

(** The number a run of decimal digits denotes. *)
Definition decimal_value (ds : list ascii) : Z :=
  fold_left (fun acc c => (10 * acc + default 0 (DateParse.digit_of c))%Z) ds 0%Z.

Definition signed (negative : bool) (n : Z) : Z :=
  if negative then (- n)%Z else n.

(** A signed integer followed by a unit: an optional minus sign, the
    digits [ds], and the unit letter [u]. *)
Definition relative_literal (negative : bool) (ds : list ascii) (u : ascii)
  : string :=
  string_of_list_ascii
    (app (if negative then ["-"%char] else []) (app ds [u])).

(** [now() + N units] in the calendar of the local time zone: whole days and
    whole hours are added to the local time; months are added to the month
    number, the day of the month and the time of day being kept, and a day
    the target month does not have runs over into the next month. *)
Definition plus_calendar_units (h : Host) (N : Z) (u : ascii) : Date :=
  let t := DateMethods.LocalTime h (host_now h) in
  if bool_decide (u = "d"%char) then
    JsDate.TimeClip (DateMethods.UTC h (t + N * JsDate.msPerDay)%Z)
  else if bool_decide (u = "h"%char) then
    JsDate.TimeClip (DateMethods.UTC h (t + N * JsDate.msPerHour)%Z)
  else
    JsDate.TimeClip
      (DateMethods.UTC h
         (JsDate.MakeDate
            (JsDate.MakeDay (JsDate.YearFromTime t)
                            (JsDate.MonthFromTime t + N)%Z
                            (JsDate.DateFromTime t))
            (JsDate.TimeWithinDay t))).

(* ===================================================================== *)
(** ** Predicates, as the specification words them *)
(* ===================================================================== *)

(** Property read on a value. *)
Definition js_prop (o : JsValue) (k : string) : JsValue :=
  match o with
  | JObj props => js_get props k
  | _ => JUndefined
  end.

(** A bound of a comparison, after the resolution of dates: on a date
    field a string is resolved to a date. *)
Definition resolve_bound (h : Host) (field : string) (v : JsValue) : JsValue :=
  match FieldTypeMap field, v with
  | Some TDate, JStr s => JDate (parseRelativeDate h s)
  | _, _ => v
  end.

(** [field >= v], [field <= v], and the conjunction and disjunction of
    predicates. *)
Definition field_gte (field : string) (v : JsValue) : JsValue :=
  JObj [(field, JObj [("gte", v)])].
Definition field_lte (field : string) (v : JsValue) : JsValue :=
  JObj [(field, JObj [("lte", v)])].
Definition conjunction (ws : list JsValue) : JsValue :=
  JObj [("AND", JArr ws)].
Definition disjunction (ws : list JsValue) : JsValue :=
  JObj [("OR", JArr ws)].

Definition is_pair (v : JsValue) : bool :=
  match v with JArr [_; _] => true | _ => false end.

(** A condition the translator accepts: an enumerated operator, and a
    2-element array for [between]. *)
Definition translatable (c : FilterCondition) : bool :=
  includes FilterOperator_options (operator c)
  && (negb (bool_decide (operator c = "between")) || is_pair (value c)).

(** Valid filters: every group has one of the two logics and conditions the
    translator accepts. *)
Definition valid_group (g : FilterGroup) : bool :=
  includes FilterLogic_options (logic g) && forallb translatable (conditions g).
Definition valid_filters (f : SegmentFilters) : bool :=
  forallb valid_group (groups f).

(** The rows of a table a predicate holds of, and their spend. *)
Definition matching (field_holds : Db.Customer -> string -> JsValue -> bool)
    (where_ : JsValue) (rows : list Db.Customer) : list Db.Customer :=
  List.filter (fun c => Db.where_holds field_holds c where_) rows.

Definition sum_spent (rows : list Db.Customer) : Z :=
  fold_right Z.add 0%Z (map Db.totalSpent rows).

Definition by_descending_spend (a b : Db.Customer) : Prop :=
  (Db.totalSpent b <= Db.totalSpent a)%Z.

(** The compatibility table of the validator, clause by clause as the
    specification lists them. *)
Definition is_nonempty_array (v : JsValue) : bool :=
  match v with JArr (_ :: _) => true | _ => false end.

Definition violates_compatibility_table (c : FilterCondition) : bool :=
  negb (includes FilterableField_options (field c))
  || (bool_decide (operator c = "between") && negb (is_pair (value c)))
  || (includes ["in"; "notIn"] (operator c)
      && negb (is_nonempty_array (value c)))
  || (bool_decide (operator c = "contains")
      && negb (bool_decide (FieldTypeMap (field c) = Some TString)))
  || (includes ["gt"; "gte"; "lt"; "lte"; "between"] (operator c)
      && negb (bool_decide (FieldTypeMap (field c) = Some TNumber))
      && negb (bool_decide (FieldTypeMap (field c) = Some TDate))).

(** The table as the validator enforces it: an array, empty or not, for
    [in] and [notIn]; the field type of an ordering operator is checked
    for [gt], [gte], [lt] and [lte]. *)
Definition validator_rejects (c : FilterCondition) : bool :=
  negb (includes FilterableField_options (field c))
  || (bool_decide (operator c = "between") && negb (is_pair (value c)))
  || (includes ["in"; "notIn"] (operator c)
      && negb (Array_isArray (value c)))
  || (bool_decide (operator c = "contains")
      && negb (bool_decide (FieldTypeMap (field c) = Some TString)))
  || (includes ["gt"; "gte"; "lt"; "lte"] (operator c)
      && negb (bool_decide (FieldTypeMap (field c) = Some TNumber))
      && negb (bool_decide (FieldTypeMap (field c) = Some TDate))).

(** The message each check of the validator has for a condition on a
    known field. *)
Definition between_messages (c : FilterCondition) : list string :=
  if bool_decide (operator c = "between") && negb (is_pair (value c)) then
    ["Field " +:+ field c +:+ ": 'between' requires array of 2 values"]
  else [].

Definition membership_messages (c : FilterCondition) : list string :=
  if includes ["in"; "notIn"] (operator c) && negb (Array_isArray (value c))
  then ["Field " +:+ field c +:+ ": '" +:+ operator c
        +:+ "' requires array value"]
  else [].

Definition contains_messages (c : FilterCondition) : list string :=
  if bool_decide (operator c = "contains")
     && negb (bool_decide (FieldTypeMap (field c) = Some TString))
  then ["Field " +:+ field c +:+ ": 'contains' only valid for string fields"]
  else [].

Definition ordering_messages (c : FilterCondition) : list string :=
  if includes ["gt"; "gte"; "lt"; "lte"] (operator c)
     && negb (bool_decide (FieldTypeMap (field c) = Some TNumber))
     && negb (bool_decide (FieldTypeMap (field c) = Some TDate))
  then ["Field " +:+ field c +:+ ": '" +:+ operator c
        +:+ "' only valid for number/date fields"]
  else [].

Definition condition_messages (c : FilterCondition) : list string :=
  if includes FilterableField_options (field c) then
    app (between_messages c)
      (app (membership_messages c)
         (app (contains_messages c) (ordering_messages c)))
  else ["Unknown field: " +:+ field c].

(** All the conditions of a filter set, in the order of the two loops. *)
Definition all_conditions (f : SegmentFilters) : list FilterCondition :=
  concat (map conditions (groups f)).

(* ===================================================================== *)
(** ** Sample data *)
(* ===================================================================== *)

(** An in-memory engine for the two numeric columns of a row. *)
Definition number_test (op : string) (x n : Z) : bool :=
  if bool_decide (op = "gt") then (n <? x)%Z
  else if bool_decide (op = "gte") then (n <=? x)%Z
  else if bool_decide (op = "lt") then (x <? n)%Z
  else if bool_decide (op = "lte") then (x <=? n)%Z
  else false.

Definition numeric_field_holds (c : Db.Customer) (k : string) (v : JsValue)
  : bool :=
  let column :=
    if bool_decide (k = "totalSpent") then Some (Db.totalSpent c)
    else if bool_decide (k = "ordersCount") then Some (Db.ordersCount c)
    else None in
  match column, v with
  | Some x, JNum n => (x =? n)%Z
  | Some x, JObj [(op, JNum n)] => number_test op x n
  | _, _ => false
  end.

Definition customer (id tenant : string) (spent orders : Z) : Db.Customer :=
  {| Db.id := id; Db.tenantId := tenant; Db.email := None;
     Db.firstName := None; Db.lastName := None;
     Db.totalSpent := spent; Db.ordersCount := orders;
     Db.rfmSegment := None |}.

Definition sample_rows : list Db.Customer :=
  [customer "c1" "t1" 250 3; customer "c2" "t2" 900 9;
   customer "c3" "t1" 120 1; customer "c4" "t1" 40 1;
   customer "c5" "t1" 700 5].

Definition condition (f op : string) (v : JsValue) : FilterCondition :=
  {| field := f; operator := op; value := v |}.

Definition single (c : FilterCondition) : SegmentFilters :=
  {| groups := [ {| logic := "AND"; conditions := [c] |} ] |}.

Definition sample_filters : SegmentFilters :=
  {| groups :=
       [ {| logic := "AND";
            conditions := [condition "totalSpent" "gt" (JNum 100)] |};
         {| logic := "OR";
            conditions := [condition "ordersCount" "gte" (JNum 5);
                           condition "totalSpent" "between"
                             (JArr [JNum 200; JNum 300])] |} ] |}.

Definition two_violations : SegmentFilters :=
  {| groups :=
       [ {| logic := "AND";
            conditions := [condition "shoeSize" "eq" (JNum 42);
                           condition "totalSpent" "gt" (JNum 100)] |};
         {| logic := "OR";
            conditions := [condition "ordersCount" "between"
                             (JArr [JNum 1; JNum 2; JNum 3])] |} ] |}.


(** A wrong arity on a field that is itself unknown. *)
Definition masked_arity : SegmentFilters :=
  {| groups :=
       [ {| logic := "AND";
            conditions := [condition "shoeSize" "eq" (JNum 42);
                           condition "hatSize" "between" (JArr [JNum 1])] |} ] |}.

Definition evaluation (ids : list string) : EvaluationResult :=
  {| customerIds := ids; totalCount := Z.of_nat (length ids);
     totalSpent := 0; evaluatedAt := None |}.

(* ===================================================================== *)
(** ** Further notions for the properties of the code *)
(* ===================================================================== *)

(** The exception of the first element on which [f] throws, if any. *)
Fixpoint first_exception {A B} (f : A -> result B) (xs : list A)
  : option string :=
  match xs with
  | [] => None
  | x :: rest =>
      match f x with
      | Throw m => Some m
      | Ok _ => first_exception f rest
      end
  end.

(** A host whose local time is at a fixed offset from UTC. *)
Definition fixed_offset_host (now offset : Z) (fallback : string -> Date)
  : Host :=
  {| host_now := now;
     LocalTZA := fun _ _ => offset;
     host_date_fallback := fallback |}.

(** The range of the time values of valid dates. *)
Definition in_date_range (t : Z) : Prop :=
  (- 8640000000000000 <= t <= 8640000000000000)%Z.


(** The predicate of a translation that succeeded. *)
Definition clause_of (r : result JsValue) : JsValue :=
  match r with
  | Ok w => w
  | Throw _ => JUndefined
  end.

(** The rows of a table that belong to a tenant. *)
Definition rows_of_tenant (tenant : string) (rows : list Db.Customer)
  : list Db.Customer :=
  List.filter (fun row => bool_decide (Db.tenantId row = tenant)) rows.


(* ===================================================================== *)
(** ** segment.types.ts: the schemas *)
(* ===================================================================== *)

(** A schema parses a value: the parsed value, or [None] when the value
    has issues. The combinators are those of the zod library the schemas
    are written with. *)
Definition Schema : Type := JsValue -> option JsValue.

(** [s.length]: the number of UTF-16 code units of a string held as its
    UTF-8 bytes (one per character, two for a character of four bytes). *)
Definition utf16_units (c : ascii) : nat :=
  let n := N_of_ascii c in
  if (n <? 128)%N then 1
  else if (n <? 192)%N then 0
  else if (n <? 240)%N then 1
  else 2.

Definition js_string_length (s : string) : nat :=
  list_sum (map utf16_units (list_ascii_of_string s)).

Definition z_string : Schema :=
  fun v => match v with JStr _ => Some v | _ => None end.
Definition z_number : Schema :=
  fun v => match v with JNum _ => Some v | _ => None end.
Definition z_boolean : Schema :=
  fun v => match v with JBool _ => Some v | _ => None end.
Definition z_null : Schema :=
  fun v => match v with JNull => Some v | _ => None end.

(** [z.enum(options)] *)
Definition z_enum (options : list string) : Schema :=
  fun v => match v with
           | JStr s => if includes options s then Some v else None
           | _ => None
           end.

(** [schema.refine(check)], and the checks on a parsed string or array. *)
Definition z_refine (check : JsValue -> bool) (schema : Schema) : Schema :=
  fun v => match schema v with
           | Some r => if check r then Some r else None
           | None => None
           end.

Definition js_length (v : JsValue) : option nat :=
  match v with
  | JStr s => Some (js_string_length s)
  | JArr items => Some (length items)
  | _ => None
  end.

Definition z_min (n : nat) : Schema -> Schema :=
  z_refine (fun r => match js_length r with
                     | Some len => (n <=? len)%nat
                     | None => false
                     end).
Definition z_max (n : nat) : Schema -> Schema :=
  z_refine (fun r => match js_length r with
                     | Some len => (len <=? n)%nat
                     | None => false
                     end).
Definition z_regex (test : string -> bool) : Schema -> Schema :=
  z_refine (fun r => match r with JStr s => test s | _ => false end).

(** [z.union(options)]: the first option that parses the value. *)
Fixpoint z_union (options : list Schema) : Schema :=
  fun v => match options with
           | [] => None
           | schema :: rest =>
               match schema v with
               | Some r => Some r
               | None => z_union rest v
               end
           end.

(** [z.array(element)] *)
Definition z_array (element : Schema) : Schema :=
  fun v => match v with
           | JArr items => JArr <$> mapM element items
           | _ => None
           end.

(** [z.tuple(items)]: an array of as many elements as [items]. *)
Fixpoint parse_items (schemas : list Schema) (items : list JsValue)
  : option (list JsValue) :=
  match schemas, items with
  | [], [] => Some []
  | schema :: schemas', item :: items' =>
      match schema item, parse_items schemas' items' with
      | Some r, Some rs => Some (r :: rs)
      | _, _ => None
      end
  | _, _ => None
  end.

Definition z_tuple (schemas : list Schema) : Schema :=
  fun v => match v with
           | JArr items => JArr <$> parse_items schemas items
           | _ => None
           end.

(** [schema.optional()] and [schema.default(d)] *)
Definition z_optional (schema : Schema) : Schema :=
  fun v => match v with JUndefined => Some JUndefined | _ => schema v end.
Definition z_default (d : JsValue) (schema : Schema) : Schema :=
  fun v => match v with JUndefined => schema d | _ => schema v end.

(** [z.object(shape)]: a plain object; each key of the shape is parsed, a
    missing key as [undefined]; the other keys are dropped, and a key that
    is missing and parses to [undefined] stays out of the result. *)
Definition has_key (props : list (string * JsValue)) (k : string) : bool :=
  includes props.*1 k.

Fixpoint parse_shape (shape : list (string * Schema))
    (props : list (string * JsValue)) : option (list (string * JsValue)) :=
  match shape with
  | [] => Some []
  | (k, schema) :: rest =>
      match schema (js_get props k), parse_shape rest props with
      | Some r, Some parsed =>
          match r with
          | JUndefined =>
              if has_key props k then Some ((k, r) :: parsed) else Some parsed
          | _ => Some ((k, r) :: parsed)
          end
      | _, _ => None
      end
  end.

Definition z_object (shape : list (string * Schema)) : Schema :=
  fun v => match v with
           | JObj props => JObj <$> parse_shape shape props
           | _ => None
           end.

(** [schema.nullable()], and the checks on a parsed number: [.int()],
    [.min(n)] and [.max(n)]. Numbers are integers here, which is all that
    [.int()] admits. *)
Definition z_nullable (schema : Schema) : Schema :=
  fun v => match v with JNull => Some JNull | _ => schema v end.
Definition z_int : Schema -> Schema :=
  z_refine (fun r => match r with JNum _ => true | _ => false end).
Definition z_number_min (n : Z) : Schema -> Schema :=
  z_refine (fun r => match r with JNum x => (n <=? x)%Z | _ => false end).
Definition z_number_max (n : Z) : Schema -> Schema :=
  z_refine (fun r => match r with JNum x => (x <=? n)%Z | _ => false end).

Definition RfmSegmentValue_options : list string :=
  ["CHAMPIONS"; "LOYAL"; "POTENTIAL_LOYALIST"; "NEW_CUSTOMERS"; "PROMISING";
   "NEED_ATTENTION"; "ABOUT_TO_SLEEP"; "AT_RISK"; "CANNOT_LOSE";
   "HIBERNATING"; "LOST"].

(** [/^-?\d+[dhm]$/.test(s)]: the pattern of [parseRelativeDate] without
    its captures. *)
Definition relative_date_format (s : string) : bool :=
  match match_relative s with Some _ => true | None => false end.

(** What a schema reads of a parsed object. *)
Definition js_string (v : JsValue) : string :=
  match v with JStr s => s | _ => "" end.
Definition js_items (v : JsValue) : list JsValue :=
  match v with JArr items => items | _ => [] end.

(** A schema that returns the value it parses. *)
Definition returns_its_input (schema : Schema) : Prop :=
  forall v r, schema v = Some r -> r = v.

Record SchemaValidation : Type := {
  success : bool;
  data : option SegmentFilters;
  error : option string;
}.

Section Schemas.

(** The test of [z.string().datetime()], and the text the code makes of the
    issues of a rejected value (their paths and messages, joined): both are
    the library's. *)
Variable datetime_format : string -> bool.
Variable issues_text : JsValue -> string.

Definition StringFilterValue : Schema := z_max 500 (z_min 1 z_string).
Definition NumberFilterValue : Schema := z_number.
Definition DateFilterValue : Schema :=
  z_union [z_regex datetime_format z_string;
           z_regex relative_date_format z_string].
Definition BooleanFilterValue : Schema := z_boolean.
Definition RangeValue : Schema := z_tuple [z_number; z_number].
Definition DateRangeValue : Schema := z_tuple [DateFilterValue; DateFilterValue].
Definition StringArrayValue : Schema :=
  z_max 100 (z_min 1 (z_array StringFilterValue)).
Definition NumberArrayValue : Schema :=
  z_max 100 (z_min 1 (z_array NumberFilterValue)).
Definition RfmSegmentArrayValue : Schema :=
  z_min 1 (z_array (z_enum RfmSegmentValue_options)).

Definition FilterValue : Schema :=
  z_optional
    (z_union [StringFilterValue; NumberFilterValue; DateFilterValue;
              BooleanFilterValue; RangeValue; DateRangeValue;
              StringArrayValue; NumberArrayValue; RfmSegmentArrayValue;
              z_null]).

(** The refinement of a condition: a value is required except for the
    null checks. *)
Definition value_is_given (d : JsValue) : bool :=
  let operator := js_string (js_prop d "operator") in
  if bool_decide (operator = "isNull") || bool_decide (operator = "isNotNull")
  then true
  else match js_prop d "value" with
       | JUndefined | JNull => false
       | _ => true
       end.

Definition FilterCondition_schema : Schema :=
  z_refine value_is_given
    (z_object [("field", z_enum FilterableField_options);
               ("operator", z_enum FilterOperator_options);
               ("value", FilterValue)]).

Definition FilterGroup_schema : Schema :=
  z_object [("logic", z_enum FilterLogic_options);
            ("conditions", z_max 20 (z_min 1 (z_array FilterCondition_schema)))].

Definition SegmentFilters_schema : Schema :=
  z_object [("groups", z_max 10 (z_min 1 (z_array FilterGroup_schema)))].

(** The typed reading of parsed data. *)
Definition infer_condition (d : JsValue) : FilterCondition :=
  {| field := js_string (js_prop d "field");
     operator := js_string (js_prop d "operator");
     value := js_prop d "value" |}.

Definition infer_group (d : JsValue) : FilterGroup :=
  {| logic := js_string (js_prop d "logic");
     conditions := map infer_condition (js_items (js_prop d "conditions")) |}.

Definition infer_filters (d : JsValue) : SegmentFilters :=
  {| groups := map infer_group (js_items (js_prop d "groups")) |}.

Definition validateSegmentFilters (filters : JsValue) : SchemaValidation :=
  match SegmentFilters_schema filters with
  | Some d =>
      {| success := true; data := Some (infer_filters d); error := None |}
  | None =>
      {| success := false; data := None;
         error := Some (issues_text filters) |}
  end.

(** The request schemas. *)
Definition CreateSegmentRequest : Schema :=
  z_object [("name", z_max 100 (z_min 1 z_string));
            ("description", z_optional (z_max 1000 z_string));
            ("filters", SegmentFilters_schema);
            ("isActive", z_default (JBool true) z_boolean)].

Definition UpdateSegmentRequest : Schema :=
  z_object [("name", z_optional (z_max 100 (z_min 1 z_string)));
            ("description", z_nullable (z_optional (z_max 1000 z_string)));
            ("filters", z_optional SegmentFilters_schema);
            ("isActive", z_optional z_boolean)].

Definition PreviewSegmentRequest : Schema :=
  z_object [("filters", SegmentFilters_schema);
            ("limit",
             z_default (JNum 10)
               (z_number_max 100 (z_number_min 1 (z_int z_number))))].

End Schemas.

(** Filters as a value, for the examples. *)
Definition js_condition (f op : string) (v : JsValue) : JsValue :=
  JObj [("field", JStr f); ("operator", JStr op); ("value", v)].
Definition js_group (l : string) (cs : list JsValue) : JsValue :=
  JObj [("logic", JStr l); ("conditions", JArr cs)].
Definition js_filters (gs : list JsValue) : JsValue :=
  JObj [("groups", JArr gs)].

(** Filters as the schemas admit them. *)
Definition well_formed_condition (datetime_format : string -> bool)
    (c : FilterCondition) : Prop :=
  field c ∈ FilterableField_options
  /\ operator c ∈ FilterOperator_options
  /\ FilterValue datetime_format (value c) = Some (value c)
  /\ (operator c ∉ ["isNull"; "isNotNull"] ->
      value c <> JUndefined /\ value c <> JNull).

Definition well_formed_group (datetime_format : string -> bool)
    (g : FilterGroup) : Prop :=
  logic g ∈ FilterLogic_options
  /\ (1 <= length (conditions g) <= 20)%nat
  /\ Forall (well_formed_condition datetime_format) (conditions g).

Definition well_formed_filters (datetime_format : string -> bool)
    (f : SegmentFilters) : Prop :=
  (1 <= length (groups f) <= 10)%nat
  /\ Forall (well_formed_group datetime_format) (groups f).

(** Typed filters as a value. *)
Definition js_of_condition (c : FilterCondition) : JsValue :=
  js_condition (field c) (operator c) (value c).
Definition js_of_group (g : FilterGroup) : JsValue :=
  js_group (logic g) (map js_of_condition (conditions g)).
Definition js_of_filters (f : SegmentFilters) : JsValue :=
  js_filters (map js_of_group (groups f)).

Definition sample_js_filters : JsValue :=
  js_filters
    [js_group "AND" [js_condition "totalSpent" "gt" (JNum 100)];
     js_group "OR" [js_condition "ordersCount" "gte" (JNum 5);
                    js_condition "totalSpent" "between"
                      (JArr [JNum 200; JNum 300])]].

(* ===================================================================== *)
(** ** Facts about time values *)
(* ===================================================================== *)

Module JsDateFacts.
Import JsDate.
Local Open Scope Z_scope.

Lemma DayFromYear_succ y : DayFromYear (y + 1) = DayFromYear y + DaysInYear y.
Proof.
  unfold DayFromYear, DaysInYear.
  destruct (Z.eqb_spec (y mod 4) 0), (Z.eqb_spec (y mod 100) 0),
    (Z.eqb_spec (y mod 400) 0);
    simpl; Z.div_mod_to_equations; lia.
Qed.

Lemma DaysInYear_cases y : DaysInYear y = 365 \/ DaysInYear y = 366.
Proof.
  unfold DaysInYear.
  repeat match goal with |- context [negb ?b] => destruct b; simpl end; auto.
Qed.

Lemma DayFromYear_lt y y' : y < y' -> DayFromYear y < DayFromYear y'.
Proof.
  intros Hlt. unfold DayFromYear. Z.div_mod_to_equations. lia.
Qed.

(** [YearFromTime t] is the year of [t]: its first day is not after [t],
    and the first day of the next year is. *)
Lemma YearFromTime_spec t :
  DayFromYear (YearFromTime t) <= Day t < DayFromYear (YearFromTime t + 1).
Proof.
  unfold YearFromTime.
  set (d := Day t). clearbody d.
  set (y := 1970 + d * 400 / 146097).
  assert (Hy : y = 1970 + d * 400 / 146097) by reflexivity. clearbody y.
  destruct (Z.ltb_spec d (DayFromYear y)) as [H1|H1].
  - replace (y - 1 + 1) with y by lia. split; [|lia].
    revert H1. unfold DayFromYear. Z.div_mod_to_equations. lia.
  - destruct (Z.leb_spec (DayFromYear (y + 1)) d) as [H2|H2].
    + split; [lia|].
      revert H2. unfold DayFromYear. Z.div_mod_to_equations. lia.
    + lia.
Qed.

(** It is the largest such year. *)
Lemma YearFromTime_largest t y :
  DayFromYear y <= Day t -> y <= YearFromTime t.
Proof.
  intros Hy. destruct (Z.le_gt_cases y (YearFromTime t)) as [|Hgt]; [done|].
  pose proof (YearFromTime_spec t) as [_ Hs].
  assert (YearFromTime t + 1 <= y) as Hle by lia.
  destruct (Z.eq_dec (YearFromTime t + 1) y) as [<-|Hne]; [lia|].
  pose proof (DayFromYear_lt (YearFromTime t + 1) y). lia.
Qed.

Lemma DayWithinYear_range t :
  0 <= DayWithinYear t < 365 + InLeapYear t.
Proof.
  unfold DayWithinYear, InLeapYear.
  pose proof (YearFromTime_spec t) as Hs.
  rewrite DayFromYear_succ in Hs.
  destruct (DaysInYear_cases (YearFromTime t)) as [E|E]; rewrite E in *;
    simpl; lia.
Qed.

Lemma MonthFromTime_range t : 0 <= MonthFromTime t <= 11.
Proof.
  unfold MonthFromTime.
  repeat match goal with |- context [if ?b then _ else _] => destruct b end;
    lia.
Qed.

Lemma MakeDay_in_year y m date :
  0 <= m <= 11 ->
  MakeDay y m date =
  DayFromYear y
  + days_before_month m (if DaysInYear y =? 366 then 1 else 0) + date - 1.
Proof.
  intros Hm. unfold MakeDay.
  rewrite Z.div_small, Z.mod_small by lia.
  by rewrite Z.add_0_r.
Qed.

(** Moving the day of the month moves the day number by as much. *)
Lemma MakeDay_shift_date t n :
  MakeDay (YearFromTime t) (MonthFromTime t) (DateFromTime t + n) = Day t + n.
Proof.
  rewrite MakeDay_in_year by apply MonthFromTime_range.
  unfold DateFromTime, InLeapYear, DayWithinYear. lia.
Qed.

Lemma MakeDate_Day_TimeWithinDay t n :
  MakeDate (Day t + n) (TimeWithinDay t) = t + n * msPerDay.
Proof.
  unfold MakeDate, Day, TimeWithinDay, msPerDay.
  Z.div_mod_to_equations. lia.
Qed.

Lemma MakeTime_shift_hour t n :
  MakeDate (Day t)
    (MakeTime (HourFromTime t + n) (MinFromTime t) (SecFromTime t)
              (msFromTime t))
  = t + n * msPerHour.
Proof.
  unfold MakeDate, MakeTime, Day, HourFromTime, MinFromTime, SecFromTime,
    msFromTime, msPerDay, msPerHour, msPerMinute, msPerSecond.
  Z.div_mod_to_equations. lia.
Qed.

Lemma YearFromTime_unique t y :
  DayFromYear y <= Day t < DayFromYear (y + 1) -> YearFromTime t = y.
Proof.
  intros [Hlo Hhi].
  pose proof (YearFromTime_largest t y Hlo) as Hle.
  destruct (Z.eq_dec (YearFromTime t) y) as [|Hne]; [done|].
  pose proof (YearFromTime_spec t) as [Hs _].
  destruct (Z.eq_dec (y + 1) (YearFromTime t)) as [E|E];
    [rewrite E in Hhi; lia|].
  pose proof (DayFromYear_lt (y + 1) (YearFromTime t)). lia.
Qed.

Lemma Day_MakeDate day time :
  0 <= time < msPerDay -> Day (MakeDate day time) = day.
Proof.
  intros Ht. unfold Day, MakeDate, msPerDay in *.
  Z.div_mod_to_equations. lia.
Qed.

Lemma month_cases m :
  0 <= m <= 11 ->
  m = 0 \/ m = 1 \/ m = 2 \/ m = 3 \/ m = 4 \/ m = 5 \/ m = 6 \/ m = 7
  \/ m = 8 \/ m = 9 \/ m = 10 \/ m = 11.
Proof. lia. Qed.

Lemma days_in_month_table y m :
  0 <= m <= 11 ->
  days_in_month y m
  = if m =? 1 then (if DaysInYear y =? 366 then 29 else 28)
    else if (m =? 3) || (m =? 5) || (m =? 8) || (m =? 10) then 30
    else 31.
Proof.
  intros Hm. unfold days_in_month.
  rewrite (MakeDay_in_year y m) by done.
  destruct (Z.eq_dec m 11) as [->|Hne].
  - unfold MakeDay. change (12 / 12) with 1. change (12 mod 12) with 0.
    rewrite DayFromYear_succ.
    destruct (DaysInYear_cases y) as [E|E]; rewrite E; simpl; lia.
  - rewrite (MakeDay_in_year y (m + 1)) by lia.
    destruct (DaysInYear_cases y) as [E|E]; rewrite E; simpl;
      destruct (month_cases m Hm) as [->|[->|[->|[->|[->|[->|[->|[->|[->|[->|[->| ->]]]]]]]]]]];
      simpl; lia.
Qed.

(** The day a year, a month and a day of that month make has that year,
    month and day. *)
Lemma civil_of_MakeDay y m d time :
  0 <= m <= 11 -> 1 <= d <= days_in_month y m -> 0 <= time < msPerDay ->
  let t := MakeDate (MakeDay y m d) time in
  YearFromTime t = y /\ MonthFromTime t = m /\ DateFromTime t = d.
Proof.
  intros Hm Hd Htime t.
  assert (HDay : Day t = MakeDay y m d) by by apply Day_MakeDate.
  rewrite days_in_month_table in Hd by done.
  rewrite MakeDay_in_year in HDay by done.
  assert (HY : YearFromTime t = y).
  { apply YearFromTime_unique. rewrite HDay, DayFromYear_succ.
    destruct (DaysInYear_cases y) as [E|E]; rewrite E in *; simpl in *;
      destruct (month_cases m Hm) as [->|[->|[->|[->|[->|[->|[->|[->|[->|[->|[->| ->]]]]]]]]]]];
      simpl in *; lia. }
  split; [done|].
  assert (HM : MonthFromTime t = m).
  { unfold MonthFromTime, DayWithinYear, InLeapYear. rewrite HY, HDay.
    destruct (DaysInYear_cases y) as [E|E]; rewrite E in *; simpl in *;
      destruct (month_cases m Hm) as [->|[->|[->|[->|[->|[->|[->|[->|[->|[->|[->| ->]]]]]]]]]]];
      simpl in *;
      repeat match goal with
             | |- context [?a <? ?b] => destruct (Z.ltb_spec a b)
             end; lia. }
  split; [done|].
  unfold DateFromTime, DayWithinYear, InLeapYear. rewrite HM, HY, HDay. lia.
Qed.

Lemma DateFromTime_pos t : 1 <= DateFromTime t.
Proof.
  unfold DateFromTime, MonthFromTime.
  pose proof (DayWithinYear_range t) as Hr.
  assert (Hleap : InLeapYear t = 0 \/ InLeapYear t = 1).
  { unfold InLeapYear. destruct (_ =? _); auto. }
  destruct Hleap as [E|E]; rewrite E in *;
    repeat match goal with
           | |- context [?a <? ?b] => destruct (Z.ltb_spec a b)
           end; simpl; lia.
Qed.

Lemma TimeWithinDay_range t : 0 <= TimeWithinDay t < msPerDay.
Proof. unfold TimeWithinDay, msPerDay. apply Z.mod_pos_bound. lia. Qed.

(** Adding [n] months to a local time: when the month reached has the day
    of the month, the result is that day of that month, at the same time
    of day. *)
Lemma MakeDay_shift_month t n :
  let y := YearFromTime t + (MonthFromTime t + n) / 12 in
  let m := (MonthFromTime t + n) mod 12 in
  DateFromTime t <= days_in_month y m ->
  let t' := MakeDate (MakeDay (YearFromTime t) (MonthFromTime t + n)
                              (DateFromTime t))
                     (TimeWithinDay t) in
  YearFromTime t' = y /\ MonthFromTime t' = m
  /\ DateFromTime t' = DateFromTime t
  /\ TimeWithinDay t' = TimeWithinDay t.
Proof.
  intros y m Hd t'.
  assert (Hm : 0 <= m <= 11).
  { unfold m. pose proof (Z.mod_pos_bound (MonthFromTime t + n) 12). lia. }
  assert (Ht' : t' = MakeDate (MakeDay y m (DateFromTime t)) (TimeWithinDay t)).
  { unfold t'. f_equal. rewrite (MakeDay_in_year y m) by done. reflexivity. }
  pose proof (DateFromTime_pos t) as Hpos.
  pose proof (TimeWithinDay_range t) as Htime.
  destruct (civil_of_MakeDay y m (DateFromTime t) (TimeWithinDay t))
    as (HY & HM & HD); [done|lia|done|].
  rewrite Ht'. repeat split; try done.
  unfold TimeWithinDay at 1. unfold MakeDate.
  rewrite Z.add_comm, Z.mod_add by (unfold msPerDay; lia).
  apply Z.mod_small. exact Htime.
Qed.

End JsDateFacts.

Module DateMethodsFacts.
Import JsDate DateMethods JsDateFacts.
Local Open Scope Z_scope.

(** [d.setDate(d.getDate() + n)] adds [n] days to the local time. *)
Lemma setDate_getDate h tv n :
  setDate h tv (getDate h tv + n)
  = TimeClip (UTC h (LocalTime h tv + n * msPerDay)).
Proof.
  unfold setDate, getDate.
  by rewrite MakeDay_shift_date, MakeDate_Day_TimeWithinDay.
Qed.

(** [d.setHours(d.getHours() + n)] adds [n] hours to the local time. *)
Lemma setHours_getHours h tv n :
  setHours h tv (getHours h tv + n)
  = TimeClip (UTC h (LocalTime h tv + n * msPerHour)).
Proof.
  unfold setHours, getHours. by rewrite MakeTime_shift_hour.
Qed.

(** [d.setMonth(d.getMonth() + n)] moves the local time [n] months: the
    day that the year, the month number plus [n] and the day of the month
    make. When the month reached has that day, the result is the same day
    and time of day of that month. *)
Lemma setMonth_getMonth h tv n :
  let t := LocalTime h tv in
  let t' := MakeDate (MakeDay (YearFromTime t) (MonthFromTime t + n)
                              (DateFromTime t))
                     (TimeWithinDay t) in
  setMonth h tv (getMonth h tv + n) = TimeClip (UTC h t')
  /\ (DateFromTime t
      <= days_in_month (YearFromTime t + (MonthFromTime t + n) / 12)
                       ((MonthFromTime t + n) mod 12) ->
      YearFromTime t' = YearFromTime t + (MonthFromTime t + n) / 12
      /\ MonthFromTime t' = (MonthFromTime t + n) mod 12
      /\ DateFromTime t' = DateFromTime t
      /\ TimeWithinDay t' = TimeWithinDay t).
Proof.
  intros t t'. split; [reflexivity|].
  apply MakeDay_shift_month.
Qed.

End DateMethodsFacts.

(* ===================================================================== *)
(** ** The relative date resolver *)
(* ===================================================================== *)

Module ResolverFacts.
Import JsDate DateMethods DateParse DateMethodsFacts.
Local Open Scope Z_scope.

Lemma digit_not_minus c : is_digit c = true -> c <> "-"%char.
Proof. intros H ->. discriminate H. Qed.

Lemma digit_not_plus c : is_digit c = true -> c <> "+"%char.
Proof. intros H ->. discriminate H. Qed.

Lemma leading_digits_all acc ds :
  forallb is_digit ds = true ->
  leading_digits acc ds
  = fold_left (fun acc c => 10 * acc + default 0 (digit_of c)) ds acc.
Proof.
  revert acc. induction ds as [|c ds IH]; intros acc Hall; [done|].
  simpl in Hall. apply andb_prop in Hall as [Hc Hds].
  simpl. unfold is_digit in Hc.
  destruct (digit_of c) as [d|]; [|discriminate].
  simpl. by apply IH.
Qed.

Lemma parseInt_signed_digits (negative : bool) (ds : list ascii) :
  ds <> [] -> forallb is_digit ds = true ->
  parseInt (string_of_list_ascii
              (app (if negative then ["-"%char] else []) ds))
  = Some (signed negative (decimal_value ds)).
Proof.
  intros Hne Hall. unfold parseInt.
  rewrite list_ascii_of_string_of_list_ascii.
  destruct ds as [|c ds]; [done|].
  pose proof Hall as Hall'. simpl in Hall'.
  apply andb_prop in Hall' as [Hc _].
  destruct negative; simpl app; cbv beta iota.
  - rewrite bool_decide_eq_true_2 by done.
    rewrite Hc. by rewrite leading_digits_all.
  - rewrite bool_decide_eq_false_2 by by apply digit_not_minus.
    rewrite bool_decide_eq_false_2 by by apply digit_not_plus.
    rewrite Hc. by rewrite leading_digits_all.
Qed.

(** The pattern accepts every signed integer followed by a unit, and
    captures its two parts. *)
Lemma match_relative_literal (negative : bool) (ds : list ascii) u :
  ds <> [] -> forallb is_digit ds = true -> is_unit u = true ->
  match_relative (relative_literal negative ds u)
  = Some (string_of_list_ascii
            (app (if negative then ["-"%char] else []) ds), u).
Proof.
  intros Hne Hall Hu. unfold match_relative, relative_literal.
  rewrite list_ascii_of_string_of_list_ascii.
  rewrite app_assoc, rev_unit, rev_involutive.
  destruct ds as [|c ds]; [done|].
  pose proof Hall as Hall'. simpl in Hall'.
  apply andb_prop in Hall' as [Hc _].
  destruct negative; simpl app; cbv beta iota.
  - rewrite (bool_decide_eq_true_2 ("-"%char = "-"%char)) by done.
    rewrite Hu, Hall. by rewrite bool_decide_eq_false_2.
  - rewrite (bool_decide_eq_false_2 (c = "-"%char))
      by by apply digit_not_minus.
    rewrite Hu, Hall. by rewrite bool_decide_eq_false_2.
Qed.

(** It accepts nothing else. *)
Lemma match_relative_Some s body u :
  match_relative s = Some (body, u) ->
  exists negative ds,
    ds <> [] /\ forallb is_digit ds = true /\ is_unit u = true
    /\ s = relative_literal negative ds u
    /\ body = string_of_list_ascii
                (app (if negative then ["-"%char] else []) ds).
Proof.
  unfold match_relative. intros H.
  destruct (rev (list_ascii_of_string s)) as [|u' rbody] eqn:Hrev;
    [discriminate|].
  assert (Hs : s = string_of_list_ascii (app (rev rbody) [u'])).
  { rewrite <- (string_of_list_ascii_of_string s).
    rewrite <- (rev_involutive (list_ascii_of_string s)), Hrev.
    done. }
  set (b := rev rbody) in *. clearbody b.
  destruct (is_unit u') eqn:Hu; [|discriminate].
  simpl in H.
  destruct b as [|c rest].
  - simpl in H. discriminate.
  - destruct (bool_decide (c = "-"%char)) eqn:Hc.
    + apply bool_decide_eq_true_1 in Hc as ->.
      destruct (bool_decide (rest = [])) eqn:Hr; [discriminate|].
      apply bool_decide_eq_false_1 in Hr. simpl in H.
      destruct (forallb is_digit rest) eqn:Hall; [|discriminate].
      injection H as <- <-.
      exists true, rest. by repeat split.
    + destruct (bool_decide (c :: rest = [])) eqn:Hr; [discriminate|].
      simpl negb in H. cbv iota in H.
      destruct (forallb is_digit (c :: rest)) eqn:Hall; [|discriminate].
      injection H as <- <-.
      exists false, (c :: rest). by repeat split.
Qed.

(** A signed integer followed by a unit resolves to that many calendar
    units from now. *)
Lemma parseRelativeDate_literal h (negative : bool) (ds : list ascii) u :
  ds <> [] -> forallb is_digit ds = true -> is_unit u = true ->
  parseRelativeDate h (relative_literal negative ds u)
  = plus_calendar_units h (signed negative (decimal_value ds)) u.
Proof.
  intros Hne Hall Hu. unfold parseRelativeDate.
  rewrite match_relative_literal by done.
  rewrite parseInt_signed_digits by done.
  unfold plus_calendar_units.
  destruct (bool_decide (u = "d"%char)) eqn:Hd.
  { apply setDate_getDate. }
  destruct (bool_decide (u = "h"%char)) eqn:Hh.
  { apply setHours_getHours. }
  destruct (bool_decide (u = "m"%char)) eqn:Hm.
  { reflexivity. }
  unfold is_unit in Hu. rewrite Hd, Hh, Hm in Hu. discriminate Hu.
Qed.

(** In the UTC zone days and hours are fixed spans of time. *)
Lemma parseRelativeDate_utc now (negative : bool) (ds : list ascii) :
  ds <> [] -> forallb is_digit ds = true ->
  let N := signed negative (decimal_value ds) in
  parseRelativeDate (utc_host now) (relative_literal negative ds "d")
  = TimeClip (now + N * msPerDay)
  /\ parseRelativeDate (utc_host now) (relative_literal negative ds "h")
     = TimeClip (now + N * msPerHour).
Proof.
  intros Hne Hall N.
  rewrite !parseRelativeDate_literal by done.
  unfold plus_calendar_units, UTC, LocalTime. simpl.
  by rewrite !Z.add_0_r, !Z.sub_0_r.
Qed.

End ResolverFacts.

(* ===================================================================== *)
(** ** The condition translator *)
(* ===================================================================== *)

Section TranslatorFacts.
Variable h : Host.

Lemma Array_map_throwing_Ok {A B} (f : A -> result B) xs ys :
  Array_map_throwing f xs = Ok ys -> Forall2 (fun x y => f x = Ok y) xs ys.
Proof.
  revert ys. induction xs as [|x xs IH]; intros ys H; simpl in H.
  - injection H as <-. constructor.
  - destruct (f x) as [y|] eqn:Hx; [|discriminate]. simpl in H.
    destruct (Array_map_throwing f xs) as [ys'|]; [|discriminate].
    simpl in H. injection H as <-. constructor; auto.
Qed.

Lemma Array_map_throwing_total {A B} (f : A -> result B) xs :
  Forall (fun x => exists y, f x = Ok y) xs ->
  exists ys, Array_map_throwing f xs = Ok ys.
Proof.
  induction 1 as [|x xs [y Hy] _ [ys IH]]; simpl.
  - by exists [].
  - rewrite Hy, IH. simpl. by eexists.
Qed.

Lemma Array_map_throwing_Throw {A B} (f : A -> result B) xs m :
  Array_map_throwing f xs = Throw m -> exists x, x ∈ xs /\ f x = Throw m.
Proof.
  induction xs as [|x xs IH]; simpl; [discriminate|].
  destruct (f x) as [y|m'] eqn:Hx; simpl.
  - destruct (Array_map_throwing f xs) as [ys|m'']; simpl; [discriminate|].
    intros [= ->]. destruct IH as (x' & Hin & Hx'); [done|].
    exists x'. split; [by right|done].
  - intros [= ->]. exists x. split; [by left|done].
Qed.

(** The processed value of the translator: what [between] compares its
    length of, and what the other operators put in the clause. *)
Lemma between_pair f a b :
  conditionToPrisma h (condition f "between" (JArr [a; b]))
  = Ok (conjunction [field_gte f (resolve_bound h f a);
                     field_lte f (resolve_bound h f b)]).
Proof.
  unfold conditionToPrisma, resolve_bound, condition; simpl.
  by destruct (FieldTypeMap f) as [[]|].
Qed.

Lemma between_not_pair f v :
  is_pair v = false ->
  conditionToPrisma h (condition f "between" v)
  = Throw ("Invalid between value for field " +:+ f).
Proof.
  intros Hv. unfold conditionToPrisma, condition; simpl.
  destruct (FieldTypeMap f) as [[]|];
    destruct v as [| | | | |d|[|a [|b [|c items]]]|]; simpl in *;
    try reflexivity; try discriminate.
Qed.

Lemma is_pair_false v : is_pair v = false <-> forall a b, v <> JArr [a; b].
Proof.
  split.
  - intros H a b ->. discriminate.
  - intros H. destruct v as [| | | | | |[|a [|b [|c items]]]|]; try reflexivity.
    by destruct (H a b).
Qed.

Lemma enumerated_operator op :
  op ∈ FilterOperator_options ->
  op = "eq" \/ op = "neq" \/ op = "gt" \/ op = "gte" \/ op = "lt"
  \/ op = "lte" \/ op = "in" \/ op = "notIn" \/ op = "between"
  \/ op = "contains" \/ op = "isNull" \/ op = "isNotNull".
Proof.
  unfold FilterOperator_options. rewrite !elem_of_cons, elem_of_nil. tauto.
Qed.

Lemma conditionToPrisma_not_between f op v :
  op ∈ FilterOperator_options -> op <> "between" ->
  exists w, conditionToPrisma h (condition f op v) = Ok w.
Proof.
  intros Hop Hne. apply enumerated_operator in Hop.
  unfold conditionToPrisma, condition; simpl.
  repeat (destruct Hop as [->|Hop]; [try done; simpl; by eexists|]).
  subst. simpl. by eexists.
Qed.

Lemma condition_eta c : c = condition (field c) (operator c) (value c).
Proof. by destruct c. Qed.

End TranslatorFacts.

(** C9. The translation of [isNull] is "field IS NULL" and that of
    [isNotNull] is "field IS NOT NULL", whatever value the condition
    carries (none included) and whatever the host: two conditions that
    differ in their value only have the same translation. *)
Theorem null_checks_ignore_value (h1 h2 : Host) (f : string) (v1 v2 : JsValue) :
  (conditionToPrisma h1 (condition f "isNull" v1)
   = conditionToPrisma h2 (condition f "isNull" v2)
   /\ conditionToPrisma h1 (condition f "isNull" v1) = Ok (JObj [(f, JNull)]))
  /\ (conditionToPrisma h1 (condition f "isNotNull" v1)
      = conditionToPrisma h2 (condition f "isNotNull" v2)
      /\ conditionToPrisma h1 (condition f "isNotNull" v1)
         = Ok (JObj [(f, JObj [("not", JNull)])])).
Proof. repeat split. Qed.

(** C10. On an operator of the enumeration other than [between] the
    translator returns a predicate. The only exception it raises on an
    enumerated operator is the one for a [between] whose value is not an
    array of exactly two elements; the unsupported-operator exception is
    never raised for an enumerated operator. *)
Theorem enumerated_operators_translate (h : Host) (c : FilterCondition) :
  operator c ∈ FilterOperator_options ->
  (operator c <> "between" -> exists w, conditionToPrisma h c = Ok w)
  /\ (forall m, conditionToPrisma h c = Throw m ->
        operator c = "between"
        /\ (forall a b, value c <> JArr [a; b])
        /\ m = "Invalid between value for field " +:+ field c)
  /\ conditionToPrisma h c <> Throw ("Unsupported operator: " +:+ operator c).
Proof.
  intros Hop. rewrite (condition_eta c) at 1 2 3. simpl.
  assert (Hthrow : forall m,
    conditionToPrisma h (condition (field c) (operator c) (value c)) = Throw m ->
    operator c = "between"
    /\ (forall a b, value c <> JArr [a; b])
    /\ m = "Invalid between value for field " +:+ field c).
  { intros m Hm.
    destruct (decide (operator c = "between")) as [Hb|Hb].
    - rewrite Hb in Hm. split; [done|].
      destruct (is_pair (value c)) eqn:Hp.
      + destruct (value c) as [| | | | | |[|a [|b [|x items]]]|];
          try discriminate Hp.
        rewrite between_pair in Hm. discriminate.
      + rewrite between_not_pair in Hm by done.
        split; [by apply is_pair_false|congruence].
    - destruct (conditionToPrisma_not_between h (field c) (operator c)
                  (value c) Hop Hb) as [w Hw].
      congruence. }
  split; [|split].
  - intros Hb. by apply conditionToPrisma_not_between.
  - done.
  - intros Hm. destruct (Hthrow _ Hm) as (_ & _ & Heq). discriminate Heq.
Qed.

Lemma enumerated_operators_translate_witness :
  exists w, conditionToPrisma (utc_host 0)
              (condition "email" "contains" (JStr "@shop")) = Ok w.
Proof.
  refine (proj1 (enumerated_operators_translate (utc_host 0)
                   (condition "email" "contains" (JStr "@shop")) _) _).
  - apply (bool_decide_unpack _). exact I.
  - discriminate.
Defined.

(** The unsupported-operator exception is raised exactly outside the
    enumeration (null checks aside, which return before the switch). *)
Lemma unsupported_operator (h : Host) (c : FilterCondition) :
  operator c ∉ FilterOperator_options ->
  conditionToPrisma h c = Throw ("Unsupported operator: " +:+ operator c).
Proof.
  unfold FilterOperator_options.
  rewrite !not_elem_of_cons. intros Hne.
  unfold conditionToPrisma.
  repeat (rewrite bool_decide_eq_false_2 by tauto). done.
Qed.

(** C4. [between] with a value [[a, b]] is the conjunction of
    [field >= a] and [field <= b], the bounds being resolved first on a date
    field: these are the clauses the translator gives [gte] and [lte] for the
    same bounds, and the engine takes the conjunction for both of them
    holding. With a value that is not an array of exactly two elements the
    translation raises the exception for a malformed [between]. *)
Theorem between_is_a_closed_range (h : Host) (f : string) :
  (forall a b,
      conditionToPrisma h (condition f "between" (JArr [a; b]))
      = Ok (conjunction [field_gte f (resolve_bound h f a);
                         field_lte f (resolve_bound h f b)])
      /\ (Array_isArray a = false ->
          conditionToPrisma h (condition f "gte" a)
          = Ok (field_gte f (resolve_bound h f a)))
      /\ (Array_isArray b = false ->
          conditionToPrisma h (condition f "lte" b)
          = Ok (field_lte f (resolve_bound h f b)))
      /\ (forall field_holds row lo hi,
             Db.where_holds field_holds row (conjunction [lo; hi])
             = Db.where_holds field_holds row lo
               && Db.where_holds field_holds row hi))
  /\ (forall v, (forall a b, v <> JArr [a; b]) ->
        conditionToPrisma h (condition f "between" v)
        = Throw ("Invalid between value for field " +:+ f)).
Proof.
  split.
  - intros a b. split; [apply between_pair|]. split; [|split].
    + intros Ha. unfold conditionToPrisma, resolve_bound, condition; simpl.
      destruct (FieldTypeMap f) as [[]|]; try reflexivity.
      by destruct a.
    + intros Hb. unfold conditionToPrisma, resolve_bound, condition; simpl.
      destruct (FieldTypeMap f) as [[]|]; try reflexivity.
      by destruct b.
    + intros field_holds row lo hi. simpl.
      by rewrite !andb_true_r.
  - intros v Hv. apply between_not_pair. by apply is_pair_false.
Qed.

Lemma between_is_a_closed_range_witness :
  conditionToPrisma (utc_host 1680220800000)
    (condition "lastOrderDate" "between" (JArr [JStr "-30d"]))
  = Throw "Invalid between value for field lastOrderDate".
Proof.
  refine (proj2 (between_is_a_closed_range (utc_host 1680220800000)
                   "lastOrderDate") (JArr [JStr "-30d"]) _).
  intros a b. discriminate.
Defined.

Example between_on_a_date_field :
  conditionToPrisma (utc_host 1680220800000)
    (condition "lastOrderDate" "between" (JArr [JStr "-30d"; JStr "-1m"]))
  = Ok (conjunction
          [field_gte "lastOrderDate" (JDate (Some 1677628800000%Z));
           field_lte "lastOrderDate" (JDate (Some 1677801600000%Z))]).
Proof. reflexivity. Qed.

(* ===================================================================== *)
(** ** The group and filter composer *)
(* ===================================================================== *)

Section ComposerFacts.
Variable h : Host.

Lemma translatable_Ok c :
  translatable c = true -> exists w, conditionToPrisma h c = Ok w.
Proof.
  unfold translatable, includes. intros H.
  apply andb_prop in H as [Hop Hv].
  apply bool_decide_eq_true_1 in Hop.
  destruct (decide (operator c = "between")) as [Hb|Hb].
  - rewrite (bool_decide_eq_true_2 _ Hb) in Hv. simpl in Hv.
    rewrite (condition_eta c), Hb.
    destruct (value c) as [| | | | | |[|a [|b [|x items]]]|];
      try discriminate Hv.
    rewrite between_pair. by eexists.
  - rewrite (condition_eta c). by apply conditionToPrisma_not_between.
Qed.

Lemma filterGroupToPrisma_Ok g gw :
  filterGroupToPrisma h g = Ok gw ->
  exists cws,
    Forall2 (fun c cw => conditionToPrisma h c = Ok cw) (conditions g) cws
    /\ gw = if bool_decide (logic g = "AND") then conjunction cws
            else disjunction cws.
Proof.
  unfold filterGroupToPrisma. intros H.
  destruct (Array_map_throwing (conditionToPrisma h) (conditions g))
    as [cws|] eqn:Hmap; [|discriminate].
  simpl in H. exists cws. split; [by apply Array_map_throwing_Ok|].
  destruct (bool_decide (logic g = "AND")); by injection H as <-.
Qed.

Lemma valid_group_Ok g :
  valid_group g = true -> exists gw, filterGroupToPrisma h g = Ok gw.
Proof.
  unfold valid_group. intros H. apply andb_prop in H as [_ Hcs].
  destruct (Array_map_throwing_total (conditionToPrisma h) (conditions g))
    as [cws Hcws].
  { apply List.Forall_forall. intros c Hc. apply translatable_Ok.
    rewrite forallb_forall in Hcs. by apply Hcs. }
  unfold filterGroupToPrisma. rewrite Hcws. simpl.
  destruct (bool_decide (logic g = "AND")); by eexists.
Qed.

Lemma filtersToPrismaWhere_Ok t f w :
  filtersToPrismaWhere h t f = Ok w ->
  exists gws,
    Forall2 (fun g gw => filterGroupToPrisma h g = Ok gw) (groups f) gws
    /\ w = JObj [("tenantId", JStr t); ("AND", JArr gws)].
Proof.
  unfold filtersToPrismaWhere. intros H.
  destruct (Array_map_throwing (filterGroupToPrisma h) (groups f))
    as [gws|] eqn:Hmap; [|discriminate].
  simpl in H. injection H as <-.
  exists gws. split; [by apply Array_map_throwing_Ok|done].
Qed.

Lemma valid_filters_Ok t f :
  valid_filters f = true -> exists w, filtersToPrismaWhere h t f = Ok w.
Proof.
  unfold valid_filters. intros H.
  destruct (Array_map_throwing_total (filterGroupToPrisma h) (groups f))
    as [gws Hgws].
  { apply List.Forall_forall. intros g Hg. apply valid_group_Ok.
    rewrite forallb_forall in H. by apply H. }
  unfold filtersToPrismaWhere. rewrite Hgws. simpl. by eexists.
Qed.

End ComposerFacts.

Section EngineFacts.
Variable field_holds : Db.Customer -> string -> JsValue -> bool.

Lemma where_holds_conjunction row ws :
  Db.where_holds field_holds row (conjunction ws)
  = forallb (Db.where_holds field_holds row) ws.
Proof. simpl. by rewrite andb_true_r. Qed.

Lemma where_holds_disjunction row ws :
  Db.where_holds field_holds row (disjunction ws)
  = existsb (Db.where_holds field_holds row) ws.
Proof. simpl. by rewrite andb_true_r. Qed.

Lemma where_holds_tenant row t gws :
  Db.where_holds field_holds row
    (JObj [("tenantId", JStr t); ("AND", JArr gws)])
  = bool_decide (Db.tenantId row = t)
    && forallb (Db.where_holds field_holds row) gws.
Proof. simpl. by rewrite andb_true_r. Qed.

End EngineFacts.

(** C2. Valid filters translate, and the predicate is the tenant constraint
    together with the conjunction of the predicates of the groups, one per
    group and in their order; the predicate of a group is the conjunction of
    the translations of its conditions when its logic is AND and their
    disjunction when its logic is OR. The engine reads it so: a row
    satisfies the predicate when it is the tenant's and satisfies every
    group, and it satisfies a group when it satisfies all, respectively one,
    of the translated conditions. *)
Theorem filters_compose (h : Host) (tenant : string) (f : SegmentFilters) :
  valid_filters f = true ->
  exists gws,
    filtersToPrismaWhere h tenant f
    = Ok (JObj [("tenantId", JStr tenant); ("AND", JArr gws)])
    /\ Forall2
         (fun g gw =>
            exists cws,
              Forall2 (fun c cw => conditionToPrisma h c = Ok cw)
                      (conditions g) cws
              /\ (logic g = "AND" -> gw = conjunction cws)
              /\ (logic g = "OR" -> gw = disjunction cws)
              /\ forall field_holds row,
                   Db.where_holds field_holds row gw
                   = if bool_decide (logic g = "AND")
                     then forallb (Db.where_holds field_holds row) cws
                     else existsb (Db.where_holds field_holds row) cws)
         (groups f) gws
    /\ forall field_holds row,
         Db.where_holds field_holds row
           (JObj [("tenantId", JStr tenant); ("AND", JArr gws)])
         = bool_decide (Db.tenantId row = tenant)
           && forallb (Db.where_holds field_holds row) gws.
Proof.
  intros Hvalid.
  destruct (valid_filters_Ok h tenant f Hvalid) as [w Hw].
  destruct (filtersToPrismaWhere_Ok h tenant f w Hw) as (gws & Hgws & ->).
  exists gws. split; [done|]. split.
  - eapply Forall2_impl; [exact Hgws|].
    intros g gw Hg. simpl in Hg.
    destruct (filterGroupToPrisma_Ok h g gw Hg) as (cws & Hcws & Hgw).
    exists cws. split; [done|].
    destruct (bool_decide (logic g = "AND")) eqn:Hl; subst gw.
    + apply bool_decide_eq_true_1 in Hl.
      split; [done|]. split; [intros Hor; rewrite Hl in Hor; discriminate|].
      intros. apply where_holds_conjunction.
    + apply bool_decide_eq_false_1 in Hl.
      split; [done|]. split; [done|].
      intros. apply where_holds_disjunction.
  - intros. apply where_holds_tenant.
Qed.

Lemma filters_compose_witness :
  exists gws,
    filtersToPrismaWhere (utc_host 0) "t1" sample_filters
    = Ok (JObj [("tenantId", JStr "t1"); ("AND", JArr gws)])
    /\ length gws = 2%nat.
Proof.
  destruct (filters_compose (utc_host 0) "t1" sample_filters eq_refl)
    as (gws & Hw & Hgroups & _).
  exists gws. split; [exact Hw|].
  apply Forall2_length in Hgroups. symmetry. exact Hgroups.
Defined.

(* ===================================================================== *)
(** ** The store *)
(* ===================================================================== *)

Section StoreFacts.
Variable field_holds : Db.Customer -> string -> JsValue -> bool.

Lemma filter_sublist {A} (p : A -> bool) (l : list A) :
  sublist (List.filter p l) l.
Proof.
  induction l as [|x l IH]; simpl; [constructor|].
  destruct (p x); by constructor.
Qed.

Lemma matching_sublist w rows : sublist (matching field_holds w rows) rows.
Proof. apply filter_sublist. Qed.

Lemma matching_holds w rows row :
  row ∈ matching field_holds w rows ->
  row ∈ rows /\ Db.where_holds field_holds row w = true.
Proof.
  unfold matching. rewrite !list_elem_of_In, filter_In. tauto.
Qed.

Lemma insert_desc_Permutation c rows :
  Permutation (Db.insert_desc c rows) (c :: rows).
Proof.
  induction rows as [|c' rows IH]; simpl; [done|].
  destruct (Db.totalSpent c' <? Db.totalSpent c)%Z; [done|].
  rewrite IH. apply perm_swap.
Qed.

Lemma sort_desc_Permutation rows : Permutation (Db.sort_desc rows) rows.
Proof.
  induction rows as [|c rows IH]; simpl; [done|].
  by rewrite insert_desc_Permutation, IH.
Qed.

Lemma insert_desc_sorted c rows :
  StronglySorted by_descending_spend rows ->
  StronglySorted by_descending_spend (Db.insert_desc c rows).
Proof.
  induction 1 as [|c' rows Hs IH Hall]; simpl.
  - repeat constructor.
  - destruct (Z.ltb_spec (Db.totalSpent c') (Db.totalSpent c)) as [Hlt|Hge].
    + constructor; [by constructor|].
      constructor; [unfold by_descending_spend; lia|].
      eapply List.Forall_impl; [|exact Hall].
      unfold by_descending_spend. intros; lia.
    + constructor; [done|].
      rewrite (insert_desc_Permutation c rows). by constructor.
Qed.

Lemma sort_desc_sorted rows :
  StronglySorted by_descending_spend (Db.sort_desc rows).
Proof.
  induction rows as [|c rows IH]; simpl; [constructor|].
  by apply insert_desc_sorted.
Qed.

Lemma StronglySorted_firstn {A} (R : A -> A -> Prop) n l :
  StronglySorted R l -> StronglySorted R (firstn n l).
Proof.
  intros Hs. revert n.
  induction Hs as [|x l Hs IH Hall]; intros [|n]; simpl; try constructor.
  - apply IH.
  - apply List.Forall_forall. intros y Hy.
    rewrite List.Forall_forall in Hall. apply Hall.
    apply list_elem_of_In. eapply elem_of_sublist; [|apply (sublist_take l n)].
    by apply list_elem_of_In.
Qed.

Lemma StronglySorted_map {A B} (R : A -> A -> Prop) (S : B -> B -> Prop)
    (g : A -> B) l :
  (forall a b, R a b -> S (g a) (g b)) ->
  StronglySorted R l -> StronglySorted S (map g l).
Proof.
  intros HRS. induction 1 as [|x l Hs IH Hall]; simpl; constructor; [done|].
  apply List.Forall_forall. intros y Hy.
  apply in_map_iff in Hy as (a & <- & Ha).
  rewrite List.Forall_forall in Hall. auto.
Qed.

Lemma aggregate_spec rows w :
  Db.aggregate field_holds rows w
  = (Z.of_nat (length (matching field_holds w rows)),
     match matching field_holds w rows with
     | [] => None
     | found => Some (sum_spent found)
     end).
Proof.
  unfold Db.aggregate, matching.
  by destruct (List.filter _ rows).
Qed.

Lemma aggregate_sum rows w :
  Number (or_zero (snd (Db.aggregate field_holds rows w)))
  = sum_spent (matching field_holds w rows).
Proof.
  rewrite aggregate_spec. simpl.
  by destruct (matching field_holds w rows).
Qed.

End StoreFacts.

(* ===================================================================== *)
(** ** The evaluator *)
(* ===================================================================== *)

Section EvaluatorFacts.
Variable field_holds : Db.Customer -> string -> JsValue -> bool.
Variable h : Host.

(** A predicate of [filtersToPrismaWhere] holds of the tenant's rows only. *)
Lemma scoped_where tenant f w :
  filtersToPrismaWhere h tenant f = Ok w ->
  js_prop w "tenantId" = JStr tenant
  /\ forall row, Db.where_holds field_holds row w = true ->
                 Db.tenantId row = tenant.
Proof.
  intros Hw.
  destruct (filtersToPrismaWhere_Ok h tenant f w Hw) as (gws & _ & ->).
  split; [reflexivity|].
  intros row. rewrite where_holds_tenant. intros H.
  apply andb_prop in H as [H _]. by apply bool_decide_eq_true_1 in H.
Qed.

Lemma scoped_matching tenant f w rows :
  filtersToPrismaWhere h tenant f = Ok w ->
  Forall (fun row => row ∈ rows /\ Db.tenantId row = tenant)
         (matching field_holds w rows).
Proof.
  intros Hw. apply Forall_forall. intros row Hrow.
  apply matching_holds in Hrow as [Hin Hholds].
  split; [done|]. by apply (scoped_where tenant f w Hw).
Qed.

Lemma evaluateSegment_Ok db tenant f r :
  evaluateSegment field_holds h db tenant f = Ok r ->
  exists w,
    filtersToPrismaWhere h tenant f = Ok w
    /\ customerIds r
       = map Db.id (matching field_holds w (Db.seen_by_findMany db))
    /\ totalCount r
       = Z.of_nat (length (matching field_holds w (Db.seen_by_aggregate db)))
    /\ totalSpent r
       = sum_spent (matching field_holds w (Db.seen_by_aggregate db)).
Proof.
  unfold evaluateSegment. intros H.
  destruct (filtersToPrismaWhere h tenant f) as [w|]; [|discriminate].
  simpl in H. injection H as <-. exists w.
  repeat split. apply aggregate_sum.
Qed.

Lemma previewSegmentCustomers_Ok db tenant f (limit : nat) p :
  previewSegmentCustomers field_holds h db tenant f (Some limit) = Ok p ->
  exists w,
    filtersToPrismaWhere h tenant f = Ok w
    /\ customers p
       = map (to_preview)
           (firstn limit
              (Db.sort_desc (matching field_holds w (Db.seen_by_findMany db))))
    /\ preview_totalCount p
       = Z.of_nat (length (matching field_holds w (Db.seen_by_aggregate db)))
    /\ estimatedRevenue p
       = sum_spent (matching field_holds w (Db.seen_by_aggregate db)).
Proof.
  unfold previewSegmentCustomers. intros H.
  destruct (filtersToPrismaWhere h tenant f) as [w|]; [|discriminate].
  simpl in H. injection H as <-. exists w.
  repeat split. apply aggregate_sum.
Qed.

Lemma evaluation_succeeds db rows tenant f limit :
  valid_filters f = true ->
  (exists r, evaluateSegment field_holds h db tenant f = Ok r)
  /\ (exists n, countMatchingCustomers field_holds h rows tenant f = Ok n)
  /\ (exists p, previewSegmentCustomers field_holds h db tenant f limit = Ok p).
Proof.
  intros Hvalid.
  destruct (valid_filters_Ok h tenant f Hvalid) as [w Hw].
  unfold evaluateSegment, countMatchingCustomers, previewSegmentCustomers.
  rewrite Hw. simpl. repeat split; by eexists.
Qed.

End EvaluatorFacts.

(** C1. Whatever the filters, the predicate of [filtersToPrismaWhere] has
    the constraint [tenantId = tenant] as a property of its own, and holds
    of the tenant's rows only, whatever the engine makes of the field-level
    comparisons. So the identifiers [evaluateSegment] returns are those of
    rows of the tenant, the rows it counts and sums are rows of the tenant,
    and so are the rows [countMatchingCustomers] counts and the rows
    [previewSegmentCustomers] returns and counts. On valid filters the
    evaluation does return a result. *)
Theorem tenant_isolation
    (field_holds : Db.Customer -> string -> JsValue -> bool)
    (h : Host) (tenant : string) (f : SegmentFilters) :
  let of_tenant_in rows :=
    Forall (fun row => row ∈ rows /\ Db.tenantId row = tenant) in
  (valid_filters f = true ->
   forall db, exists r, evaluateSegment field_holds h db tenant f = Ok r)
  /\ (forall w, filtersToPrismaWhere h tenant f = Ok w ->
        js_prop w "tenantId" = JStr tenant
        /\ forall row, Db.where_holds field_holds row w = true ->
                       Db.tenantId row = tenant)
  /\ (forall db r, evaluateSegment field_holds h db tenant f = Ok r ->
        exists found counted,
          customerIds r = map Db.id found
          /\ of_tenant_in (Db.seen_by_findMany db) found
          /\ totalCount r = Z.of_nat (length counted)
          /\ totalSpent r = sum_spent counted
          /\ of_tenant_in (Db.seen_by_aggregate db) counted)
  /\ (forall rows n,
        countMatchingCustomers field_holds h rows tenant f = Ok n ->
        exists counted,
          n = Z.of_nat (length counted) /\ of_tenant_in rows counted)
  /\ (forall db (limit : nat) p,
        previewSegmentCustomers field_holds h db tenant f (Some limit) = Ok p ->
        exists found counted,
          customers p = map to_preview found
          /\ of_tenant_in (Db.seen_by_findMany db) found
          /\ preview_totalCount p = Z.of_nat (length counted)
          /\ estimatedRevenue p = sum_spent counted
          /\ of_tenant_in (Db.seen_by_aggregate db) counted).
Proof.
  intros of_tenant_in. split; [|split; [|split; [|split]]].
  - intros Hvalid db.
    by apply (evaluation_succeeds field_holds h db [] tenant f None).
  - intros w Hw. by apply (scoped_where field_holds h tenant f).
  - intros db r Hr.
    destruct (evaluateSegment_Ok _ _ _ _ _ _ Hr) as (w & Hw & Hids & Hn & Hs).
    exists (matching field_holds w (Db.seen_by_findMany db)),
           (matching field_holds w (Db.seen_by_aggregate db)).
    repeat split; try done; by eapply scoped_matching.
  - intros rows n Hn. unfold countMatchingCustomers in Hn.
    destruct (filtersToPrismaWhere h tenant f) as [w|] eqn:Hw; [|discriminate].
    simpl in Hn. injection Hn as <-.
    exists (matching field_holds w rows).
    split; [done|]. by eapply scoped_matching.
  - intros db limit p Hp.
    destruct (previewSegmentCustomers_Ok _ _ _ _ _ _ _ Hp)
      as (w & Hw & Hcs & Hn & Hs).
    exists (firstn limit
              (Db.sort_desc (matching field_holds w (Db.seen_by_findMany db)))),
           (matching field_holds w (Db.seen_by_aggregate db)).
    repeat split; try done; [|by eapply scoped_matching].
    apply Forall_forall. intros row Hrow.
    pose proof (scoped_matching field_holds h tenant f w
                  (Db.seen_by_findMany db) Hw) as Hall.
    rewrite Forall_forall in Hall. apply Hall.
    assert (Hin : row ∈ Db.sort_desc
                    (matching field_holds w (Db.seen_by_findMany db))).
    { eapply elem_of_sublist; [exact Hrow|apply sublist_take]. }
    by rewrite sort_desc_Permutation in Hin.
Qed.

Lemma tenant_isolation_witness :
  exists found counted,
    ["c1"; "c5"] = map Db.id found
    /\ Forall (fun row => row ∈ sample_rows /\ Db.tenantId row = "t1") found
    /\ 2%Z = Z.of_nat (length counted)
    /\ 950%Z = sum_spent counted
    /\ Forall (fun row => row ∈ sample_rows /\ Db.tenantId row = "t1") counted.
Proof.
  exact (proj1 (proj2 (proj2 (tenant_isolation numeric_field_holds
                                (utc_host 0) "t1" sample_filters)))
           (Db.snapshot sample_rows)
           {| customerIds := ["c1"; "c5"]; totalCount := 2;
              totalSpent := 950; evaluatedAt := Some 0%Z |}
           eq_refl).
Defined.

(** C8. With a limit [N], [previewSegmentCustomers] returns at most [N]
    records, in the order of descending spend: they are the first [N] of
    the matching rows ordered by descending spend. Its [totalCount] and
    [estimatedRevenue] are the count and the sum of the spend of all the
    rows that match the same predicate, the limit playing no part. On valid
    filters the preview does return a result. *)
Theorem preview_is_the_top_by_spend
    (field_holds : Db.Customer -> string -> JsValue -> bool)
    (h : Host) (db : Db.Store) (tenant : string) (f : SegmentFilters)
    (limit : nat) :
  (valid_filters f = true ->
   exists p,
     previewSegmentCustomers field_holds h db tenant f (Some limit) = Ok p)
  /\ forall p,
      previewSegmentCustomers field_holds h db tenant f (Some limit) = Ok p ->
      exists w ordered,
        filtersToPrismaWhere h tenant f = Ok w
        /\ Permutation ordered
             (matching field_holds w (Db.seen_by_findMany db))
        /\ StronglySorted by_descending_spend ordered
        /\ customers p = map to_preview (firstn limit ordered)
        /\ (length (customers p) <= limit)%nat
        /\ StronglySorted
             (fun a b => (Preview.totalSpent b <= Preview.totalSpent a)%Z)
             (customers p)
        /\ preview_totalCount p
           = Z.of_nat
               (length (matching field_holds w (Db.seen_by_aggregate db)))
        /\ estimatedRevenue p
           = sum_spent (matching field_holds w (Db.seen_by_aggregate db)).
Proof.
  split.
  { intros Hvalid.
    by apply (evaluation_succeeds field_holds h db [] tenant f (Some limit)). }
  intros p Hp.
  destruct (previewSegmentCustomers_Ok _ _ _ _ _ _ _ Hp)
    as (w & Hw & Hcs & Hn & Hs).
  exists w, (Db.sort_desc (matching field_holds w (Db.seen_by_findMany db))).
  split; [done|]. split; [apply sort_desc_Permutation|].
  split; [apply sort_desc_sorted|]. split; [done|].
  split; [|split; [|done]].
  - rewrite Hcs, length_map. apply firstn_le_length.
  - rewrite Hcs.
    apply (StronglySorted_map by_descending_spend); [done|].
    apply StronglySorted_firstn, sort_desc_sorted.
Qed.

Lemma preview_is_the_top_by_spend_witness :
  exists w ordered,
    filtersToPrismaWhere (utc_host 0) "t1" sample_filters = Ok w
    /\ Permutation ordered
         (matching numeric_field_holds w sample_rows)
    /\ map Db.id (firstn 1 ordered) = ["c5"].
Proof.
  destruct (proj2 (preview_is_the_top_by_spend numeric_field_holds
                     (utc_host 0) (Db.snapshot sample_rows) "t1"
                     sample_filters 1)
              {| customers := [to_preview (customer "c5" "t1" 700 5)];
                 preview_totalCount := 2; estimatedRevenue := 950 |}
              eq_refl)
    as (w & ordered & Hw & Hperm & _ & Hcs & _).
  exists w, ordered. split; [exact Hw|]. split; [exact Hperm|].
  simpl in Hcs.
  destruct ordered as [|c ordered]; [discriminate Hcs|].
  simpl in Hcs |- *. injection Hcs as Hc. rewrite Hc. reflexivity.
Defined.

(** Without a limit the preview has at most ten records. *)
Lemma preview_default_limit
    (field_holds : Db.Customer -> string -> JsValue -> bool)
    (h : Host) (db : Db.Store) (tenant : string) (f : SegmentFilters) :
  previewSegmentCustomers field_holds h db tenant f None
  = previewSegmentCustomers field_holds h db tenant f (Some 10%nat).
Proof. reflexivity. Qed.

(* ===================================================================== *)
(** ** The diff engine *)
(* ===================================================================== *)

Lemma filter_all {A} (P : A -> Prop) `{forall x, Decision (P x)} (l : list A) :
  Forall P l -> filter P l = l.
Proof.
  induction 1 as [|x l Hx _ IH]; [done|].
  by rewrite filter_cons_True, IH.
Qed.

Lemma filter_none {A} (P : A -> Prop) `{forall x, Decision (P x)} (l : list A) :
  Forall (fun x => ~ P x) l -> filter P l = [].
Proof.
  induction 1 as [|x l Hx _ IH]; [done|].
  by rewrite filter_cons_False, IH.
Qed.

(** C6. [added] is the identifiers of [current] that are not among those of
    [previous], in the order [current] lists them; [removed] is the
    identifiers of [previous] that are not among those of [current], in the
    order of [previous]; [unchanged] is the identifiers of [current] that
    are among those of [previous], in the order of [current]. So the diff of
    [[A, B, C]] and [[B, C, D]] has [D] added, [A] removed and [B, C]
    unchanged, and the diff of a snapshot with itself has nothing added,
    nothing removed and all its identifiers unchanged. *)
Theorem diffEvaluations_by_membership (previous current : EvaluationResult) :
  let d := diffEvaluations previous current in
  let prev := customerIds previous in
  let cur := customerIds current in
  (added d = filter (fun id => id ∉ prev) cur
   /\ removed d = filter (fun id => id ∉ cur) prev
   /\ unchanged d = filter (fun id => id ∈ prev) cur)
  /\ ((forall id, id ∈ added d <-> id ∈ cur /\ id ∉ prev)
      /\ (forall id, id ∈ removed d <-> id ∈ prev /\ id ∉ cur)
      /\ (forall id, id ∈ unchanged d <-> id ∈ cur /\ id ∈ prev))
  /\ (sublist (added d) cur /\ sublist (removed d) prev
      /\ sublist (unchanged d) cur)
  /\ (forall A B C D : string,
         NoDup [A; B; C; D] ->
         previous = evaluation [A; B; C] -> current = evaluation [B; C; D] ->
         d = {| added := [D]; removed := [A]; unchanged := [B; C] |})
  /\ (previous = current ->
      d = {| added := []; removed := []; unchanged := cur |}).
Proof.
  intros d prev cur.
  assert (Hadded : added d = filter (fun id => id ∉ prev) cur).
  { apply list_filter_iff. intros id. by rewrite elem_of_list_to_set. }
  assert (Hremoved : removed d = filter (fun id => id ∉ cur) prev).
  { apply list_filter_iff. intros id. by rewrite elem_of_list_to_set. }
  assert (Hunchanged : unchanged d = filter (fun id => id ∈ prev) cur).
  { apply list_filter_iff. intros id. by rewrite elem_of_list_to_set. }
  split; [done|]. split; [|split; [|split]].
  - rewrite Hadded, Hremoved, Hunchanged.
    split; [|split]; intros id; rewrite list_elem_of_filter; tauto.
  - rewrite Hadded, Hremoved, Hunchanged.
    repeat split; apply sublist_filter.
  - intros A B C D Hnd Hp Hc.
    assert (d = {| added := added d; removed := removed d;
                   unchanged := unchanged d |}) as -> by done.
    rewrite Hadded, Hremoved, Hunchanged. subst prev cur. subst previous current.
    simpl customerIds.
    repeat (apply NoDup_cons in Hnd as [? Hnd]). clear Hnd.
    f_equal.
    + rewrite filter_cons_False, filter_cons_False, filter_cons_True;
        set_unfold; intuition congruence.
    + rewrite filter_cons_True, filter_cons_False, filter_cons_False;
        set_unfold; intuition congruence.
    + rewrite filter_cons_True, filter_cons_True, filter_cons_False;
        set_unfold; intuition congruence.
  - intros Heq.
    assert (d = {| added := added d; removed := removed d;
                   unchanged := unchanged d |}) as -> by done.
    rewrite Hadded, Hremoved, Hunchanged. subst prev cur. subst previous.
    f_equal.
    + apply filter_none, Forall_forall. tauto.
    + apply filter_none, Forall_forall. tauto.
    + by apply filter_all, Forall_forall.
Qed.

Example diff_of_two_snapshots :
  diffEvaluations (evaluation ["A"; "B"; "C"]) (evaluation ["B"; "C"; "D"])
  = {| added := ["D"]; removed := ["A"]; unchanged := ["B"; "C"] |}.
Proof. by vm_compute. Qed.

(** Duplicates and order of the inputs are kept in the outputs. *)
Example diff_keeps_duplicates :
  diffEvaluations (evaluation ["B"; "A"; "A"]) (evaluation ["D"; "B"; "D"])
  = {| added := ["D"; "D"]; removed := ["A"; "A"]; unchanged := ["B"] |}.
Proof. by vm_compute. Qed.

Lemma diffEvaluations_by_membership_witness :
  diffEvaluations (evaluation ["A"; "B"; "C"]) (evaluation ["B"; "C"; "D"])
  = {| added := ["D"]; removed := ["A"]; unchanged := ["B"; "C"] |}.
Proof.
  refine (proj1 (proj2 (proj2 (proj2 (diffEvaluations_by_membership
            (evaluation ["A"; "B"; "C"]) (evaluation ["B"; "C"; "D"])))))
            "A" "B" "C" "D" _ eq_refl eq_refl).
  apply (bool_decide_unpack _). exact I.
Defined.

(* ===================================================================== *)
(** ** The validator *)
(* ===================================================================== *)

(** The keys of the type map are the filterable fields. *)
Lemma includes_same_elements (xs ys : list string) :
  forallb (includes ys) xs = true -> forallb (includes xs) ys = true ->
  forall x, includes xs x = includes ys x.
Proof.
  rewrite !forallb_forall. intros Hxy Hyx x.
  unfold includes in *. apply bool_decide_ext. split; intros Hx.
  - apply list_elem_of_In, Hxy in Hx. by apply bool_decide_eq_true_1 in Hx.
  - apply list_elem_of_In, Hyx in Hx. by apply bool_decide_eq_true_1 in Hx.
Qed.

Lemma FieldTypeMap_keys_fields x :
  includes FieldTypeMap_keys x = includes FilterableField_options x.
Proof. by apply includes_same_elements; vm_compute. Qed.

Lemma check_between_messages c errors :
  check_between c errors = app errors (between_messages c).
Proof.
  unfold check_between, between_messages, push.
  destruct (bool_decide (operator c = "between")); simpl;
    [|by rewrite app_nil_r].
  destruct (value c) as [| | | | | |[|a [|b [|x items]]]|]; simpl;
    by rewrite ?app_nil_r.
Qed.

Lemma check_membership_messages c errors :
  check_membership c errors = app errors (membership_messages c).
Proof.
  unfold check_membership, membership_messages, push.
  destruct (includes _ (operator c)), (Array_isArray (value c)); simpl;
    by rewrite ?app_nil_r.
Qed.

Lemma check_contains_messages c errors :
  check_contains c errors = app errors (contains_messages c).
Proof.
  unfold check_contains, contains_messages, push. simpl.
  destruct (_ && _); by rewrite ?app_nil_r.
Qed.

Lemma check_ordering_messages c errors :
  check_ordering c errors = app errors (ordering_messages c).
Proof.
  unfold check_ordering, ordering_messages, push. simpl.
  destruct (includes _ (operator c)); simpl; [|by rewrite app_nil_r].
  destruct (_ && _); by rewrite ?app_nil_r.
Qed.

(** One pass of the loop body appends the messages of the condition. *)
Lemma validate_condition_messages errors c :
  validate_condition errors c = app errors (condition_messages c).
Proof.
  unfold validate_condition, condition_messages.
  rewrite FieldTypeMap_keys_fields.
  destruct (includes FilterableField_options (field c)); [|reflexivity].
  simpl negb. cbv iota zeta.
  rewrite check_ordering_messages, check_contains_messages,
    check_membership_messages, check_between_messages.
  by rewrite <- !app_assoc.
Qed.

Lemma fold_validate_condition cs errors :
  fold_left validate_condition cs errors
  = app errors (concat (map condition_messages cs)).
Proof.
  revert errors. induction cs as [|c cs IH]; intros errors; simpl.
  - by rewrite app_nil_r.
  - by rewrite IH, validate_condition_messages, <- app_assoc.
Qed.

Lemma fold_groups gs errors :
  fold_left
    (fun errors group => fold_left validate_condition (conditions group) errors)
    gs errors
  = app errors (concat (map condition_messages (concat (map conditions gs)))).
Proof.
  revert errors. induction gs as [|g gs IH]; intros errors; simpl.
  - by rewrite app_nil_r.
  - by rewrite IH, fold_validate_condition, map_app, concat_app, <- app_assoc.
Qed.

Lemma validation_errors f :
  errors (validateFiltersExecutable f)
  = concat (map condition_messages (all_conditions f)).
Proof. unfold validateFiltersExecutable. simpl. by rewrite fold_groups. Qed.

Lemma validation_valid f :
  valid (validateFiltersExecutable f) = true
  <-> errors (validateFiltersExecutable f) = [].
Proof.
  unfold validateFiltersExecutable. simpl.
  rewrite bool_decide_eq_true. apply length_zero_iff_nil.
Qed.

Lemma validation_reports f c m :
  c ∈ all_conditions f -> m ∈ condition_messages c ->
  m ∈ errors (validateFiltersExecutable f).
Proof.
  intros Hc Hm. rewrite validation_errors.
  apply list_elem_of_In, in_concat.
  exists (condition_messages c). split; [|by apply list_elem_of_In].
  apply in_map. by apply list_elem_of_In.
Qed.

(** A condition draws at most one message, and draws one exactly when
    the validator's table rejects it. *)
Lemma condition_messages_length c :
  length (condition_messages c)
  = if validator_rejects c then 1%nat else 0%nat.
Proof.
  unfold condition_messages, validator_rejects.
  destruct (includes FilterableField_options (field c)); [|reflexivity].
  simpl negb. rewrite orb_false_l.
  unfold between_messages, membership_messages, contains_messages,
    ordering_messages, includes.
  destruct (decide (operator c = "between")) as [->|Hb].
  { simpl. by destruct (is_pair (value c)). }
  rewrite (bool_decide_eq_false_2 _ Hb).
  destruct (decide (operator c ∈ ["in"; "notIn"])) as [Hin|Hin].
  { rewrite (bool_decide_eq_true_2 _ Hin).
    rewrite !elem_of_cons, elem_of_nil in Hin.
    destruct Hin as [->|[->|[]]]; simpl;
      by destruct (Array_isArray (value c)). }
  rewrite (bool_decide_eq_false_2 _ Hin).
  destruct (decide (operator c = "contains")) as [->|Hc].
  { simpl. by destruct (bool_decide (FieldTypeMap (field c) = Some TString)). }
  rewrite (bool_decide_eq_false_2 _ Hc). simpl.
  by destruct (bool_decide (operator c ∈ ["gt"; "gte"; "lt"; "lte"])),
    (bool_decide (FieldTypeMap (field c) = Some TNumber)),
    (bool_decide (FieldTypeMap (field c) = Some TDate)).
Qed.

Lemma validation_error_count f :
  length (errors (validateFiltersExecutable f))
  = length (List.filter validator_rejects (all_conditions f)).
Proof.
  rewrite validation_errors.
  induction (all_conditions f) as [|c cs IH]; simpl; [done|].
  rewrite length_app, IH, condition_messages_length.
  by destruct (validator_rejects c).
Qed.

Lemma rejected_condition_invalidates f c :
  c ∈ all_conditions f -> validator_rejects c = true ->
  valid (validateFiltersExecutable f) = false.
Proof.
  intros Hc Hr. apply not_true_is_false. rewrite validation_valid.
  intros He. pose proof (validation_error_count f) as Hn.
  rewrite He in Hn. simpl in Hn. symmetry in Hn.
  apply length_zero_iff_nil in Hn.
  assert (c ∈ List.filter validator_rejects (all_conditions f)) as Hin.
  { apply list_elem_of_In, filter_In. by rewrite <- list_elem_of_In. }
  rewrite Hn in Hin. by apply elem_of_nil in Hin.
Qed.

Lemma known_field_messages c m :
  field c ∈ FilterableField_options ->
  m ∈ between_messages c \/ m ∈ membership_messages c
  \/ m ∈ contains_messages c \/ m ∈ ordering_messages c ->
  m ∈ condition_messages c.
Proof.
  intros Hf Hm. unfold condition_messages, includes.
  rewrite (bool_decide_eq_true_2 _ Hf). rewrite !elem_of_app. tauto.
Qed.

(** C3, as the validator has it. For a condition of the filters the
    validator reports: an unknown field; on a known field, a [between]
    whose value is not an array of exactly two elements, an [in] or [notIn]
    whose value is not an array, a [contains] on a field that is not a
    string, and a [gt], [gte], [lt] or [lte] on a field that is neither a
    number nor a date. In each case the filters are not valid. *)
Theorem validator_enforces_its_table (f : SegmentFilters) (c : FilterCondition) :
  c ∈ all_conditions f ->
  let v := validateFiltersExecutable f in
  (field c ∉ FilterableField_options ->
   "Unknown field: " +:+ field c ∈ errors v)
  /\ (field c ∈ FilterableField_options ->
      (operator c = "between" -> is_pair (value c) = false ->
       "Field " +:+ field c +:+ ": 'between' requires array of 2 values"
       ∈ errors v)
      /\ (operator c ∈ ["in"; "notIn"] -> Array_isArray (value c) = false ->
          "Field " +:+ field c +:+ ": '" +:+ operator c
          +:+ "' requires array value" ∈ errors v)
      /\ (operator c = "contains" -> FieldTypeMap (field c) <> Some TString ->
          "Field " +:+ field c +:+ ": 'contains' only valid for string fields"
          ∈ errors v)
      /\ (operator c ∈ ["gt"; "gte"; "lt"; "lte"] ->
          FieldTypeMap (field c) <> Some TNumber ->
          FieldTypeMap (field c) <> Some TDate ->
          "Field " +:+ field c +:+ ": '" +:+ operator c
          +:+ "' only valid for number/date fields" ∈ errors v))
  /\ (validator_rejects c = true -> valid v = false).
Proof.
  intros Hc v. split; [|split].
  - intros Hf. apply (validation_reports f c); [done|].
    unfold condition_messages, includes.
    rewrite (bool_decide_eq_false_2 _ Hf). by left.
  - intros Hf. split; [|split; [|split]].
    + intros Hop Hv. apply (validation_reports f c); [done|].
      apply known_field_messages; [done|]. left.
      unfold between_messages.
      rewrite (bool_decide_eq_true_2 _ Hop), Hv. by left.
    + intros Hop Hv. apply (validation_reports f c); [done|].
      apply known_field_messages; [done|]. right; left.
      unfold membership_messages, includes.
      rewrite (bool_decide_eq_true_2 _ Hop), Hv. by left.
    + intros Hop Ht. apply (validation_reports f c); [done|].
      apply known_field_messages; [done|]. right; right; left.
      unfold contains_messages.
      rewrite (bool_decide_eq_true_2 _ Hop), (bool_decide_eq_false_2 _ Ht).
      by left.
    + intros Hop Hn Hd. apply (validation_reports f c); [done|].
      apply known_field_messages; [done|]. right; right; right.
      unfold ordering_messages, includes.
      rewrite (bool_decide_eq_true_2 _ Hop), (bool_decide_eq_false_2 _ Hn),
        (bool_decide_eq_false_2 _ Hd).
      by left.
  - by apply rejected_condition_invalidates.
Qed.

Lemma validator_enforces_its_table_witness :
  "Field isHighValue: 'gt' only valid for number/date fields"
  ∈ errors (validateFiltersExecutable
              (single (condition "isHighValue" "gt" (JBool true)))).
Proof.
  refine (proj2 (proj2 (proj2 (proj1 (proj2
            (validator_enforces_its_table
               (single (condition "isHighValue" "gt" (JBool true)))
               (condition "isHighValue" "gt" (JBool true)) _)) _))) _ _ _).
  - by left.
  - apply (bool_decide_unpack _). exact I.
  - apply (bool_decide_unpack _). exact I.
  - discriminate.
  - discriminate.
Defined.

(** An [in] with an empty array violates the table of the specification,
    and the validator has no message for it. *)
Lemma empty_membership_list_passes_validation :
  violates_compatibility_table (condition "email" "in" (JArr [])) = true
  /\ validateFiltersExecutable (single (condition "email" "in" (JArr [])))
     = {| valid := true; errors := [] |}.
Proof. split; reflexivity. Qed.

(** A [between] on a field that is neither a number nor a date: the
    validator has no message for it either, while
    [validateOperatorForField] refuses the pair. *)
Example between_on_a_string_field :
  violates_compatibility_table
    (condition "email" "between" (JArr [JStr "a"; JStr "z"])) = true
  /\ validateOperatorForField "email" "between" = false
  /\ validateFiltersExecutable
       (single (condition "email" "between" (JArr [JStr "a"; JStr "z"])))
     = {| valid := true; errors := [] |}.
Proof. repeat split. Qed.







(** A wrong arity on an unknown field is not reported: the unknown field
    is, and the loop goes on to the next condition. *)
Example arity_masked_by_an_unknown_field :
  validateFiltersExecutable masked_arity
  = {| valid := false;
       errors := ["Unknown field: shoeSize"; "Unknown field: hatSize"] |}.
Proof. reflexivity. Qed.

Example two_violations_validated :
  validateFiltersExecutable two_violations
  = {| valid := false;
       errors := ["Unknown field: shoeSize";
                  "Field ordersCount: 'between' requires array of 2 values"] |}.
Proof. reflexivity. Qed.

(* ===================================================================== *)
(** ** The relative date resolver: contract *)
(* ===================================================================== *)

(** C5, as the resolver has it. A signed integer [N] followed by a unit
    resolves to now plus [N] calendar units of the local time zone, clipped
    to the range of dates: days and hours are added to the local time, months
    to the month number with the overflow of the day of the month carried
    into the following month. Any other string goes to the Date constructor
    of the host, so the result is what the host reads in the string: in
    particular a string that is neither in the ISO format nor in the format
    of [toUTCString] gets the result of the host's own formats, an invalid
    date when the host has none for it. *)
Theorem parseRelativeDate_contract (h : Host) :
  (forall (negative : bool) (ds : list ascii) (u : ascii),
      ds <> [] -> forallb DateParse.is_digit ds = true -> is_unit u = true ->
      parseRelativeDate h (relative_literal negative ds u)
      = plus_calendar_units h (signed negative (decimal_value ds)) u)
  /\ (forall s, match_relative s = None ->
        parseRelativeDate h s = DateParse.Date_of_string h s)
  /\ (forall s, match_relative s = None ->
        DateParse.is_iso_datetime s = false ->
        DateParse.utc_string_time_value s = None ->
        parseRelativeDate h s = host_date_fallback h s).
Proof.
  split; [|split].
  - intros negative ds u Hne Hall Hu.
    by apply ResolverFacts.parseRelativeDate_literal.
  - intros s Hs. unfold parseRelativeDate. by rewrite Hs.
  - intros s Hs Hiso Hutc. unfold parseRelativeDate. rewrite Hs.
    unfold DateParse.Date_of_string, DateParse.is_iso_datetime in *.
    destruct (DateParse.iso_fields s); [discriminate|].
    by rewrite Hutc.
Qed.

Lemma parseRelativeDate_contract_witness :
  parseRelativeDate (utc_host 1680220800000) "-30d" = Some 1677628800000%Z.
Proof.
  exact (proj1 (parseRelativeDate_contract (utc_host 1680220800000))
           true ["3"%char; "0"%char] "d"%char
           ltac:(discriminate) eq_refl eq_refl).
Defined.

(** 31 March 2023, 00:00 UTC, minus thirty days is 1 March; minus one
    month it is 3 March, February having 28 days; three hours earlier it is
    30 March, 21:00. *)
Example relative_dates_at_the_end_of_march :
  let h := utc_host 1680220800000 in
  parseRelativeDate h "-30d" = Some 1677628800000%Z
  /\ parseRelativeDate h "-1m" = Some 1677801600000%Z
  /\ parseRelativeDate h "-3h" = Some 1680210000000%Z
  /\ parseRelativeDate h "2023-03-01T00:00:00.000Z" = Some 1677628800000%Z
  /\ parseRelativeDate h "last month" = None.
Proof. repeat split. Qed.

(** A string in the format of [toUTCString] matches neither the relative
    pattern nor the ISO format, and resolves to a valid date. *)
Lemma utc_string_resolves_to_a_valid_date :
  match_relative "Thu, 01 Jan 1970 00:00:00 GMT" = None
  /\ DateParse.is_iso_datetime "Thu, 01 Jan 1970 00:00:00 GMT" = false
  /\ parseRelativeDate (utc_host 1680220800000)
       "Thu, 01 Jan 1970 00:00:00 GMT" = Some 0%Z.
Proof. repeat split. Qed.

(** It does so on every host. *)
Lemma utc_string_resolves_on_every_host (h : Host) :
  parseRelativeDate h "Thu, 01 Jan 1970 00:00:00 GMT" = Some 0%Z.
Proof. reflexivity. Qed.

(** A year below 100 in that format is read by the host's own formats. *)
Example early_year_is_left_to_the_host (h : Host) :
  parseRelativeDate h "Sat, 01 Jan 0050 00:00:00 GMT"
  = host_date_fallback h "Sat, 01 Jan 0050 00:00:00 GMT".
Proof. reflexivity. Qed.

(* ===================================================================== *)
(** ** Exceptions of the translation *)
(* ===================================================================== *)

Lemma Array_map_throwing_first {A B} (f : A -> result B) xs :
  match first_exception f xs with
  | Some m => Array_map_throwing f xs = Throw m
  | None => exists ys, Array_map_throwing f xs = Ok ys
  end.
Proof.
  induction xs as [|x xs IH]; simpl; [by eexists|].
  destruct (f x) as [y|m]; simpl; [|done].
  destruct (first_exception f xs) as [m|].
  - by rewrite IH.
  - destruct IH as [ys ->]. simpl. by eexists.
Qed.

Lemma first_exception_app {A B} (f : A -> result B) xs ys :
  first_exception f (app xs ys)
  = match first_exception f xs with
    | Some m => Some m
    | None => first_exception f ys
    end.
Proof.
  induction xs as [|x xs IH]; simpl; [done|].
  by destruct (f x).
Qed.

Lemma first_exception_None {A B} (f : A -> result B) xs :
  first_exception f xs = None <-> Forall (fun x => exists y, f x = Ok y) xs.
Proof.
  induction xs as [|x xs IH]; simpl.
  - split; [constructor|done].
  - destruct (f x) as [y|m] eqn:Hx.
    + rewrite IH. split.
      * intros H. constructor; [by eexists|done].
      * intros H. by inversion H.
    + split; [done|]. intros H. inversion H as [|? ? [y Hy] _]; subst.
      rewrite Hx in Hy. discriminate.
Qed.

Lemma first_exception_elem {A B} (f : A -> result B) xs m :
  first_exception f xs = Some m -> exists x, x ∈ xs /\ f x = Throw m.
Proof.
  induction xs as [|x xs IH]; simpl; [done|].
  destruct (f x) as [y|m'] eqn:Hx.
  - intros H. destruct (IH H) as (x' & Hin & Hx'). exists x'.
    split; [by right|done].
  - intros [= ->]. exists x. split; [by left|done].
Qed.

Lemma filterGroupToPrisma_first h g :
  match first_exception (conditionToPrisma h) (conditions g) with
  | Some m => filterGroupToPrisma h g = Throw m
  | None => exists gw, filterGroupToPrisma h g = Ok gw
  end.
Proof.
  unfold filterGroupToPrisma.
  pose proof (Array_map_throwing_first (conditionToPrisma h) (conditions g))
    as H.
  destruct (first_exception (conditionToPrisma h) (conditions g)) as [m|].
  - by rewrite H.
  - destruct H as [cws ->]. simpl.
    destruct (bool_decide (logic g = "AND")); by eexists.
Qed.

Lemma first_exception_groups h gs :
  first_exception (filterGroupToPrisma h) gs
  = first_exception (conditionToPrisma h) (concat (map conditions gs)).
Proof.
  induction gs as [|g gs IH]; simpl; [done|].
  rewrite first_exception_app.
  pose proof (filterGroupToPrisma_first h g) as Hg.
  destruct (first_exception (conditionToPrisma h) (conditions g)) as [m|].
  - by rewrite Hg.
  - destruct Hg as [gw ->]. exact IH.
Qed.

Lemma filtersToPrismaWhere_first h tenant f :
  match first_exception (conditionToPrisma h) (all_conditions f) with
  | Some m => filtersToPrismaWhere h tenant f = Throw m
  | None => exists w, filtersToPrismaWhere h tenant f = Ok w
  end.
Proof.
  unfold filtersToPrismaWhere, all_conditions.
  rewrite <- first_exception_groups.
  pose proof (Array_map_throwing_first (filterGroupToPrisma h) (groups f))
    as H.
  destruct (first_exception (filterGroupToPrisma h) (groups f)) as [m|].
  - by rewrite H.
  - destruct H as [gws ->]. simpl. by eexists.
Qed.

(** X1. The translation of filters fails exactly when one of their
    conditions cannot be translated, and then with the exception of the
    first such condition, in the order of the groups and of the conditions
    within a group. The evaluation, the count and the preview fail with the
    same exception, and read nothing from the store. *)
Theorem translation_fails_at_the_first_condition
    (field_holds : Db.Customer -> string -> JsValue -> bool)
    (h : Host) (tenant : string) (f : SegmentFilters) (m : string) :
  (filtersToPrismaWhere h tenant f = Throw m
   <-> first_exception (conditionToPrisma h) (all_conditions f) = Some m)
  /\ (first_exception (conditionToPrisma h) (all_conditions f) = Some m ->
      (forall db, evaluateSegment field_holds h db tenant f = Throw m)
      /\ (forall rows,
            countMatchingCustomers field_holds h rows tenant f = Throw m)
      /\ (forall db limit,
            previewSegmentCustomers field_holds h db tenant f limit = Throw m))
  /\ ((exists w, filtersToPrismaWhere h tenant f = Ok w)
      <-> Forall (fun c => exists w, conditionToPrisma h c = Ok w)
                 (all_conditions f)).
Proof.
  pose proof (filtersToPrismaWhere_first h tenant f) as Hfirst.
  split; [|split].
  - destruct (first_exception _ (all_conditions f)) as [m'|].
    + rewrite Hfirst. split; congruence.
    + destruct Hfirst as [w ->]. split; discriminate.
  - intros Hm. rewrite Hm in Hfirst.
    unfold evaluateSegment, countMatchingCustomers, previewSegmentCustomers.
    by rewrite Hfirst.
  - rewrite <- first_exception_None.
    destruct (first_exception _ (all_conditions f)) as [m'|].
    + rewrite Hfirst. split; [intros [w Hw]; discriminate|discriminate].
    + by split.
Qed.

Lemma translation_fails_at_the_first_condition_witness :
  evaluateSegment numeric_field_holds (utc_host 0) (Db.snapshot sample_rows)
    "t1" two_violations
  = Throw "Invalid between value for field ordersCount".
Proof.
  exact (proj1 (proj1 (proj2 (translation_fails_at_the_first_condition
           numeric_field_holds (utc_host 0) "t1" two_violations
           "Invalid between value for field ordersCount")) eq_refl)
           (Db.snapshot sample_rows)).
Defined.

(* ===================================================================== *)
(** ** The validator and the translator *)
(* ===================================================================== *)

Lemma accepted_conditions f c :
  valid (validateFiltersExecutable f) = true -> c ∈ all_conditions f ->
  validator_rejects c = false.
Proof.
  intros Hvalid Hc. destruct (validator_rejects c) eqn:Hr; [|done].
  rewrite (rejected_condition_invalidates f c Hc Hr) in Hvalid. discriminate.
Qed.

Lemma unrejected_filters_valid f :
  Forall (fun c => validator_rejects c = false) (all_conditions f) ->
  valid (validateFiltersExecutable f) = true.
Proof.
  intros Hall. apply validation_valid, length_zero_iff_nil.
  rewrite validation_error_count.
  induction Hall as [|c cs Hc _ IH]; simpl; [done|]. by rewrite Hc.
Qed.

Lemma unrejected_between c :
  validator_rejects c = false -> operator c = "between" ->
  is_pair (value c) = true.
Proof.
  unfold validator_rejects. intros Hr Hop.
  rewrite (bool_decide_eq_true_2 _ Hop) in Hr.
  destruct (is_pair (value c)); [done|].
  simpl in Hr. rewrite orb_true_r in Hr. discriminate.
Qed.

Lemma unrejected_translates h c :
  validator_rejects c = false ->
  (operator c ∈ FilterOperator_options ->
   exists w, conditionToPrisma h c = Ok w)
  /\ (forall m, conditionToPrisma h c = Throw m ->
        (operator c ∉ FilterOperator_options)
        /\ m = ("Unsupported operator: " +:+ operator c)).
Proof.
  intros Hr.
  assert (Hok : operator c ∈ FilterOperator_options ->
                exists w, conditionToPrisma h c = Ok w).
  { intros Hop. apply translatable_Ok. unfold translatable, includes.
    rewrite (bool_decide_eq_true_2 _ Hop). simpl.
    destruct (decide (operator c = "between")) as [Hb|Hb].
    - rewrite (unrejected_between c Hr Hb). apply orb_true_r.
    - by rewrite (bool_decide_eq_false_2 _ Hb). }
  split; [done|].
  intros m Hm.
  destruct (decide (operator c ∈ FilterOperator_options)) as [Hop|Hop].
  - destruct (Hok Hop) as [w Hw]. congruence.
  - split; [done|]. rewrite (unsupported_operator h c Hop) in Hm. congruence.
Qed.

(** X2. Filters the validator accepts translate without a malformed-value
    exception: the only exception their translation can raise is the one
    for an operator outside the enumeration, and when all their operators
    are enumerated the translation succeeds, on every host and for every
    tenant. *)
Theorem validated_filters_translate (h : Host) (tenant : string)
    (f : SegmentFilters) :
  valid (validateFiltersExecutable f) = true ->
  ((forall c, c ∈ all_conditions f -> operator c ∈ FilterOperator_options) ->
   exists w, filtersToPrismaWhere h tenant f = Ok w)
  /\ (forall m, filtersToPrismaWhere h tenant f = Throw m ->
        exists c, c ∈ all_conditions f
                  /\ (operator c ∉ FilterOperator_options)
                  /\ m = ("Unsupported operator: " +:+ operator c)).
Proof.
  intros Hvalid.
  pose proof (filtersToPrismaWhere_first h tenant f) as Hfirst.
  split.
  - intros Hops.
    destruct (first_exception _ (all_conditions f)) as [m|] eqn:Hm; [|done].
    apply first_exception_elem in Hm as (c & Hc & Hthrow).
    destruct (proj1 (unrejected_translates h c
                       (accepted_conditions f c Hvalid Hc)) (Hops c Hc))
      as [w Hw].
    congruence.
  - intros m Hthrow.
    destruct (first_exception _ (all_conditions f)) as [m'|] eqn:Hm.
    + rewrite Hfirst in Hthrow. injection Hthrow as ->.
      apply first_exception_elem in Hm as (c & Hc & Hc').
      exists c. split; [done|].
      by apply (unrejected_translates h c (accepted_conditions f c Hvalid Hc)).
    + destruct Hfirst as [w Hw]. congruence.
Qed.

Lemma validated_filters_translate_witness :
  exists w, filtersToPrismaWhere (utc_host 0) "t1" sample_filters = Ok w.
Proof.
  refine (proj1 (validated_filters_translate (utc_host 0) "t1"
                   sample_filters eq_refl) _).
  intros c Hc. apply (bool_decide_unpack _).
  apply list_elem_of_In in Hc. simpl in Hc.
  destruct Hc as [<-|[<-|[<-|[]]]]; exact I.
Defined.

(** X3. The validator accepts filters exactly when none of their
    conditions is on an unknown field, is a [between] without an array of
    two elements, an [in] or [notIn] without an array, a [contains] on a field
    that is not a string, or a [gt], [gte], [lt], [lte] on a field that is
    neither a number nor a date; each rejected condition has one message, so
    there are never more messages than conditions. *)
Theorem validity_is_per_condition (f : SegmentFilters) :
  (valid (validateFiltersExecutable f) = true
   <-> Forall (fun c => validator_rejects c = false) (all_conditions f))
  /\ (length (errors (validateFiltersExecutable f))
      <= length (all_conditions f))%nat.
Proof.
  split.
  - split.
    + intros Hvalid. apply Forall_forall. intros c Hc.
      by apply (accepted_conditions f).
    + apply unrejected_filters_valid.
  - rewrite validation_error_count. apply List.filter_length_le.
Qed.

(** X4. The verdict of the validator depends on the conditions only, in
    their order: neither the logic of a group nor the way the conditions are
    split into groups changes it, and the messages of filters put together
    from two lists of groups are those of the first followed by those of the
    second. *)
Theorem validation_ignores_grouping (f1 f2 : SegmentFilters) :
  (all_conditions f1 = all_conditions f2 ->
   validateFiltersExecutable f1 = validateFiltersExecutable f2)
  /\ errors (validateFiltersExecutable
               {| groups := app (groups f1) (groups f2) |})
     = app (errors (validateFiltersExecutable f1))
           (errors (validateFiltersExecutable f2)).
Proof.
  split.
  - intros Heq.
    assert (He : errors (validateFiltersExecutable f1)
                 = errors (validateFiltersExecutable f2))
      by by rewrite !validation_errors, Heq.
    unfold validateFiltersExecutable in *. simpl in *. by rewrite He.
  - rewrite !validation_errors. unfold all_conditions. simpl.
    by rewrite map_app, concat_app, map_app, concat_app.
Qed.

Lemma validation_ignores_grouping_witness :
  validateFiltersExecutable two_violations
  = validateFiltersExecutable
      {| groups := [ {| logic := "OR";
                        conditions := all_conditions two_violations |} ] |}.
Proof.
  exact (proj1 (validation_ignores_grouping two_violations
           {| groups := [ {| logic := "OR";
                             conditions := all_conditions two_violations |} ] |})
           eq_refl).
Defined.

Lemma known_field_type f :
  f ∈ FilterableField_options -> exists ty, FieldTypeMap f = Some ty.
Proof.
  intros Hf.
  assert (Hall : forallb (fun f => bool_decide (is_Some (FieldTypeMap f)))
                         FilterableField_options = true) by by vm_compute.
  rewrite forallb_forall in Hall.
  apply list_elem_of_In, Hall, bool_decide_eq_true_1 in Hf.
  destruct Hf as [ty Hty]. by exists ty.
Qed.

Lemma single_valid c :
  valid (validateFiltersExecutable (single c)) = negb (validator_rejects c).
Proof.
  destruct (validator_rejects c) eqn:Hr.
  - apply (rejected_condition_invalidates (single c) c); [by left|done].
  - apply unrejected_filters_valid. by repeat constructor.
Qed.

(** X5. On a known field, an enumerated operator and a value of the shape
    the operator needs, a pair that [validateOperatorForField] admits passes
    [validateFiltersExecutable]; and except for [between] the converse holds:
    what passes the validator is a pair [validateOperatorForField] admits.
    For [between] the validator passes every field. *)
Theorem operator_checks_agree (c : FilterCondition) :
  field c ∈ FilterableField_options ->
  operator c ∈ FilterOperator_options ->
  (operator c = "between" -> is_pair (value c) = true) ->
  (operator c ∈ ["in"; "notIn"] -> Array_isArray (value c) = true) ->
  (validateOperatorForField (field c) (operator c) = true ->
   valid (validateFiltersExecutable (single c)) = true)
  /\ (operator c <> "between" ->
      valid (validateFiltersExecutable (single c)) = true ->
      validateOperatorForField (field c) (operator c) = true)
  /\ (operator c = "between" ->
      valid (validateFiltersExecutable (single c)) = true).
Proof.
  intros Hf Hop Hpair Harr.
  rewrite single_valid.
  unfold validator_rejects, validateOperatorForField, includes.
  rewrite (bool_decide_eq_true_2 _ Hf).
  destruct (known_field_type _ Hf) as [ty Hty]. rewrite Hty.
  apply enumerated_operator in Hop.
  repeat (destruct Hop as [Hop|Hop]);
    rewrite Hop in *;
    try (rewrite Hpair by done);
    try (rewrite Harr by (apply (bool_decide_unpack _); exact I));
    destruct ty; simpl; repeat split; try done.
Qed.

Lemma operator_checks_agree_witness :
  valid (validateFiltersExecutable
           (single (condition "email" "contains" (JStr "@shop")))) = true.
Proof.
  refine (proj1 (operator_checks_agree
                   (condition "email" "contains" (JStr "@shop")) _ _ _ _)
            eq_refl).
  - apply (bool_decide_unpack _). exact I.
  - apply (bool_decide_unpack _). exact I.
  - discriminate.
  - intros H. apply (bool_decide_pack _) in H. exact (False_ind _ H).
Defined.

(* ===================================================================== *)
(** ** The diff engine: further properties *)
(* ===================================================================== *)

Lemma diff_fields previous current :
  added (diffEvaluations previous current)
  = filter (fun id => id ∉ customerIds previous) (customerIds current)
  /\ removed (diffEvaluations previous current)
     = filter (fun id => id ∉ customerIds current) (customerIds previous)
  /\ unchanged (diffEvaluations previous current)
     = filter (fun id => id ∈ customerIds previous) (customerIds current).
Proof.
  repeat split; apply list_filter_iff; intros id;
    by rewrite elem_of_list_to_set.
Qed.

Lemma filter_complement_Permutation {A} (P : A -> Prop)
    `{forall x, Decision (P x)} (l : list A) :
  Permutation (app (filter (fun x => ~ P x) l) (filter P l)) l.
Proof.
  induction l as [|x l IH]; [done|].
  destruct (decide (P x)) as [Hx|Hx].
  - rewrite (filter_cons_True P) by done.
    rewrite (filter_cons_False (fun x => ~ P x)) by tauto.
    rewrite <- Permutation_middle. by constructor.
  - rewrite (filter_cons_False P) by done.
    rewrite (filter_cons_True (fun x => ~ P x)) by done.
    simpl. by constructor.
Qed.

(** X6. The added and the unchanged identifiers split the identifiers of
    the current evaluation: together they are its list up to order, each
    occurrence falling in exactly one of the two, and no identifier is both
    added and removed. *)
Theorem diff_splits_current (previous current : EvaluationResult) :
  let d := diffEvaluations previous current in
  Permutation (app (added d) (unchanged d)) (customerIds current)
  /\ (length (added d) + length (unchanged d)
      = length (customerIds current))%nat
  /\ (forall id, id ∈ added d -> id ∉ unchanged d)
  /\ (forall id, id ∈ added d -> id ∉ removed d).
Proof.
  intros d. destruct (diff_fields previous current) as (Ha & Hr & Hu).
  fold d in Ha, Hr, Hu. rewrite Ha, Hr, Hu.
  assert (HP : Permutation
                 (app (filter (fun id => id ∉ customerIds previous)
                              (customerIds current))
                      (filter (fun id => id ∈ customerIds previous)
                              (customerIds current)))
                 (customerIds current))
    by apply (filter_complement_Permutation
                (fun id => id ∈ customerIds previous)).
  split; [done|]. split.
  - rewrite <- length_app. by apply Permutation_length.
  - split; intros id; rewrite !list_elem_of_filter; tauto.
Qed.

(** X7. Swapping the two evaluations swaps what is added and what is
    removed, and leaves the same identifiers unchanged. *)
Theorem diff_swap (a b : EvaluationResult) :
  added (diffEvaluations a b) = removed (diffEvaluations b a)
  /\ removed (diffEvaluations a b) = added (diffEvaluations b a)
  /\ forall id, id ∈ unchanged (diffEvaluations a b)
                <-> id ∈ unchanged (diffEvaluations b a).
Proof.
  destruct (diff_fields a b) as (Ha & Hr & Hu).
  destruct (diff_fields b a) as (Ha' & Hr' & Hu').
  rewrite Ha, Hr, Hu, Ha', Hr', Hu'.
  repeat split; intros; rewrite list_elem_of_filter in *; tauto.
Qed.

(** X8. The diff reads the other evaluation as a set: two previous
    evaluations with the same identifiers, in whatever order and number of
    occurrences, give the same added and unchanged lists, and two current
    evaluations with the same identifiers give the same removed list. *)
Theorem diff_reads_sets (previous previous' current current' : EvaluationResult) :
  ((forall id, id ∈ customerIds previous <-> id ∈ customerIds previous') ->
   added (diffEvaluations previous current)
   = added (diffEvaluations previous' current)
   /\ unchanged (diffEvaluations previous current)
      = unchanged (diffEvaluations previous' current))
  /\ ((forall id, id ∈ customerIds current <-> id ∈ customerIds current') ->
      removed (diffEvaluations previous current)
      = removed (diffEvaluations previous current')).
Proof.
  split; intros Hsame.
  - destruct (diff_fields previous current) as (-> & _ & ->).
    destruct (diff_fields previous' current) as (-> & _ & ->).
    split; apply list_filter_iff; intros id; by rewrite Hsame.
  - destruct (diff_fields previous current) as (_ & -> & _).
    destruct (diff_fields previous current') as (_ & -> & _).
    apply list_filter_iff; intros id; by rewrite Hsame.
Qed.

Lemma diff_reads_sets_witness :
  added (diffEvaluations (evaluation ["A"; "B"]) (evaluation ["B"; "C"]))
  = added (diffEvaluations (evaluation ["B"; "A"; "B"]) (evaluation ["B"; "C"])).
Proof.
  refine (proj1 (proj1 (diff_reads_sets (evaluation ["A"; "B"])
                          (evaluation ["B"; "A"; "B"])
                          (evaluation ["B"; "C"]) (evaluation ["B"; "C"])) _)).
  intros id. simpl. rewrite !elem_of_cons, !elem_of_nil. tauto.
Defined.

(** X9. Against an evaluation without identifiers everything is new or
    gone: with an empty previous evaluation all current identifiers are
    added, with an empty current evaluation all previous ones are removed,
    and nothing else is reported. *)
Theorem diff_with_an_empty_evaluation (previous current : EvaluationResult) :
  (customerIds previous = [] ->
   diffEvaluations previous current
   = {| added := customerIds current; removed := []; unchanged := [] |})
  /\ (customerIds current = [] ->
      diffEvaluations previous current
      = {| added := []; removed := customerIds previous; unchanged := [] |}).
Proof.
  destruct (diff_fields previous current) as (Ha & Hr & Hu).
  assert (Hd : diffEvaluations previous current
               = {| added := added (diffEvaluations previous current);
                    removed := removed (diffEvaluations previous current);
                    unchanged := unchanged (diffEvaluations previous current) |})
    by done.
  split; intros He; rewrite Hd, Ha, Hr, Hu, He; f_equal;
    try done.
  - apply filter_all, Forall_forall. intros id _. apply not_elem_of_nil.
  - apply filter_none, Forall_forall. intros id _ Hin.
    by apply elem_of_nil in Hin.
  - apply filter_all, Forall_forall. intros id _. apply not_elem_of_nil.
Qed.

Lemma diff_with_an_empty_evaluation_witness :
  diffEvaluations (evaluation []) (evaluation ["A"; "B"])
  = {| added := ["A"; "B"]; removed := []; unchanged := [] |}.
Proof.
  exact (proj1 (diff_with_an_empty_evaluation (evaluation [])
                  (evaluation ["A"; "B"])) eq_refl).
Defined.

(** X10. The diff takes the previous evaluation to the current one: an
    identifier is in the current evaluation exactly when it is added, or is
    in the previous evaluation and not removed. *)
Theorem diff_applies (previous current : EvaluationResult) (id : string) :
  let d := diffEvaluations previous current in
  id ∈ customerIds current
  <-> id ∈ added d \/ (id ∈ customerIds previous /\ id ∉ removed d).
Proof.
  intros d. destruct (diff_fields previous current) as (Ha & Hr & _).
  fold d in Ha, Hr. rewrite Ha, Hr, !list_elem_of_filter.
  destruct (decide (id ∈ customerIds previous)),
    (decide (id ∈ customerIds current)); tauto.
Qed.

(* ===================================================================== *)
(** ** The clock and the calendar: further properties *)
(* ===================================================================== *)

Lemma Array_map_throwing_ext {A B} (f g : A -> result B) xs :
  Forall (fun x => f x = g x) xs ->
  Array_map_throwing f xs = Array_map_throwing g xs.
Proof.
  induction 1 as [|x xs Hx _ IH]; simpl; [done|]. by rewrite Hx, IH.
Qed.

Lemma conditionToPrisma_off_dates h1 h2 c :
  FieldTypeMap (field c) <> Some TDate ->
  conditionToPrisma h1 c = conditionToPrisma h2 c.
Proof.
  intros Hty. unfold conditionToPrisma.
  destruct (FieldTypeMap (field c)) as [[]|]; try reflexivity.
  by destruct Hty.
Qed.

(** X11. The translation reads the clock, the time zone and the date
    formats of the host for conditions on date fields only: filters without
    a condition on a date field have the same translation, and the same
    count of matching customers, on every host. *)
Theorem translation_is_timeless_off_date_fields
    (field_holds : Db.Customer -> string -> JsValue -> bool)
    (h1 h2 : Host) (tenant : string) (f : SegmentFilters) :
  Forall (fun c => FieldTypeMap (field c) <> Some TDate) (all_conditions f) ->
  filtersToPrismaWhere h1 tenant f = filtersToPrismaWhere h2 tenant f
  /\ forall rows,
       countMatchingCustomers field_holds h1 rows tenant f
       = countMatchingCustomers field_holds h2 rows tenant f.
Proof.
  intros Hall.
  assert (Heq : filtersToPrismaWhere h1 tenant f
                = filtersToPrismaWhere h2 tenant f).
  { unfold filtersToPrismaWhere.
    rewrite (Array_map_throwing_ext (filterGroupToPrisma h1)
               (filterGroupToPrisma h2)); [done|].
    unfold all_conditions in Hall.
    induction (groups f) as [|g gs IH]; [constructor|].
    simpl in Hall. apply Forall_app in Hall as [Hg Hgs].
    constructor; [|by apply IH].
    unfold filterGroupToPrisma.
    rewrite (Array_map_throwing_ext (conditionToPrisma h1)
               (conditionToPrisma h2)); [done|].
    eapply Forall_impl; [exact Hg|].
    intros c Hc. by apply conditionToPrisma_off_dates. }
  split; [done|]. intros rows. unfold countMatchingCustomers. by rewrite Heq.
Qed.

Lemma translation_is_timeless_off_date_fields_witness :
  filtersToPrismaWhere (utc_host 0) "t1" sample_filters
  = filtersToPrismaWhere
      (fixed_offset_host 1680220800000 19800000 (fun _ => None))
      "t1" sample_filters.
Proof.
  refine (proj1 (translation_is_timeless_off_date_fields numeric_field_holds
                   (utc_host 0)
                   (fixed_offset_host 1680220800000 19800000 (fun _ => None))
                   "t1" sample_filters _)).
  repeat constructor; discriminate.
Defined.

Section FixedOffset.
Import JsDate DateMethods JsDateFacts.
Local Open Scope Z_scope.

Variable h : Host.
Variable offset : Z.
Hypothesis Hoffset : forall t isUTC, LocalTZA h t isUTC = offset.

Lemma fixed_offset_days_hours span :
  TimeClip (UTC h (LocalTime h (host_now h) + span))
  = TimeClip (host_now h + span).
Proof. unfold UTC, LocalTime. rewrite !Hoffset. f_equal. lia. Qed.

Lemma fixed_offset_literal (negative : bool) (ds : list ascii) :
  ds <> [] -> forallb DateParse.is_digit ds = true ->
  let N := signed negative (decimal_value ds) in
  parseRelativeDate h (relative_literal negative ds "d")
  = TimeClip (host_now h + N * msPerDay)
  /\ parseRelativeDate h (relative_literal negative ds "h")
     = TimeClip (host_now h + N * msPerHour)
  /\ parseRelativeDate h (relative_literal negative ds "m")
     = let t := host_now h + offset in
       TimeClip (MakeDate (MakeDay (YearFromTime t) (MonthFromTime t + N)
                                   (DateFromTime t))
                          (TimeWithinDay t) - offset).
Proof.
  intros Hne Hall N.
  rewrite !ResolverFacts.parseRelativeDate_literal by done.
  unfold plus_calendar_units. simpl.
  rewrite !fixed_offset_days_hours.
  repeat split. unfold UTC, LocalTime. by rewrite !Hoffset.
Qed.

End FixedOffset.

(** X12. In a time zone at a fixed offset from UTC, relative days and hours
    are fixed spans of time: [N] days resolve to now plus [N] times 24 hours
    and [N] hours to now plus [N] hours, whatever the offset; so a day is
    twenty-four hours, and an amount of zero resolves to now itself, in
    days, hours and months alike. *)
Theorem relative_spans_at_a_fixed_offset (h : Host) (offset : Z)
    (negative : bool) (ds : list ascii) :
  (forall t isUTC, LocalTZA h t isUTC = offset) ->
  ds <> [] -> forallb DateParse.is_digit ds = true ->
  let N := signed negative (decimal_value ds) in
  parseRelativeDate h (relative_literal negative ds "d")
  = JsDate.TimeClip (host_now h + N * 86400000)%Z
  /\ parseRelativeDate h (relative_literal negative ds "h")
     = JsDate.TimeClip (host_now h + N * 3600000)%Z
  /\ (forall (ds' : list ascii),
        ds' <> [] -> forallb DateParse.is_digit ds' = true ->
        decimal_value ds' = (24 * decimal_value ds)%Z ->
        parseRelativeDate h (relative_literal negative ds' "h")
        = parseRelativeDate h (relative_literal negative ds "d"))
  /\ (decimal_value ds = 0%Z ->
      forall u, is_unit u = true ->
        parseRelativeDate h (relative_literal negative ds u)
        = JsDate.TimeClip (host_now h)).
Proof.
  intros Hoffset Hne Hall N.
  destruct (fixed_offset_literal h offset Hoffset negative ds Hne Hall)
    as (Hd & Hh & Hm).
  split; [exact Hd|]. split; [exact Hh|]. split.
  - intros ds' Hne' Hall' Hval.
    destruct (fixed_offset_literal h offset Hoffset negative ds' Hne' Hall')
      as (_ & Hh' & _).
    rewrite Hh', Hd, Hval. f_equal. unfold JsDate.msPerHour, JsDate.msPerDay.
    destruct negative; simpl; lia.
  - intros Hzero u Hu.
    assert (HN : signed negative (decimal_value ds) = 0%Z)
      by (rewrite Hzero; by destruct negative).
    unfold is_unit in Hu.
    destruct (decide (u = "d"%char)) as [->|Hnd].
    { rewrite Hd, HN. f_equal. lia. }
    destruct (decide (u = "h"%char)) as [->|Hnh].
    { rewrite Hh, HN. f_equal. lia. }
    destruct (decide (u = "m"%char)) as [->|Hnm].
    { rewrite Hm, HN. cbv zeta.
      replace (JsDate.MonthFromTime (host_now h + offset) + 0)%Z
        with (JsDate.MonthFromTime (host_now h + offset)) by lia.
      pose proof (JsDateFacts.MakeDay_shift_date (host_now h + offset) 0) as Hs.
      replace (JsDate.DateFromTime (host_now h + offset) + 0)%Z
        with (JsDate.DateFromTime (host_now h + offset)) in Hs by lia.
      rewrite Hs, JsDateFacts.MakeDate_Day_TimeWithinDay. f_equal. lia. }
    rewrite !bool_decide_eq_false_2 in Hu by done. discriminate Hu.
Qed.

Lemma relative_spans_at_a_fixed_offset_witness :
  parseRelativeDate (fixed_offset_host 1680220800000 19800000 (fun _ => None))
    "-30d"
  = Some 1677628800000%Z.
Proof.
  exact (proj1 (relative_spans_at_a_fixed_offset
                  (fixed_offset_host 1680220800000 19800000 (fun _ => None))
                  19800000 true ["3"%char; "0"%char]
                  (fun _ _ => eq_refl) ltac:(discriminate) eq_refl)).
Defined.

Module MonthFacts.
Import JsDate DateMethods JsDateFacts.
Local Open Scope Z_scope.

Lemma InLeapYear_cases t : InLeapYear t = 0 \/ InLeapYear t = 1.
Proof. unfold InLeapYear. destruct (_ =? _); auto. Qed.

(** The day of the month is a day of its month. *)
Lemma DateFromTime_le t :
  DateFromTime t <= days_in_month (YearFromTime t) (MonthFromTime t).
Proof.
  rewrite days_in_month_table by apply MonthFromTime_range.
  unfold DateFromTime, MonthFromTime.
  pose proof (DayWithinYear_range t) as Hr.
  unfold InLeapYear in *.
  destruct (DaysInYear_cases (YearFromTime t)) as [E|E]; rewrite E in *;
    simpl in *;
    repeat match goal with
           | |- context [?a <? ?b] => destruct (Z.ltb_spec a b)
           end; simpl; lia.
Qed.

Lemma days_in_month_bounds y m :
  0 <= m <= 11 -> 28 <= days_in_month y m <= 31.
Proof.
  intros Hm. rewrite days_in_month_table by done.
  destruct (month_cases m Hm) as [->|[->|[->|[->|[->|[->|[->|[->|[->|[->|[->| ->]]]]]]]]]]];
    simpl; try lia.
  destruct (DaysInYear y =? 366); lia.
Qed.

Lemma MakeDay_normal y n d :
  MakeDay y n d = MakeDay (y + n / 12) (n mod 12) d.
Proof.
  pose proof (Z.mod_pos_bound n 12 ltac:(lia)) as Hm.
  rewrite (MakeDay_in_year (y + n / 12) (n mod 12)) by lia.
  reflexivity.
Qed.

Lemma MakeDay_next_month y m d :
  0 <= m <= 10 ->
  MakeDay y m d = MakeDay y (m + 1) (d - days_in_month y m).
Proof.
  intros Hm. unfold days_in_month.
  rewrite !(MakeDay_in_year y) by lia. lia.
Qed.

(** The calendar fields of the local time [n] months from [t]. *)
Lemma shifted_month_fields t n :
  let y := YearFromTime t + (MonthFromTime t + n) / 12 in
  let m := (MonthFromTime t + n) mod 12 in
  let t' := MakeDate (MakeDay (YearFromTime t) (MonthFromTime t + n)
                              (DateFromTime t))
                     (TimeWithinDay t) in
  TimeWithinDay t' = TimeWithinDay t
  /\ (DateFromTime t <= days_in_month y m ->
      YearFromTime t' = y /\ MonthFromTime t' = m
      /\ DateFromTime t' = DateFromTime t)
  /\ (days_in_month y m < DateFromTime t ->
      YearFromTime t' = y /\ MonthFromTime t' = m + 1
      /\ DateFromTime t' = DateFromTime t - days_in_month y m).
Proof.
  intros y m t'.
  assert (Hm : 0 <= m <= 11).
  { unfold m. pose proof (Z.mod_pos_bound (MonthFromTime t + n) 12). lia. }
  pose proof (TimeWithinDay_range t) as Htime.
  pose proof (DateFromTime_pos t) as Hpos.
  pose proof (DateFromTime_le t) as Hle.
  pose proof (days_in_month_bounds (YearFromTime t) (MonthFromTime t)
                (MonthFromTime_range t)) as Hown.
  pose proof (days_in_month_bounds y m Hm) as Hdim.
  assert (Ht' : t' = MakeDate (MakeDay y m (DateFromTime t)) (TimeWithinDay t)).
  { unfold t'. by rewrite MakeDay_normal. }
  split; [|split].
  - unfold t', TimeWithinDay at 1, MakeDate.
    rewrite Z.add_comm, Z.mod_add by (unfold msPerDay; lia).
    apply Z.mod_small. exact Htime.
  - intros Hfits. rewrite Ht'.
    apply civil_of_MakeDay; [done|lia|done].
  - intros Hover.
    assert (Hm10 : 0 <= m <= 10).
    { destruct (Z.eq_dec m 11) as [E|E]; [|lia].
      rewrite E, days_in_month_table in Hover by lia. simpl in Hover. lia. }
    rewrite Ht', (MakeDay_next_month y m) by done.
    pose proof (days_in_month_bounds y (m + 1) ltac:(lia)) as Hnext.
    apply civil_of_MakeDay; [lia|lia|done].
Qed.

End MonthFacts.

(** X13. In a time zone at a fixed offset, [N] months from now is the
    local day of the month and time of day of now, in the month [N] months
    away, the years carried; when that month does not have the day, the
    result runs over into the following month by the days missing. *)
Theorem relative_months_at_a_fixed_offset (h : Host) (offset : Z)
    (negative : bool) (ds : list ascii) :
  (forall t isUTC, LocalTZA h t isUTC = offset) ->
  ds <> [] -> forallb DateParse.is_digit ds = true ->
  let N := signed negative (decimal_value ds) in
  let t := (host_now h + offset)%Z in
  let y := (JsDate.YearFromTime t + (JsDate.MonthFromTime t + N) / 12)%Z in
  let m := ((JsDate.MonthFromTime t + N) mod 12)%Z in
  exists t',
    parseRelativeDate h (relative_literal negative ds "m")
    = JsDate.TimeClip (t' - offset)%Z
    /\ JsDate.TimeWithinDay t' = JsDate.TimeWithinDay t
    /\ ((JsDate.DateFromTime t <= JsDate.days_in_month y m)%Z ->
        JsDate.YearFromTime t' = y /\ JsDate.MonthFromTime t' = m
        /\ JsDate.DateFromTime t' = JsDate.DateFromTime t)
    /\ ((JsDate.days_in_month y m < JsDate.DateFromTime t)%Z ->
        JsDate.YearFromTime t' = y /\ JsDate.MonthFromTime t' = (m + 1)%Z
        /\ JsDate.DateFromTime t'
           = (JsDate.DateFromTime t - JsDate.days_in_month y m)%Z).
Proof.
  intros Hoffset Hne Hall N t y m.
  destruct (fixed_offset_literal h offset Hoffset negative ds Hne Hall)
    as (_ & _ & Hm).
  eexists. split; [exact Hm|].
  apply MonthFacts.shifted_month_fields.
Qed.

Lemma relative_months_at_a_fixed_offset_witness :
  exists t',
    parseRelativeDate (utc_host 1680220800000) "-1m"
    = JsDate.TimeClip (t' - 0)%Z
    /\ JsDate.MonthFromTime t' = 2%Z /\ JsDate.DateFromTime t' = 3%Z.
Proof.
  destruct (relative_months_at_a_fixed_offset (utc_host 1680220800000) 0
              true ["1"%char] (fun _ _ => eq_refl) ltac:(discriminate) eq_refl)
    as (t' & Hp & _ & _ & Hover).
  exists t'. split; [exact Hp|].
  destruct (Hover eq_refl) as (_ & HM & HD). split; [exact HM|exact HD].
Defined.

(** Amounts beyond 2^53, which a number does not hold exactly, are beyond
    the range of dates. *)
Lemma TimeClip_beyond time :
  (8640000000000000 < Z.abs time)%Z -> JsDate.TimeClip time = None.
Proof.
  intros H. unfold JsDate.TimeClip.
  by destruct (Z.ltb_spec 8640000000000000 (Z.abs time)); [|lia].
Qed.

Section HugeAmounts.
Import JsDate DateMethods JsDateFacts.
Local Open Scope Z_scope.

Variable h : Host.
Variable offset : Z.
Hypothesis Hoffset : forall t isUTC, LocalTZA h t isUTC = offset.
Hypothesis Hday : - msPerDay <= offset <= msPerDay.
Hypothesis Hnow : in_date_range (host_now h).

Lemma year_of_now : - 300000 <= YearFromTime (host_now h + offset) <= 300000.
Proof.
  pose proof (YearFromTime_spec (host_now h + offset)) as Hy.
  unfold in_date_range in Hnow. unfold msPerDay in Hday.
  unfold Day, msPerDay, DayFromYear in Hy.
  Z.div_mod_to_equations. lia.
Qed.

Lemma huge_months_are_invalid (n : Z) :
  2 ^ 53 < Z.abs n ->
  let t := host_now h + offset in
  TimeClip (MakeDate (MakeDay (YearFromTime t) (MonthFromTime t + n)
                              (DateFromTime t))
                     (TimeWithinDay t) - offset) = None.
Proof.
  intros Hn t. apply TimeClip_beyond.
  pose proof year_of_now as HY. fold t in HY.
  pose proof (MonthFromTime_range t) as HM.
  destruct (MonthFacts.shifted_month_fields t n) as (_ & Hfits & Hover).
  set (t' := MakeDate (MakeDay (YearFromTime t) (MonthFromTime t + n)
                               (DateFromTime t)) (TimeWithinDay t)) in *.
  set (y := YearFromTime t + (MonthFromTime t + n) / 12) in *.
  assert (Hy : YearFromTime t' = y).
  { destruct (Z.le_gt_cases (DateFromTime t)
                (days_in_month y ((MonthFromTime t + n) mod 12))) as [H|H].
    - by destruct (Hfits H).
    - by destruct (Hover ltac:(lia)). }
  pose proof (YearFromTime_spec t') as Hspec. rewrite Hy in Hspec.
  unfold msPerDay in Hday.
  assert (Hpow : 2 ^ 53 = 9007199254740992) by reflexivity.
  rewrite Hpow in Hn. clear Hfits Hover Hy Hpow.
  unfold Day, msPerDay, DayFromYear in Hspec. subst y.
  clearbody t'. 
  generalize dependent (YearFromTime t). intros Y HY Hspec.
  generalize dependent (MonthFromTime t). intros M HM Hspec.
  Z.div_mod_to_equations. lia.
Qed.

Lemma huge_amounts_are_invalid (negative : bool) (ds : list ascii) (u : ascii) :
  ds <> [] -> forallb DateParse.is_digit ds = true -> is_unit u = true ->
  2 ^ 53 < decimal_value ds ->
  parseRelativeDate h (relative_literal negative ds u) = None.
Proof.
  intros Hne Hall Hu Hbig.
  destruct (fixed_offset_literal h offset Hoffset negative ds Hne Hall)
    as (Hd & Hh & Hm).
  assert (Hpow : 2 ^ 53 = 9007199254740992) by reflexivity.
  assert (HN : 2 ^ 53 < Z.abs (signed negative (decimal_value ds))).
  { destruct negative; simpl; lia. }
  unfold in_date_range in Hnow. unfold msPerDay in Hday.
  unfold is_unit in Hu.
  destruct (decide (u = "d"%char)) as [->|Hnd].
  { rewrite Hd. apply TimeClip_beyond. unfold msPerDay. lia. }
  destruct (decide (u = "h"%char)) as [->|Hnh].
  { rewrite Hh. apply TimeClip_beyond. unfold msPerHour. lia. }
  destruct (decide (u = "m"%char)) as [->|Hnm].
  { rewrite Hm. by apply huge_months_are_invalid. }
  by rewrite !bool_decide_eq_false_2 in Hu.
Qed.

End HugeAmounts.

(** X14. The relative pattern accepts exactly the strings made of an
    optional minus sign, one or more decimal digits and one of the letters
    d, h and m, and captures the signed digits and the letter; when the
    digits denote at most 2^53, which a number holds exactly, [parseInt]
    reads the capture as that number, signed. Digits that denote more
    resolve to an invalid date, in every zone at a fixed offset of at most
    a day: the rounding of such a number does not show in a resolved
    date. *)
Theorem relative_pattern_language (s : string) :
  (forall body u,
      match_relative s = Some (body, u) <->
      exists (negative : bool) (ds : list ascii),
        ds <> [] /\ forallb DateParse.is_digit ds = true /\ is_unit u = true
        /\ s = relative_literal negative ds u
        /\ body = string_of_list_ascii
                    (app (if negative then ["-"%char] else []) ds))
  /\ (forall (negative : bool) (ds : list ascii) (u : ascii),
        ds <> [] -> forallb DateParse.is_digit ds = true -> is_unit u = true ->
        s = relative_literal negative ds u ->
        (decimal_value ds <= 2 ^ 53)%Z ->
        exists body,
          match_relative s = Some (body, u)
          /\ parseInt body = Some (signed negative (decimal_value ds)))
  /\ (forall (h : Host) (offset : Z) (negative : bool) (ds : list ascii)
             (u : ascii),
        (forall t isUTC, LocalTZA h t isUTC = offset) ->
        (- 86400000 <= offset <= 86400000)%Z ->
        in_date_range (host_now h) ->
        ds <> [] -> forallb DateParse.is_digit ds = true -> is_unit u = true ->
        s = relative_literal negative ds u ->
        (2 ^ 53 < decimal_value ds)%Z ->
        parseRelativeDate h s = None).
Proof.
  split.
  - intros body u. split.
    + apply ResolverFacts.match_relative_Some.
    + intros (negative & ds & Hne & Hall & Hu & -> & ->).
      by apply ResolverFacts.match_relative_literal.
  - split.
    + intros negative ds u Hne Hall Hu -> _.
      eexists. split; [by apply ResolverFacts.match_relative_literal|].
      by apply ResolverFacts.parseInt_signed_digits.
    + intros h offset negative ds u Hoffset Hday Hnow Hne Hall Hu -> Hbig.
      by apply (huge_amounts_are_invalid h offset).
Qed.

Lemma relative_pattern_language_witness :
  exists body,
    match_relative "-30d" = Some (body, "d"%char)
    /\ parseInt body = Some (-30)%Z.
Proof.
  exact (proj1 (proj2 (relative_pattern_language "-30d"))
           true ["3"%char; "0"%char]
           "d"%char ltac:(discriminate) eq_refl eq_refl eq_refl
           ltac:(discriminate)).
Defined.

(** One more than 2^53: the integer of the digits, which the code holds
    rounded to 2^53, and no date either way. *)
Example amount_beyond_exact_numbers :
  parseInt "9007199254740993" = Some 9007199254740993%Z
  /\ parseRelativeDate (utc_host 0) "9007199254740993d" = None
  /\ parseRelativeDate (utc_host 0) "9007199254740993h" = None
  /\ parseRelativeDate (utc_host 0) "-9007199254740993m" = None.
Proof. repeat split. Qed.

Lemma TimeClip_range time t :
  JsDate.TimeClip time = Some t -> in_date_range t.
Proof.
  unfold JsDate.TimeClip, in_date_range.
  destruct (Z.ltb_spec 8640000000000000 (Z.abs time)); [discriminate|].
  intros [= <-]. lia.
Qed.

(** X15. A valid date the resolver returns is within the range of dates,
    of 8.64e15 milliseconds either side of the epoch, unless it is the
    host's own reading of a string that is neither a relative amount, nor an
    ISO string, nor a UTC string: those three are clipped to the range, too
    large an amount giving an invalid date. *)
Theorem resolved_dates_are_in_range (h : Host) (s : string) (t : Z) :
  parseRelativeDate h s = Some t ->
  in_date_range t
  \/ (match_relative s = None /\ DateParse.is_iso_datetime s = false
      /\ DateParse.utc_string_time_value s = None
      /\ host_date_fallback h s = Some t).
Proof.
  intros Hp.
  destruct (match_relative s) as [[body u]|] eqn:Hs.
  - left.
    apply ResolverFacts.match_relative_Some in Hs
      as (negative & ds & Hne & Hall & Hu & -> & _).
    rewrite ResolverFacts.parseRelativeDate_literal in Hp by done.
    unfold plus_calendar_units in Hp.
    repeat match type of Hp with
           | context [bool_decide ?P] => destruct (bool_decide P)
           end; by apply TimeClip_range in Hp.
  - unfold parseRelativeDate in Hp. rewrite Hs in Hp.
    unfold DateParse.Date_of_string, DateParse.is_iso_datetime in *.
    destruct (DateParse.iso_fields s) as [f|].
    + left. unfold DateParse.iso_time_value in Hp.
      destruct (_ && _); [|discriminate].
      destruct (DateParse.iso_time f) as [[[[hh mm] ss] ms]|].
      * destruct (DateParse.legal_time _); [|discriminate].
        destruct (DateParse.iso_offset f); by apply TimeClip_range in Hp.
      * by apply TimeClip_range in Hp.
    + destruct (DateParse.utc_string_time_value s) as [tv|].
      * left. by apply TimeClip_range in Hp.
      * by right.
Qed.

Lemma resolved_dates_are_in_range_witness :
  in_date_range 1677628800000
  \/ (match_relative "-30d" = None /\ DateParse.is_iso_datetime "-30d" = false
      /\ DateParse.utc_string_time_value "-30d" = None
      /\ host_date_fallback (utc_host 1680220800000) "-30d"
         = Some 1677628800000%Z).
Proof.
  exact (resolved_dates_are_in_range (utc_host 1680220800000) "-30d"
           1677628800000 eq_refl).
Defined.

(** Two hundred million days from the epoch there is no date. *)
Example too_many_days :
  parseRelativeDate (utc_host 0) "200000000d" = None
  /\ parseRelativeDate (utc_host 0) "100000000d" = Some 8640000000000000%Z.
Proof. split; reflexivity. Qed.

(* ===================================================================== *)
(** ** The evaluator on one snapshot of the table *)
(* ===================================================================== *)

Lemma Array_map_throwing_map {A} (f : A -> result JsValue) xs ys :
  Array_map_throwing f xs = Ok ys ->
  Forall (fun x => exists y, f x = Ok y) xs
  /\ ys = map (fun x => clause_of (f x)) xs.
Proof.
  revert ys. induction xs as [|x xs IH]; intros ys H; simpl in H.
  - injection H as <-. by split.
  - destruct (f x) as [y|] eqn:Hx; [|discriminate]. simpl in H.
    destruct (Array_map_throwing f xs) as [ys'|]; [|discriminate].
    simpl in H. injection H as <-.
    destruct (IH ys' eq_refl) as [Hall ->].
    split; [constructor; [by eexists|done]|]. simpl. by rewrite Hx.
Qed.

Lemma Array_map_throwing_of_map {A} (f : A -> result JsValue) xs :
  Forall (fun x => exists y, f x = Ok y) xs ->
  Array_map_throwing f xs = Ok (map (fun x => clause_of (f x)) xs).
Proof.
  induction 1 as [|x xs [y Hy] _ IH]; simpl; [done|].
  by rewrite Hy, IH.
Qed.

Lemma forallb_Permutation {A} (p : A -> bool) l l' :
  Permutation l l' -> forallb p l = forallb p l'.
Proof.
  induction 1 as [|x l l' _ IH|x y l|l l' l'' _ IH1 _ IH2]; simpl.
  - done.
  - by rewrite IH.
  - by destruct (p x), (p y).
  - by rewrite IH1.
Qed.

Lemma existsb_Permutation {A} (p : A -> bool) l l' :
  Permutation l l' -> existsb p l = existsb p l'.
Proof.
  induction 1 as [|x l l' _ IH|x y l|l l' l'' _ IH1 _ IH2]; simpl.
  - done.
  - by rewrite IH.
  - by destruct (p x), (p y).
  - by rewrite IH1.
Qed.

Section SnapshotFacts.
Variable field_holds : Db.Customer -> string -> JsValue -> bool.
Variable h : Host.

Lemma filters_where tenant f w :
  filtersToPrismaWhere h tenant f = Ok w ->
  Forall (fun g => exists gw, filterGroupToPrisma h g = Ok gw) (groups f)
  /\ w = JObj [("tenantId", JStr tenant);
               ("AND", JArr (map (fun g => clause_of (filterGroupToPrisma h g))
                                 (groups f)))].
Proof.
  unfold filtersToPrismaWhere. intros H.
  destruct (Array_map_throwing (filterGroupToPrisma h) (groups f))
    as [gws|] eqn:Hmap; [|discriminate].
  simpl in H. injection H as <-.
  apply Array_map_throwing_map in Hmap as [Hall ->]. by split.
Qed.

Lemma filters_where_of tenant f :
  Forall (fun g => exists gw, filterGroupToPrisma h g = Ok gw) (groups f) ->
  filtersToPrismaWhere h tenant f
  = Ok (JObj [("tenantId", JStr tenant);
              ("AND", JArr (map (fun g => clause_of (filterGroupToPrisma h g))
                                (groups f)))]).
Proof.
  intros Hall. unfold filtersToPrismaWhere.
  by rewrite (Array_map_throwing_of_map _ _ Hall).
Qed.

Lemma group_clause g gw :
  filterGroupToPrisma h g = Ok gw ->
  Forall (fun c => exists cw, conditionToPrisma h c = Ok cw) (conditions g)
  /\ gw = (if bool_decide (logic g = "AND") then conjunction else disjunction)
            (map (fun c => clause_of (conditionToPrisma h c)) (conditions g)).
Proof.
  unfold filterGroupToPrisma. intros H.
  destruct (Array_map_throwing (conditionToPrisma h) (conditions g))
    as [cws|] eqn:Hmap; [|discriminate].
  apply Array_map_throwing_map in Hmap as [Hall ->]. simpl in H.
  split; [done|].
  destruct (bool_decide (logic g = "AND")); by injection H as <-.
Qed.

Lemma group_clause_of g :
  Forall (fun c => exists cw, conditionToPrisma h c = Ok cw) (conditions g) ->
  filterGroupToPrisma h g
  = Ok ((if bool_decide (logic g = "AND") then conjunction else disjunction)
          (map (fun c => clause_of (conditionToPrisma h c)) (conditions g))).
Proof.
  intros Hall. unfold filterGroupToPrisma.
  rewrite (Array_map_throwing_of_map _ _ Hall). simpl.
  by destruct (bool_decide (logic g = "AND")).
Qed.

Lemma evaluateSegment_where db tenant f w :
  filtersToPrismaWhere h tenant f = Ok w ->
  evaluateSegment field_holds h db tenant f
  = Ok {| customerIds :=
            map Db.id (matching field_holds w (Db.seen_by_findMany db));
          totalCount :=
            Z.of_nat (length (matching field_holds w (Db.seen_by_aggregate db)));
          totalSpent :=
            sum_spent (matching field_holds w (Db.seen_by_aggregate db));
          evaluatedAt := Some (host_now h) |}.
Proof.
  intros Hw. unfold evaluateSegment. rewrite Hw. simpl.
  f_equal. f_equal. apply aggregate_sum.
Qed.

Lemma matching_ext w1 w2 rows :
  (forall row, Db.where_holds field_holds row w1
               = Db.where_holds field_holds row w2) ->
  matching field_holds w1 rows = matching field_holds w2 rows.
Proof. intros Heq. apply List.filter_ext. exact Heq. Qed.

End SnapshotFacts.

(** X16. On one snapshot of the table the three entry points agree: the
    count of [evaluateSegment] is the number of identifiers it returns and
    the result of [countMatchingCustomers]; the preview has the same count
    and its revenue is the total spend of the evaluation; the customers of
    the preview are among the identifiers of the evaluation, and they are
    all of them when the limit is not below the count. *)
Theorem entry_points_agree
    (field_holds : Db.Customer -> string -> JsValue -> bool)
    (h : Host) (rows : list Db.Customer) (tenant : string)
    (f : SegmentFilters) (r : EvaluationResult) :
  evaluateSegment field_holds h (Db.snapshot rows) tenant f = Ok r ->
  totalCount r = Z.of_nat (length (customerIds r))
  /\ countMatchingCustomers field_holds h rows tenant f = Ok (totalCount r)
  /\ forall limit : nat,
      exists p,
        previewSegmentCustomers field_holds h (Db.snapshot rows) tenant f
          (Some limit) = Ok p
        /\ preview_totalCount p = totalCount r
        /\ estimatedRevenue p = totalSpent r
        /\ (forall c, c ∈ customers p -> Preview.id c ∈ customerIds r)
        /\ length (customers p) = Nat.min limit (length (customerIds r))
        /\ (length (customerIds r) <= limit ->
            Permutation (map Preview.id (customers p)) (customerIds r)).
Proof.
  intros Hr.
  destruct (evaluateSegment_Ok _ _ _ _ _ _ Hr) as (w & Hw & Hids & Hn & Hs).
  simpl in Hids, Hn, Hs.
  split; [by rewrite Hn, Hids, length_map|].
  split.
  { unfold countMatchingCustomers. rewrite Hw. simpl. by rewrite Hn. }
  intros limit.
  assert (exists p,
             previewSegmentCustomers field_holds h (Db.snapshot rows) tenant f
               (Some limit) = Ok p) as [p Hp].
  { unfold previewSegmentCustomers. rewrite Hw. simpl. by eexists. }
  exists p. split; [done|].
  destruct (previewSegmentCustomers_Ok _ _ _ _ _ _ _ Hp)
    as (w' & Hw' & Hcs & Hn' & Hs').
  rewrite Hw in Hw'. injection Hw' as <-. simpl in Hcs, Hn', Hs'.
  split; [by rewrite Hn', Hn|]. split; [by rewrite Hs', Hs|].
  assert (Hpids : map Preview.id (customers p)
                  = map Db.id (firstn limit
                                 (Db.sort_desc (matching field_holds w rows)))).
  { rewrite Hcs, map_map. done. }
  split; [|split].
  - intros c Hc.
    assert (Hin : Preview.id c ∈ map Preview.id (customers p)).
    { apply list_elem_of_fmap. by exists c. }
    rewrite Hpids in Hin. rewrite Hids.
    apply list_elem_of_fmap in Hin as (row & -> & Hrow).
    apply list_elem_of_fmap. exists row. split; [done|].
    rewrite <- (sort_desc_Permutation (matching field_holds w rows)).
    eapply elem_of_sublist; [exact Hrow|apply sublist_take].
  - rewrite Hcs, Hids, !length_map, length_firstn.
    by rewrite (Permutation_length (sort_desc_Permutation _)).
  - intros Hle. rewrite Hpids, Hids.
    rewrite Hids, length_map in Hle.
    rewrite firstn_all2
      by by rewrite (Permutation_length (sort_desc_Permutation _)).
    apply Permutation_map, sort_desc_Permutation.
Qed.

Lemma entry_points_agree_witness :
  countMatchingCustomers numeric_field_holds (utc_host 0) sample_rows "t1"
    sample_filters = Ok 2%Z.
Proof.
  exact (proj1 (proj2 (entry_points_agree numeric_field_holds (utc_host 0)
           sample_rows "t1" sample_filters
           {| customerIds := ["c1"; "c5"]; totalCount := 2;
              totalSpent := 950; evaluatedAt := Some 0%Z |} eq_refl))).
Defined.

(** X17. The order of the groups, and the order of the conditions within
    a group, do not change what is matched: filters whose groups are those
    of translatable filters in another order evaluate to the same result,
    and a group whose conditions are those of a translatable group in
    another order, with the same logic, has a predicate that holds of the
    same rows. *)
Theorem order_is_immaterial
    (field_holds : Db.Customer -> string -> JsValue -> bool) (h : Host) :
  (forall f1 f2 db tenant r,
      Permutation (groups f1) (groups f2) ->
      evaluateSegment field_holds h db tenant f1 = Ok r ->
      evaluateSegment field_holds h db tenant f2 = Ok r)
  /\ (forall g1 g2 w1,
        Permutation (conditions g1) (conditions g2) -> logic g1 = logic g2 ->
        filterGroupToPrisma h g1 = Ok w1 ->
        exists w2,
          filterGroupToPrisma h g2 = Ok w2
          /\ forall row, Db.where_holds field_holds row w1
                         = Db.where_holds field_holds row w2).
Proof.
  split.
  - intros f1 f2 db tenant r Hperm Hr.
    destruct (evaluateSegment_Ok _ _ _ _ _ _ Hr) as (w & Hw & _).
    rewrite (evaluateSegment_where field_holds h db tenant f1 w Hw) in Hr.
    destruct (filters_where h tenant f1 w Hw) as [Hall ->].
    assert (Hall2 : Forall (fun g => exists gw, filterGroupToPrisma h g = Ok gw)
                           (groups f2)).
    { apply Forall_forall. intros g Hg. rewrite Forall_forall in Hall.
      apply Hall. by rewrite Hperm. }
    rewrite (evaluateSegment_where field_holds h db tenant f2 _
               (filters_where_of h tenant f2 Hall2)).
    rewrite <- Hr. f_equal.
    assert (Hsame : forall rows,
      matching field_holds
        (JObj [("tenantId", JStr tenant);
               ("AND", JArr (map (fun g => clause_of (filterGroupToPrisma h g))
                                 (groups f2)))]) rows
      = matching field_holds
          (JObj [("tenantId", JStr tenant);
                 ("AND", JArr (map (fun g => clause_of (filterGroupToPrisma h g))
                                   (groups f1)))]) rows).
    { intros rows. apply matching_ext. intros row.
      rewrite !where_holds_tenant. f_equal.
      apply forallb_Permutation, Permutation_map. by symmetry. }
    by rewrite !Hsame.
  - intros g1 g2 w1 Hperm Hlogic Hw1.
    destruct (group_clause h g1 w1 Hw1) as [Hall ->].
    assert (Hall2 : Forall (fun c => exists cw, conditionToPrisma h c = Ok cw)
                           (conditions g2)).
    { apply Forall_forall. intros c Hc. rewrite Forall_forall in Hall.
      apply Hall. by rewrite Hperm. }
    eexists. split; [by apply group_clause_of|].
    intros row. rewrite <- Hlogic.
    destruct (bool_decide (logic g1 = "AND")).
    + rewrite !where_holds_conjunction.
      by apply forallb_Permutation, Permutation_map.
    + rewrite !where_holds_disjunction.
      by apply existsb_Permutation, Permutation_map.
Qed.

Lemma order_is_immaterial_witness :
  evaluateSegment numeric_field_holds (utc_host 0) (Db.snapshot sample_rows)
    "t1" {| groups := rev (groups sample_filters) |}
  = Ok {| customerIds := ["c1"; "c5"]; totalCount := 2;
          totalSpent := 950; evaluatedAt := Some 0%Z |}.
Proof.
  refine (proj1 (order_is_immaterial numeric_field_holds (utc_host 0))
            sample_filters {| groups := rev (groups sample_filters) |}
            (Db.snapshot sample_rows) "t1" _ _ eq_refl).
  apply Permutation_rev.
Defined.

Lemma filter_andb {A} (p q : A -> bool) l :
  List.filter (fun x => p x && q x) l = List.filter q (List.filter p l).
Proof.
  induction l as [|x l IH]; simpl; [done|].
  destruct (p x); simpl; [|done]. destruct (q x); by rewrite IH.
Qed.

Lemma filter_never {A} (p : A -> bool) l :
  (forall x, p x = false) -> List.filter p l = [].
Proof.
  intros Hp. induction l as [|x l IH]; simpl; [done|]. by rewrite Hp.
Qed.

(** X18. Adding groups narrows a segment: on one snapshot of the table,
    when filters with further groups evaluate, so do the filters without
    them, the identifiers of the former are a sublist of those of the
    latter, and their count is not larger. *)
Theorem more_groups_match_less
    (field_holds : Db.Customer -> string -> JsValue -> bool) (h : Host)
    (rows : list Db.Customer) (tenant : string)
    (f : SegmentFilters) (more : list FilterGroup) (r2 : EvaluationResult) :
  evaluateSegment field_holds h (Db.snapshot rows) tenant
    {| groups := app (groups f) more |} = Ok r2 ->
  exists r1,
    evaluateSegment field_holds h (Db.snapshot rows) tenant f = Ok r1
    /\ sublist (customerIds r2) (customerIds r1)
    /\ (totalCount r2 <= totalCount r1)%Z.
Proof.
  intros Hr2.
  destruct (evaluateSegment_Ok _ _ _ _ _ _ Hr2) as (w2 & Hw2 & _).
  rewrite (evaluateSegment_where field_holds h _ tenant _ w2 Hw2) in Hr2.
  destruct (filters_where h tenant _ w2 Hw2) as [Hall ->].
  simpl in Hall. apply Forall_app in Hall as [Hall1 Hmore].
  pose proof (filters_where_of h tenant f Hall1) as Hw1.
  eexists. split; [by apply evaluateSegment_where|].
  injection Hr2 as <-. simpl.
  set (w1 := JObj [("tenantId", JStr tenant);
                   ("AND", JArr (map (fun g => clause_of (filterGroupToPrisma h g))
                                     (groups f)))]).
  set (w2 := JObj [("tenantId", JStr tenant);
                   ("AND", JArr (map (fun g => clause_of (filterGroupToPrisma h g))
                                     (app (groups f) more)))]).
  assert (Hnarrow : matching field_holds w2 rows
            = List.filter
                (fun row => forallb (Db.where_holds field_holds row)
                              (map (fun g => clause_of (filterGroupToPrisma h g))
                                   more))
                (matching field_holds w1 rows)).
  { unfold matching. rewrite <- filter_andb. apply List.filter_ext.
    intros row. unfold w1, w2. rewrite !where_holds_tenant.
    by rewrite map_app, forallb_app, andb_assoc. }
  rewrite Hnarrow. split.
  - apply (fmap_sublist Db.id), filter_sublist.
  - apply inj_le, sublist_length, filter_sublist.
Qed.

Lemma more_groups_match_less_witness :
  exists r1,
    evaluateSegment numeric_field_holds (utc_host 0) (Db.snapshot sample_rows)
      "t1" {| groups := firstn 1 (groups sample_filters) |} = Ok r1
    /\ sublist ["c1"; "c5"] (customerIds r1)
    /\ (2 <= totalCount r1)%Z.
Proof.
  exact (more_groups_match_less numeric_field_holds (utc_host 0) sample_rows
           "t1" {| groups := firstn 1 (groups sample_filters) |}
           (skipn 1 (groups sample_filters))
           {| customerIds := ["c1"; "c5"]; totalCount := 2;
              totalSpent := 950; evaluatedAt := Some 0%Z |} eq_refl).
Defined.

(** X19. Filters without groups, and groups without conditions, pass the
    validator and translate. Without groups the predicate is the tenant
    constraint alone: the evaluation returns every customer of the tenant.
    A group without conditions holds of every row when its logic is AND and
    of none otherwise: with such a group of another logic the evaluation
    returns nothing. *)
Theorem empty_filters_and_groups
    (field_holds : Db.Customer -> string -> JsValue -> bool) (h : Host)
    (rows : list Db.Customer) (tenant : string) (f : SegmentFilters) :
  (Forall (fun g => conditions g = []) (groups f) ->
   valid (validateFiltersExecutable f) = true
   /\ exists w, filtersToPrismaWhere h tenant f = Ok w)
  /\ (groups f = [] ->
      exists r,
        evaluateSegment field_holds h (Db.snapshot rows) tenant f = Ok r
        /\ customerIds r = map Db.id (rows_of_tenant tenant rows)
        /\ totalCount r = Z.of_nat (length (rows_of_tenant tenant rows)))
  /\ ((exists g, g ∈ groups f /\ conditions g = [] /\ logic g <> "AND") ->
      forall r,
        evaluateSegment field_holds h (Db.snapshot rows) tenant f = Ok r ->
        customerIds r = [] /\ totalCount r = 0%Z /\ totalSpent r = 0%Z).
Proof.
  split; [|split].
  - intros Hempty.
    assert (Hc : all_conditions f = []).
    { unfold all_conditions.
      induction Hempty as [|g gs Hg _ IH]; simpl; [done|]. by rewrite Hg, IH. }
    split.
    + apply unrejected_filters_valid. rewrite Hc. constructor.
    + pose proof (filtersToPrismaWhere_first h tenant f) as Hfirst.
      by rewrite Hc in Hfirst.
  - intros Hnone.
    assert (Hw : filtersToPrismaWhere h tenant f
                 = Ok (JObj [("tenantId", JStr tenant); ("AND", JArr [])])).
    { unfold filtersToPrismaWhere. by rewrite Hnone. }
    eexists. split; [by apply evaluateSegment_where|].
    simpl. unfold matching, rows_of_tenant. split.
    + f_equal. apply List.filter_ext. intros row. simpl.
      by rewrite !andb_true_r.
    + do 2 f_equal. apply List.filter_ext. intros row. simpl.
      by rewrite !andb_true_r.
  - intros (g & Hg & Hcs & Hlogic) r Hr.
    destruct (evaluateSegment_Ok _ _ _ _ _ _ Hr) as (w & Hw & Hids & Hn & Hs).
    destruct (filters_where h tenant f w Hw) as [Hall ->].
    assert (Hnone : forall rows',
      matching field_holds
        (JObj [("tenantId", JStr tenant);
               ("AND", JArr (map (fun g => clause_of (filterGroupToPrisma h g))
                                 (groups f)))]) rows' = []).
    { intros rows'. unfold matching. apply filter_never. intros row.
      rewrite where_holds_tenant.
      assert (Hfalse : forallb (Db.where_holds field_holds row)
                         (map (fun g => clause_of (filterGroupToPrisma h g))
                              (groups f)) = false).
      { apply not_true_is_false. rewrite forallb_forall. intros Hall'.
        specialize (Hall' (clause_of (filterGroupToPrisma h g))).
        assert (Hgw : filterGroupToPrisma h g = Ok (disjunction [])).
        { unfold filterGroupToPrisma. rewrite Hcs. simpl.
          by rewrite bool_decide_eq_false_2. }
        rewrite Hgw in Hall'. simpl in Hall'.
        assert (false = true) as Habs; [|discriminate].
        apply Hall'. apply in_map_iff. exists g.
        split; [by rewrite Hgw|by apply list_elem_of_In]. }
      by rewrite Hfalse, andb_false_r. }
    simpl in Hids, Hn, Hs. rewrite Hnone in Hids, Hn, Hs.
    by rewrite Hids, Hn, Hs.
Qed.

Lemma empty_filters_and_groups_witness :
  exists r,
    evaluateSegment numeric_field_holds (utc_host 0) (Db.snapshot sample_rows)
      "t1" {| groups := [] |} = Ok r
    /\ customerIds r = ["c1"; "c3"; "c4"; "c5"]
    /\ totalCount r = 4%Z.
Proof.
  exact (proj1 (proj2 (empty_filters_and_groups numeric_field_holds
           (utc_host 0) sample_rows "t1" {| groups := [] |})) eq_refl).
Defined.

(* ===================================================================== *)
(** ** The schemas *)
(* ===================================================================== *)

Section SchemaFacts.
Variable datetime_format : string -> bool.

Lemma z_refine_Some check schema v r :
  z_refine check schema v = Some r <-> schema v = Some r /\ check r = true.
Proof.
  unfold z_refine.
  destruct (schema v) as [r'|]; [|split; [discriminate|by intros [? _]]].
  destruct (check r') eqn:Hc; split.
  - by intros [= <-].
  - by intros [[= <-] _].
  - discriminate.
  - intros [[= <-] H]. congruence.
Qed.

Lemma z_enum_Some options v r :
  z_enum options v = Some r -> exists s, v = JStr s /\ r = JStr s /\ s ∈ options.
Proof.
  unfold z_enum, includes. destruct v; try discriminate.
  case_bool_decide; [|discriminate]. intros [= <-]. by eexists.
Qed.

Lemma z_array_Some element v r :
  z_array element v = Some r ->
  exists items rs, v = JArr items /\ r = JArr rs
                   /\ Forall2 (fun x y => element x = Some y) items rs.
Proof.
  unfold z_array. destruct v; try discriminate.
  destruct (mapM element items) as [rs|] eqn:Hm; [|discriminate].
  intros [= <-]. exists items, rs. repeat split. by apply mapM_Some_1.
Qed.

Lemma z_bounded_array_Some lo hi element v r :
  z_max hi (z_min lo (z_array element)) v = Some r ->
  exists items rs, v = JArr items /\ r = JArr rs
                   /\ Forall2 (fun x y => element x = Some y) items rs
                   /\ (lo <= length rs <= hi)%nat.
Proof.
  unfold z_max, z_min. rewrite !z_refine_Some. intros [[Ha Hlo] Hhi].
  apply z_array_Some in Ha as (items & rs & -> & -> & Hall).
  exists items, rs. repeat split; try done.
  - simpl in Hlo. by apply Nat.leb_le.
  - simpl in Hhi. by apply Nat.leb_le.
Qed.

Lemma z_refine_id check schema :
  returns_its_input schema -> returns_its_input (z_refine check schema).
Proof. intros Hs v r Hr. apply z_refine_Some in Hr as [Hr _]. by apply Hs. Qed.

Lemma z_union_id options :
  Forall returns_its_input options -> returns_its_input (z_union options).
Proof.
  induction 1 as [|schema rest Hs _ IH]; intros v r; simpl; [done|].
  destruct (schema v) as [r'|] eqn:Hv.
  - intros [= <-]. by apply Hs.
  - apply IH.
Qed.

Lemma Forall2_id (element : Schema) items rs :
  returns_its_input element ->
  Forall2 (fun x y => element x = Some y) items rs -> rs = items.
Proof.
  intros He. induction 1 as [|x y items rs Hxy _ IH]; [done|].
  by rewrite (He _ _ Hxy), IH.
Qed.

Lemma z_array_id element :
  returns_its_input element -> returns_its_input (z_array element).
Proof.
  intros He v r Hr.
  apply z_array_Some in Hr as (items & rs & -> & -> & Hall).
  by rewrite (Forall2_id element items rs).
Qed.

Lemma parse_items_id schemas items rs :
  Forall returns_its_input schemas ->
  parse_items schemas items = Some rs -> rs = items.
Proof.
  intros Hs. revert items rs.
  induction Hs as [|schema schemas Hs _ IH]; intros [|item items] rs;
    simpl; try discriminate.
  - by intros [= <-].
  - destruct (schema item) as [r|] eqn:Hr; [|discriminate].
    destruct (parse_items schemas items) as [rs'|] eqn:Hrs; [|discriminate].
    intros [= <-]. by rewrite (Hs _ _ Hr), (IH _ _ Hrs).
Qed.

Lemma z_tuple_id schemas :
  Forall returns_its_input schemas -> returns_its_input (z_tuple schemas).
Proof.
  intros Hs v r. unfold z_tuple. destruct v; try discriminate.
  destruct (parse_items schemas items) as [rs|] eqn:Hrs; [|discriminate].
  intros [= <-]. by rewrite (parse_items_id schemas items rs).
Qed.

Lemma z_optional_id schema :
  returns_its_input schema -> returns_its_input (z_optional schema).
Proof.
  intros Hs v r. unfold z_optional.
  destruct v; try apply Hs. by intros [= <-].
Qed.

Lemma primitives_id :
  returns_its_input z_string /\ returns_its_input z_number
  /\ returns_its_input z_boolean /\ returns_its_input z_null.
Proof.
  repeat split; intros v r; destruct v; simpl; congruence.
Qed.

Lemma z_enum_id options : returns_its_input (z_enum options).
Proof.
  intros v r Hr. apply z_enum_Some in Hr as (s & -> & -> & _). done.
Qed.

Lemma FilterValue_id : returns_its_input (FilterValue datetime_format).
Proof.
  destruct primitives_id as (Hstr & Hnum & Hbool & Hnull).
  assert (Hdate : returns_its_input (DateFilterValue datetime_format)).
  { apply z_union_id. repeat constructor; by apply z_refine_id. }
  apply z_optional_id, z_union_id.
  repeat constructor; try done.
  - by do 2 apply z_refine_id.
  - apply z_tuple_id. by repeat constructor.
  - apply z_tuple_id. by repeat constructor.
  - do 2 apply z_refine_id. apply z_array_id. by do 2 apply z_refine_id.
  - do 2 apply z_refine_id. by apply z_array_id.
  - apply z_refine_id, z_array_id, z_enum_id.
Qed.

Lemma FilterValue_empty_array :
  FilterValue datetime_format (JArr []) = None.
Proof. reflexivity. Qed.

(** What a parsed condition is. *)
Lemma FilterCondition_parsed v d :
  FilterCondition_schema datetime_format v = Some d ->
  exists props f o r,
    v = JObj props
    /\ js_get props "field" = JStr f /\ f ∈ FilterableField_options
    /\ js_get props "operator" = JStr o /\ o ∈ FilterOperator_options
    /\ FilterValue datetime_format (js_get props "value") = Some r
    /\ r = js_get props "value"
    /\ d = JObj (("field", JStr f) :: ("operator", JStr o)
                 :: match r with
                    | JUndefined =>
                        if has_key props "value" then [("value", r)] else []
                    | _ => [("value", r)]
                    end)
    /\ value_is_given d = true.
Proof.
  unfold FilterCondition_schema. rewrite z_refine_Some. intros [Hd Hgiven].
  unfold z_object in Hd. destruct v as [| | | | | | |props]; try discriminate.
  simpl in Hd.
  destruct (z_enum FilterableField_options (js_get props "field"))
    as [rf|] eqn:Hf; [|discriminate].
  destruct (z_enum FilterOperator_options (js_get props "operator"))
    as [ro|] eqn:Ho; [|destruct rf; discriminate].
  destruct (FilterValue datetime_format (js_get props "value"))
    as [r|] eqn:Hv; [|destruct rf, ro; discriminate].
  apply z_enum_Some in Hf as (f & Hf & -> & Hfin).
  apply z_enum_Some in Ho as (o & Ho & -> & Hoin).
  exists props, f, o, r.
  pose proof (FilterValue_id _ _ Hv) as Hr.
  repeat split; try done.
  - destruct r; simpl in Hd;
      try (destruct (has_key props "value")); by injection Hd as <-.
Qed.

Lemma infer_parsed_condition v d :
  FilterCondition_schema datetime_format v = Some d ->
  field (infer_condition d) ∈ FilterableField_options
  /\ operator (infer_condition d) ∈ FilterOperator_options
  /\ FilterValue datetime_format (value (infer_condition d))
     = Some (value (infer_condition d))
  /\ (operator (infer_condition d) ∉ ["isNull"; "isNotNull"] ->
      value (infer_condition d) <> JUndefined
      /\ value (infer_condition d) <> JNull).
Proof.
  intros Hd.
  apply FilterCondition_parsed in Hd
    as (props & f & o & r & -> & Hf & Hfin & Ho & Hoin & Hv & Hr & -> & Hgiven).
  assert (Hval : js_prop
            (JObj (("field", JStr f) :: ("operator", JStr o)
                   :: match r with
                      | JUndefined =>
                          if has_key props "value" then [("value", r)] else []
                      | _ => [("value", r)]
                      end)) "value" = r).
  { destruct r; try reflexivity. simpl. by destruct (has_key props "value"). }
  unfold infer_condition. cbn [field operator value].
  rewrite Hval.
  change (js_string (js_prop (JObj (("field", JStr f) :: ?[rest])) "field"))
    with f.
  change (js_string
            (js_prop (JObj (("field", JStr f) :: ("operator", JStr o) :: ?[rest']))
                     "operator"))
    with o.
  split; [done|]. split; [done|]. split; [by rewrite <- Hr in Hv |].
  intros Hop. unfold value_is_given in Hgiven. rewrite Hval in Hgiven.
  simpl in Hgiven.
  rewrite !not_elem_of_cons in Hop. destruct Hop as (H1 & H2 & _).
  rewrite !bool_decide_eq_false_2 in Hgiven by done. simpl in Hgiven.
  split; intros ->; discriminate.
Qed.

End SchemaFacts.

Section SchemaTheorems.
Variable datetime_format : string -> bool.

Lemma Forall2_parsed {A} (schema : Schema) (infer : JsValue -> A)
    (P : A -> Prop) items rs :
  (forall v d, schema v = Some d -> P (infer d)) ->
  Forall2 (fun x y => schema x = Some y) items rs ->
  Forall P (map infer rs).
Proof.
  intros HP. induction 1 as [|x y items rs Hxy _ IH]; simpl; constructor.
  - by apply (HP x).
  - exact IH.
Qed.

Lemma FilterGroup_parsed v d :
  FilterGroup_schema datetime_format v = Some d ->
  well_formed_group datetime_format (infer_group d).
Proof.
  unfold FilterGroup_schema, z_object.
  destruct v as [| | | | | | |props]; try discriminate. simpl.
  destruct (z_enum FilterLogic_options (js_get props "logic"))
    as [rl|] eqn:Hl; [|discriminate].
  destruct (z_max 20 (z_min 1 (z_array (FilterCondition_schema datetime_format)))
              (js_get props "conditions")) as [rc|] eqn:Hc;
    [|destruct rl; discriminate].
  apply z_enum_Some in Hl as (l & _ & -> & Hlin).
  apply z_bounded_array_Some in Hc as (items & rs & _ & -> & Hall & Hlen).
  intros [= <-]. unfold well_formed_group, infer_group. simpl.
  rewrite length_map. split; [done|]. split; [done|].
  apply (Forall2_parsed (FilterCondition_schema datetime_format)
           infer_condition _ items rs); [|done].
  intros v d. apply infer_parsed_condition.
Qed.

Lemma SegmentFilters_parsed v d :
  SegmentFilters_schema datetime_format v = Some d ->
  well_formed_filters datetime_format (infer_filters d).
Proof.
  unfold SegmentFilters_schema, z_object.
  destruct v as [| | | | | | |props]; try discriminate. simpl.
  destruct (z_max 10 (z_min 1 (z_array (FilterGroup_schema datetime_format)))
              (js_get props "groups")) as [rg|] eqn:Hg; [|discriminate].
  apply z_bounded_array_Some in Hg as (items & rs & _ & -> & Hall & Hlen).
  intros [= <-]. unfold well_formed_filters, infer_filters. simpl.
  rewrite length_map. split; [done|].
  apply (Forall2_parsed (FilterGroup_schema datetime_format)
           infer_group _ items rs); [|done].
  intros v d. apply FilterGroup_parsed.
Qed.

Lemma condition_encoded c :
  well_formed_condition datetime_format c ->
  FilterCondition_schema datetime_format (js_of_condition c)
  = Some (js_of_condition c).
Proof.
  intros (Hf & Ho & Hv & Hgiven).
  unfold FilterCondition_schema. apply z_refine_Some. split.
  - unfold z_object, js_of_condition, js_condition. simpl.
    unfold includes.
    rewrite (bool_decide_eq_true_2 _ Hf), (bool_decide_eq_true_2 _ Ho), Hv.
    by destruct (value c).
  - unfold value_is_given, js_of_condition, js_condition. simpl.
    destruct (decide (operator c = "isNull")) as [E|E].
    { by rewrite (bool_decide_eq_true_2 _ E). }
    destruct (decide (operator c = "isNotNull")) as [E'|E'].
    { rewrite (bool_decide_eq_true_2 _ E'). by rewrite orb_true_r. }
    rewrite !bool_decide_eq_false_2 by done. simpl.
    destruct Hgiven as [Hu Hn].
    { rewrite !not_elem_of_cons. repeat split; try done. apply not_elem_of_nil. }
    by destruct (value c).
Qed.

Lemma mapM_encoded {A} (schema : Schema) (encode : A -> JsValue) xs :
  Forall (fun x => schema (encode x) = Some (encode x)) xs ->
  mapM schema (map encode xs) = Some (map encode xs).
Proof.
  intros Hall. apply mapM_Some_2.
  induction Hall as [|x xs Hx _ IH]; simpl; by constructor.
Qed.

Lemma bounded_array_encoded {A} (schema : Schema) (encode : A -> JsValue)
    lo hi xs :
  Forall (fun x => schema (encode x) = Some (encode x)) xs ->
  (lo <= length xs <= hi)%nat ->
  z_max hi (z_min lo (z_array schema)) (JArr (map encode xs))
  = Some (JArr (map encode xs)).
Proof.
  intros Hall [Hlo Hhi]. unfold z_max, z_min.
  apply z_refine_Some. split; [apply z_refine_Some; split|].
  - unfold z_array. by rewrite (mapM_encoded schema encode xs Hall).
  - simpl. rewrite length_map. by apply Nat.leb_le.
  - simpl. rewrite length_map. by apply Nat.leb_le.
Qed.

Lemma group_encoded g :
  well_formed_group datetime_format g ->
  FilterGroup_schema datetime_format (js_of_group g) = Some (js_of_group g).
Proof.
  intros (Hl & Hlen & Hcs).
  unfold FilterGroup_schema, z_object, js_of_group, js_group.
  cbn [parse_shape js_get]. simpl bool_decide. cbv iota.
  unfold z_enum at 1. unfold includes. rewrite (bool_decide_eq_true_2 _ Hl).
  rewrite (bounded_array_encoded (FilterCondition_schema datetime_format)
             js_of_condition 1 20 (conditions g)); [done| |done].
  eapply Forall_impl; [exact Hcs|]. intros c. apply condition_encoded.
Qed.

Lemma filters_encoded f :
  well_formed_filters datetime_format f ->
  SegmentFilters_schema datetime_format (js_of_filters f)
  = Some (js_of_filters f).
Proof.
  intros (Hlen & Hgs).
  unfold SegmentFilters_schema, z_object, js_of_filters, js_filters.
  cbn [parse_shape js_get]. simpl bool_decide. cbv iota.
  rewrite (bounded_array_encoded (FilterGroup_schema datetime_format)
             js_of_group 1 10 (groups f)); [done| |done].
  eapply Forall_impl; [exact Hgs|]. intros g. apply group_encoded.
Qed.

Lemma infer_encoded f : infer_filters (js_of_filters f) = f.
Proof.
  destruct f as [gs]. unfold infer_filters, js_of_filters, js_filters. simpl.
  f_equal. rewrite map_map.
  rewrite <- (map_id gs) at 2. apply map_ext. intros [l cs].
  unfold infer_group, js_of_group, js_group. simpl. f_equal.
  rewrite map_map. rewrite <- (map_id cs) at 2. apply map_ext.
  by intros [f o v].
Qed.

End SchemaTheorems.

Lemma well_formed_conditions datetime_format f c :
  well_formed_filters datetime_format f -> c ∈ all_conditions f ->
  well_formed_condition datetime_format c.
Proof.
  intros [_ Hgs] Hc. unfold all_conditions in Hc.
  apply list_elem_of_In, in_concat in Hc as (cs & Hcs & Hc).
  apply in_map_iff in Hcs as (g & <- & Hg).
  apply list_elem_of_In in Hg, Hc.
  rewrite Forall_forall in Hgs. destruct (Hgs g Hg) as (_ & _ & Hall).
  rewrite Forall_forall in Hall. by apply Hall.
Qed.

Lemma nonempty_membership_list datetime_format c :
  well_formed_condition datetime_format c ->
  Array_isArray (value c) = true ->
  exists x xs, value c = JArr (x :: xs).
Proof.
  intros (_ & _ & Hv & _) Harr.
  destruct (value c) as [| | | | | |xs|]; try discriminate.
  destruct xs as [|x xs].
  - by rewrite (FilterValue_empty_array datetime_format) in Hv.
  - by exists x, xs.
Qed.

Lemma unrejected_membership c :
  validator_rejects c = false -> operator c ∈ ["in"; "notIn"] ->
  Array_isArray (value c) = true.
Proof.
  unfold validator_rejects, includes. intros Hr Hop.
  rewrite (bool_decide_eq_true_2 _ Hop) in Hr.
  destruct (Array_isArray (value c)); [done|].
  simpl in Hr. rewrite !orb_true_r in Hr. discriminate.
Qed.

Section SchemaValidationTheorems.
Variable datetime_format : string -> bool.
Variable issues_text : JsValue -> string.

(** X20. Filters that pass [validateSegmentFilters] come back as data, with
    no error text, and have the shape the schemas describe: between 1 and 10
    groups, each with logic AND or OR and between 1 and 20 conditions, each
    condition on an enumerated field with an enumerated operator and a value
    that one of the value schemas admits, which is given (neither undefined
    nor null) unless the operator is isNull or isNotNull. *)
Theorem accepted_filters_are_well_formed (v : JsValue) :
  success (validateSegmentFilters datetime_format issues_text v) = true ->
  exists f,
    data (validateSegmentFilters datetime_format issues_text v) = Some f
    /\ error (validateSegmentFilters datetime_format issues_text v) = None
    /\ well_formed_filters datetime_format f.
Proof.
  unfold validateSegmentFilters.
  destruct (SegmentFilters_schema datetime_format v) as [d|] eqn:Hd;
    [|discriminate].
  intros _. exists (infer_filters d). simpl. split; [done|]. split; [done|].
  by apply (SegmentFilters_parsed datetime_format v).
Qed.

(** X21. Round trip: filters of the shape the schemas describe, written as
    a value, pass [validateSegmentFilters] and come back unchanged as its
    data. *)
Theorem well_formed_filters_round_trip (f : SegmentFilters) :
  well_formed_filters datetime_format f ->
  validateSegmentFilters datetime_format issues_text (js_of_filters f)
  = {| success := true; data := Some f; error := None |}.
Proof.
  intros Hf. unfold validateSegmentFilters.
  rewrite (filters_encoded datetime_format f Hf).
  by rewrite infer_encoded.
Qed.

(** X22. The two validations together make filters executable: when
    [validateSegmentFilters] returns filters as data and
    [validateFiltersExecutable] finds them valid, [filtersToPrismaWhere]
    returns a where object for every tenant on every host, every [in] and
    [notIn] condition carries a non-empty array, and every [between]
    condition an array of two values. *)
Theorem accepted_filters_execute (v : JsValue) (f : SegmentFilters)
    (h : Host) (tenant : string) :
  data (validateSegmentFilters datetime_format issues_text v) = Some f ->
  valid (validateFiltersExecutable f) = true ->
  (exists w, filtersToPrismaWhere h tenant f = Ok w)
  /\ (forall c, c ∈ all_conditions f -> operator c ∈ ["in"; "notIn"] ->
        exists x xs, value c = JArr (x :: xs))
  /\ (forall c, c ∈ all_conditions f -> operator c = "between" ->
        exists a b, value c = JArr [a; b]).
Proof.
  unfold validateSegmentFilters.
  destruct (SegmentFilters_schema datetime_format v) as [d|] eqn:Hd;
    [|discriminate].
  simpl. intros [= <-] Hvalid.
  pose proof (SegmentFilters_parsed datetime_format v d Hd) as Hwf.
  split; [|split].
  - pose proof (filtersToPrismaWhere_first h tenant (infer_filters d))
      as Hfirst.
    destruct (first_exception _ (all_conditions (infer_filters d)))
      as [m|] eqn:Hm; [|done].
    apply first_exception_elem in Hm as (c & Hc & Hthrow).
    destruct (well_formed_conditions datetime_format _ c Hwf Hc)
      as (_ & Hop & _).
    destruct (proj1 (unrejected_translates h c
                       (accepted_conditions _ c Hvalid Hc)) Hop) as [w Hw].
    congruence.
  - intros c Hc Hop.
    apply (nonempty_membership_list datetime_format).
    + by apply (well_formed_conditions datetime_format (infer_filters d)).
    + apply unrejected_membership; [|done].
      by apply (accepted_conditions (infer_filters d)).
  - intros c Hc Hop.
    pose proof (unrejected_between c
                  (accepted_conditions _ c Hvalid Hc) Hop) as Hpair.
    destruct (value c) as [| | | | | |[|a [|b [|]]]|]; try discriminate.
    by exists a, b.
Qed.

End SchemaValidationTheorems.

Lemma accepted_filters_are_well_formed_witness :
  exists f,
    data (validateSegmentFilters (fun _ => false) (fun _ => "invalid")
            sample_js_filters) = Some f
    /\ error (validateSegmentFilters (fun _ => false) (fun _ => "invalid")
                sample_js_filters) = None
    /\ well_formed_filters (fun _ => false) f.
Proof.
  exact (accepted_filters_are_well_formed (fun _ => false)
           (fun _ => "invalid") sample_js_filters eq_refl).
Defined.

Lemma sample_filters_well_formed :
  well_formed_filters (fun _ => false) sample_filters.
Proof.
  assert (Hc : forall f o v,
             includes FilterableField_options f = true ->
             includes FilterOperator_options o = true ->
             FilterValue (fun _ => false) v = Some v ->
             v <> JUndefined /\ v <> JNull ->
             well_formed_condition (fun _ => false) (condition f o v)).
  { intros f o v Hf Ho Hv Hg. unfold includes in *.
    split; [by apply bool_decide_eq_true_1 in Hf|].
    split; [by apply bool_decide_eq_true_1 in Ho|].
    split; [done|]. by intros _. }
  split; [simpl; lia|].
  constructor; [|constructor; [|constructor]].
  - split; [apply (bool_decide_unpack _); exact I|].
    split; [simpl; lia|].
    constructor; [|constructor].
    apply Hc; [reflexivity|reflexivity|reflexivity|by split].
  - split; [apply (bool_decide_unpack _); exact I|].
    split; [simpl; lia|].
    constructor; [|constructor; [|constructor]].
    + apply Hc; [reflexivity|reflexivity|reflexivity|by split].
    + apply Hc; [reflexivity|reflexivity|reflexivity|by split].
Defined.

Lemma well_formed_filters_round_trip_witness :
  validateSegmentFilters (fun _ => false) (fun _ => "invalid")
    (js_of_filters sample_filters)
  = {| success := true; data := Some sample_filters; error := None |}.
Proof.
  exact (well_formed_filters_round_trip (fun _ => false) (fun _ => "invalid")
           sample_filters sample_filters_well_formed).
Defined.

Lemma accepted_filters_execute_witness :
  (exists w, filtersToPrismaWhere (utc_host 0) "t1" sample_filters = Ok w)
  /\ (forall c, c ∈ all_conditions sample_filters ->
        operator c ∈ ["in"; "notIn"] ->
        exists x xs, value c = JArr (x :: xs))
  /\ (forall c, c ∈ all_conditions sample_filters ->
        operator c = "between" ->
        exists a b, value c = JArr [a; b]).
Proof.
  exact (accepted_filters_execute (fun _ => false) (fun _ => "invalid")
           sample_js_filters sample_filters (utc_host 0) "t1"
           eq_refl eq_refl).
Defined.

(** The schema alone does not make filters executable: it admits a number
    as the value of [between], which the translation refuses. *)
Example schema_admits_a_malformed_between :
  let v := js_filters [js_group "AND"
                         [js_condition "totalSpent" "between" (JNum 5)]] in
  exists f,
    data (validateSegmentFilters (fun _ => false) (fun _ => "invalid") v)
    = Some f
    /\ valid (validateFiltersExecutable f) = false
    /\ filtersToPrismaWhere (utc_host 0) "t1" f
       = Throw "Invalid between value for field totalSpent".
Proof. eexists. split; [reflexivity|]. split; reflexivity. Qed.

(** *** Objects and requests *)

Lemma js_get_other k k' v props :
  k <> k' -> js_get ((k, v) :: props) k' = js_get props k'.
Proof. intros Hk. simpl. by rewrite (bool_decide_eq_false_2 _ Hk). Qed.

Lemma js_get_this k v props : js_get ((k, v) :: props) k = v.
Proof. simpl. by rewrite (bool_decide_eq_true_2 (k = k) eq_refl). Qed.

Lemma parse_shape_keys shape props parsed k :
  parse_shape shape props = Some parsed -> k ∉ shape.*1 ->
  js_get parsed k = JUndefined.
Proof.
  revert parsed. induction shape as [|[k' schema] shape IH]; simpl.
  - by intros parsed [= <-].
  - intros parsed Hp Hk. apply not_elem_of_cons in Hk as [Hk Hks].
    destruct (schema (js_get props k')) as [r|]; [|discriminate].
    destruct (parse_shape shape props) as [parsed'|];
      [|destruct r; discriminate].
    assert (Hskip : js_get ((k', r) :: parsed') k = JUndefined).
    { rewrite js_get_other by done. by apply IH. }
    destruct r; try (injection Hp as <-; exact Hskip).
    destruct (has_key props k'); injection Hp as <-; [exact Hskip|].
    by apply IH.
Qed.

(** Every key of the shape is parsed by its schema, and read back from the
    parsed object. *)
Lemma parse_shape_fields shape props parsed :
  NoDup shape.*1 -> parse_shape shape props = Some parsed ->
  Forall (fun entry => entry.2 (js_get props entry.1)
                       = Some (js_get parsed entry.1)) shape.
Proof.
  revert parsed. induction shape as [|[k schema] shape IH]; simpl.
  - constructor.
  - intros parsed Hnd Hp. apply NoDup_cons in Hnd as [Hk Hnd].
    destruct (schema (js_get props k)) as [r|] eqn:Hr; [|discriminate].
    destruct (parse_shape shape props) as [parsed'|] eqn:Hrest;
      [|destruct r; discriminate].
    assert (Hin : Forall (fun entry => entry.2 (js_get props entry.1)
                            = Some (js_get ((k, r) :: parsed') entry.1))
                    ((k, schema) :: shape)).
    { constructor; simpl.
      - by rewrite (bool_decide_eq_true_2 (k = k) eq_refl).
      - specialize (IH parsed' Hnd eq_refl).
        rewrite Forall_forall in IH. apply Forall_forall.
        intros [k' schema'] Hin. specialize (IH _ Hin). simpl in *.
        rewrite bool_decide_eq_false_2; [done|].
        intros ->. apply Hk. apply list_elem_of_fmap. by exists (k', schema'). }
    destruct r; try (injection Hp as <-; exact Hin).
    destruct (has_key props k); injection Hp as <-; [exact Hin|].
    constructor; simpl.
    + rewrite Hr. f_equal. symmetry.
      by apply (parse_shape_keys shape props).
    + by apply IH.
Qed.

(** An object is admitted when each key of the shape is. *)
Lemma parse_shape_accepts shape props :
  Forall (fun entry => is_Some (entry.2 (js_get props entry.1))) shape ->
  is_Some (parse_shape shape props).
Proof.
  induction 1 as [|[k schema] shape [r Hr] _ [parsed IH]]; simpl.
  - by eexists.
  - simpl in Hr. rewrite Hr, IH.
    destruct r; try by eexists. destruct (has_key props k); by eexists.
Qed.

Lemma z_optional_defined (schema : Schema) v :
  v <> JUndefined -> z_optional schema v = schema v.
Proof. by destruct v. Qed.

Lemma z_nullable_not_null (schema : Schema) v :
  v <> JNull -> z_nullable schema v = schema v.
Proof. by destruct v. Qed.

Section RequestTheorems.
Variable datetime_format : string -> bool.

(** X23. Every value [CreateSegmentRequest] admits, [UpdateSegmentRequest]
    admits as well, with the same name, description and filters in the
    parsed data; the two differ on [isActive] only, and only when the
    value leaves it out: the create request then says [true] and the update
    request leaves it out. *)
Theorem create_requests_are_update_requests (v d : JsValue) :
  CreateSegmentRequest datetime_format v = Some d ->
  exists d',
    UpdateSegmentRequest datetime_format v = Some d'
    /\ js_prop d' "name" = js_prop d "name"
    /\ js_prop d' "description" = js_prop d "description"
    /\ js_prop d' "filters" = js_prop d "filters"
    /\ (js_prop v "isActive" = JUndefined ->
        js_prop d "isActive" = JBool true
        /\ js_prop d' "isActive" = JUndefined)
    /\ (js_prop v "isActive" <> JUndefined ->
        js_prop d' "isActive" = js_prop d "isActive").
Proof.
  unfold CreateSegmentRequest, UpdateSegmentRequest, z_object.
  destruct v as [| | | | | | |props]; try discriminate.
  destruct (parse_shape _ props) as [pc|] eqn:Hpc; [|discriminate].
  intros [= <-].
  apply parse_shape_fields in Hpc;
    [|by apply (bool_decide_unpack _); vm_compute].
  apply Forall_cons in Hpc as [Hname Hpc].
  apply Forall_cons in Hpc as [Hdesc Hpc].
  apply Forall_cons in Hpc as [Hfilters Hpc].
  apply Forall_cons in Hpc as [Hactive _].
  cbn [fst snd] in Hname, Hdesc, Hfilters, Hactive.
  assert (Hname' : z_optional (z_max 100 (z_min 1 z_string))
                     (js_get props "name") = Some (js_get pc "name")).
  { rewrite z_optional_defined; [done|]. intros E. by rewrite E in Hname. }
  assert (Hdesc' : z_nullable (z_optional (z_max 1000 z_string))
                     (js_get props "description")
                   = Some (js_get pc "description")).
  { rewrite z_nullable_not_null; [done|]. intros E. by rewrite E in Hdesc. }
  assert (Hfilters' : z_optional (SegmentFilters_schema datetime_format)
                        (js_get props "filters")
                      = Some (js_get pc "filters")).
  { rewrite z_optional_defined; [done|]. intros E. by rewrite E in Hfilters. }
  assert (Hactive' : z_optional z_boolean (js_get props "isActive")
                     = Some (match js_get props "isActive" with
                             | JUndefined => JUndefined
                             | _ => js_get pc "isActive"
                             end)).
  { destruct (js_get props "isActive"); try discriminate; try done. }
  destruct (parse_shape_accepts
              [("name", z_optional (z_max 100 (z_min 1 z_string)));
               ("description",
                z_nullable (z_optional (z_max 1000 z_string)));
               ("filters",
                z_optional (SegmentFilters_schema datetime_format));
               ("isActive", z_optional z_boolean)] props) as [pu Hpu].
  { repeat (apply List.Forall_cons); try apply List.Forall_nil;
      cbn [fst snd]; by eexists. }
  rewrite Hpu. exists (JObj pu). split; [done|].
  apply parse_shape_fields in Hpu;
    [|by apply (bool_decide_unpack _); vm_compute].
  apply Forall_cons in Hpu as [Uname Hpu].
  apply Forall_cons in Hpu as [Udesc Hpu].
  apply Forall_cons in Hpu as [Ufilters Hpu].
  apply Forall_cons in Hpu as [Uactive _].
  cbn [fst snd] in Uname, Udesc, Ufilters, Uactive.
  cbn [js_prop].
  split; [congruence|]. split; [congruence|]. split; [congruence|].
  rewrite Uactive in Hactive'. injection Hactive' as ->.
  destruct (js_get props "isActive") eqn:E;
    (split; [try discriminate|try done]).
  intros _. split; [|done]. simpl in Hactive. congruence.
Qed.

(** X24. A value [PreviewSegmentRequest] admits carries filters that
    [SegmentFilters] admits and a limit between 1 and 100, the one of the
    value when it gives one and 10 when it leaves it out; 10 is also the
    default of the parameter of [previewSegmentCustomers], so the preview
    with the parsed limit is then the preview without a limit argument. *)
Theorem preview_request_contract
    (field_holds : Db.Customer -> string -> JsValue -> bool) (h : Host)
    (db : Db.Store) (tenant : string) (v d : JsValue) :
  PreviewSegmentRequest datetime_format v = Some d ->
  SegmentFilters_schema datetime_format (js_prop v "filters")
  = Some (js_prop d "filters")
  /\ well_formed_filters datetime_format (infer_filters (js_prop d "filters"))
  /\ exists n : Z,
       js_prop d "limit" = JNum n /\ (1 <= n <= 100)%Z
       /\ (js_prop v "limit" <> JUndefined -> js_prop v "limit" = JNum n)
       /\ (js_prop v "limit" = JUndefined ->
           n = 10%Z
           /\ forall f,
               previewSegmentCustomers field_holds h db tenant f
                 (Some (Z.to_nat n))
               = previewSegmentCustomers field_holds h db tenant f None).
Proof.
  unfold PreviewSegmentRequest, z_object.
  destruct v as [| | | | | | |props]; try discriminate.
  destruct (parse_shape _ props) as [pd|] eqn:Hpd; [|discriminate].
  intros [= <-].
  apply parse_shape_fields in Hpd;
    [|by apply (bool_decide_unpack _); vm_compute].
  apply Forall_cons in Hpd as [Hfilters Hpd].
  apply Forall_cons in Hpd as [Hlimit _].
  cbn [fst snd] in Hfilters, Hlimit. cbn [js_prop].
  split; [done|]. split; [by apply (SegmentFilters_parsed _ _ _ Hfilters)|].
  assert (Hnum : forall x r,
             z_number_max 100 (z_number_min 1 (z_int z_number)) x = Some r ->
             exists n : Z, x = JNum n /\ r = JNum n /\ (1 <= n <= 100)%Z).
  { intros x r Hx. unfold z_number_max, z_number_min, z_int in Hx.
    apply z_refine_Some in Hx as [Hx Hmax].
    apply z_refine_Some in Hx as [Hx Hmin].
    apply z_refine_Some in Hx as [Hx _].
    destruct x; try discriminate. injection Hx as <-.
    eexists. split; [done|]. split; [done|].
    apply Z.leb_le in Hmax, Hmin. lia. }
  destruct (js_get props "limit") as [| | |x| | | |] eqn:E;
    try (apply Hnum in Hlimit as (m & Hx & _); discriminate).
  - apply Hnum in Hlimit as (m & Hx & -> & Hm).
    injection Hx as <-. exists 10%Z.
    split; [done|]. split; [done|]. split; [done|]. by intros _.
  - apply Hnum in Hlimit as (m & Hx & -> & Hm).
    exists m. split; [done|]. split; [done|]. split; [by intros _|done].
Qed.

End RequestTheorems.

Lemma create_requests_are_update_requests_witness :
  exists d',
    UpdateSegmentRequest (fun _ => false)
      (JObj [("name", JStr "vip"); ("filters", sample_js_filters)])
    = Some d'
    /\ js_prop d' "isActive" = JUndefined.
Proof.
  destruct (create_requests_are_update_requests (fun _ => false)
              (JObj [("name", JStr "vip"); ("filters", sample_js_filters)])
              _ eq_refl) as (d' & Hd' & _ & _ & _ & Hactive & _).
  exists d'. split; [exact Hd'|]. exact (proj2 (Hactive eq_refl)).
Defined.

Lemma preview_request_contract_witness :
  exists n : Z,
    js_prop (default JNull
               (PreviewSegmentRequest (fun _ => false)
                  (JObj [("filters", sample_js_filters)]))) "limit"
    = JNum n
    /\ n = 10%Z.
Proof.
  destruct (preview_request_contract (fun _ => false) numeric_field_holds
              (utc_host 0) (Db.snapshot sample_rows) "t1"
              (JObj [("filters", sample_js_filters)]) _ eq_refl)
    as (_ & _ & n & Hn & _ & _ & Hdefault).
  exists n. split; [exact Hn|exact (proj1 (Hdefault eq_refl))].
Defined.
